(** * log-scan agents: validation shim, dependency matching, tool merging
      and cost tracing

    A shallow embedding of the Python sources

    - [agents/agent.py]      (class [Agent]: [_normalize_pydantic_errors],
                              [_validate_with_model], [_lookup_with_model]),
    - [agents/lib/agent.py]  ([_extract_tools_from_deps], [_merge_tools]),
    - [agents/Context.py]    ([Context.inject], [_unwrap_optional],
                              [_matches_type]),
    - [agents/tooled.py]     ([TooledConfig], [TooledDeps]),
    - [agents/simple.py]     ([match_pricing], [estimate_cost_usd],
                              [CostTracingHandler], the totals of [run]),

    followed by the properties proved about them.

    Conventions.  Python values live in one inductive universe [Value];
    a [dict] is an insertion-ordered association list; a Python [float]
    is given by the rational number ([Q]) it equals, a decimal literal by
    the number it reads, and the arithmetic on floats rounds to the
    nearest binary64 number, ties to even ([Simple.round_binary64]); a
    string is the byte string of its UTF-8 encoding, and a slice counts
    characters; an exception is a constructor of [Exn] carried by
    [Result].  The schema library
    (pydantic v2) and the tokenizer (tiktoken) are not part of the
    repository: the first is modelled for the field kinds the repository
    uses, the second is a parameter. *)

From Stdlib Require Import ZArith QArith Qround Qabs Qpower String Ascii List Bool
  DecimalString Lia Lqa.
From stdpp Require Import base strings list gmap.

#[local] Set Warnings "-register-all,-clear-no-such-hyp,-abstract-large-number".

Open Scope string_scope.

(* ===================================================================== *)
(** * Python values                                                       *)
(* ===================================================================== *)

Module Py.

(** A class object.  Classes are compared by identity ([cls_id]);
    [cls_name] is [__name__], which two different classes may share. *)
Record PyClass := { cls_id : positive; cls_name : string }.

#[global] Instance PyClass_eq_dec : EqDecision PyClass.
Proof. solve_decision. Defined.

Definition cls_object    : PyClass := {| cls_id := 1;  cls_name := "object" |}.
Definition cls_NoneType  : PyClass := {| cls_id := 2;  cls_name := "NoneType" |}.
Definition cls_bool      : PyClass := {| cls_id := 3;  cls_name := "bool" |}.
Definition cls_int       : PyClass := {| cls_id := 4;  cls_name := "int" |}.
Definition cls_float     : PyClass := {| cls_id := 5;  cls_name := "float" |}.
Definition cls_str       : PyClass := {| cls_id := 6;  cls_name := "str" |}.
Definition cls_list      : PyClass := {| cls_id := 7;  cls_name := "list" |}.
Definition cls_dict      : PyClass := {| cls_id := 8;  cls_name := "dict" |}.
Definition cls_function  : PyClass := {| cls_id := 9;  cls_name := "function" |}.
Definition cls_BaseModel : PyClass := {| cls_id := 10; cls_name := "BaseModel" |}.
Definition cls_BaseTool  : PyClass := {| cls_id := 11; cls_name := "BaseTool" |}.
Definition cls_Tool      : PyClass := {| cls_id := 12; cls_name := "Tool" |}.

(** A langchain tool instance: [tool_id] is the identity of the object,
    [name] and [description] its two string attributes. *)
Record BaseTool := { tool_id : positive; name : string; description : string }.

#[global] Instance BaseTool_eq_dec : EqDecision BaseTool.
Proof. solve_decision. Defined.

Inductive Value : Type :=
| VNone
| VBool  (b : bool)
| VInt   (z : Z)
| VFloat (q : Q)
| VStr   (s : string)
| VList  (l : list Value)
| VDict  (d : list (string * Value))
| VFunc  (qualname : string)
| VTool  (t : BaseTool)
| VObj   (mro : list PyClass) (attrs : list (string * Value)).

(** ** Dictionaries: insertion-ordered, keyed by strings *)

Fixpoint dict_get {V : Type} (k : string) (d : list (string * V)) : option V :=
  match d with
  | [] => None
  | (k', v) :: d' => if String.eqb k k' then Some v else dict_get k d'
  end.

Definition dict_mem {V : Type} (k : string) (d : list (string * V)) : bool :=
  match dict_get k d with Some _ => true | None => false end.

(** [d[k] = v]: an existing key keeps its position and takes the new
    value; a new key goes last. *)
Fixpoint dict_set {V : Type} (k : string) (v : V) (d : list (string * V))
  : list (string * V) :=
  match d with
  | [] => [(k, v)]
  | (k', v') :: d' =>
      if String.eqb k k' then (k, v) :: d' else (k', v') :: dict_set k v d'
  end.

Definition dict_values {V : Type} (d : list (string * V)) : list V := map snd d.
Definition dict_keys {V : Type} (d : list (string * V)) : list string := map fst d.

(** ** Strings *)

Definition startswith (s p : string) : bool := String.prefix p s.

Definition endswith (s suf : string) : bool :=
  let n := String.length s in
  let m := String.length suf in
  if (m <=? n)%nat then String.eqb (substring (n - m) m s) suf else false.

Definition lower_ascii (c : ascii) : ascii :=
  let n := nat_of_ascii c in
  if ((65 <=? n) && (n <=? 90))%nat then ascii_of_nat (n + 32) else c.

(** [s.lower()] on the ASCII letters. *)
Fixpoint lower (s : string) : string :=
  match s with
  | EmptyString => EmptyString
  | String c s' => String (lower_ascii c) (lower s')
  end.

(** [sep.join(l)] *)
Fixpoint join (sep : string) (l : list string) : string :=
  match l with
  | [] => ""
  | [x] => x
  | x :: l' => x +:+ sep +:+ join sep l'
  end.

(** A byte [10xxxxxx] continues the character begun before it. *)
Definition is_continuation (a : ascii) : bool :=
  let n := nat_of_ascii a in (128 <=? n)%nat && (n <? 192)%nat.

(** [s[:n]]: the first [n] characters, each with all its bytes. *)
Fixpoint slice_to (n : nat) (s : string) : string :=
  match s with
  | EmptyString => EmptyString
  | String a rest =>
      if is_continuation a then String a (slice_to n rest)
      else match n with
           | O => EmptyString
           | S n' => String a (slice_to n' rest)
           end
  end.

(** [str(z)] for an integer. *)
Definition str_of_Z (z : Z) : string := NilZero.string_of_int (Z.to_int z).

(** [a or b] for optional strings: [None] and [""] are falsy. *)
Definition or_str (a b : option string) : option string :=
  match a with
  | Some (String _ _) => a
  | _ => b
  end.

(** ** Objects *)

(** [type(v).__mro__] *)
Definition mro_of (v : Value) : list PyClass :=
  match v with
  | VNone    => [cls_NoneType; cls_object]
  | VBool _  => [cls_bool; cls_int; cls_object]
  | VInt _   => [cls_int; cls_object]
  | VFloat _ => [cls_float; cls_object]
  | VStr _   => [cls_str; cls_object]
  | VList _  => [cls_list; cls_object]
  | VDict _  => [cls_dict; cls_object]
  | VFunc _  => [cls_function; cls_object]
  | VTool _  => [cls_Tool; cls_BaseTool; cls_object]
  | VObj mro _ => mro
  end.

(** [isinstance(v, c)] for a class [c]. *)
Definition isinstance (v : Value) (c : PyClass) : bool :=
  bool_decide (c ∈ mro_of v).

(** [getattr(v, a, None)], for the data attributes the model records. *)
Definition getattr (v : Value) (a : string) : Value :=
  match v with
  | VObj _ attrs => match dict_get a attrs with Some x => x | None => VNone end
  | VTool t =>
      if String.eqb a "name" then VStr (name t)
      else if String.eqb a "description" then VStr (description t)
      else VNone
  | _ => VNone
  end.

(** [callable(v)]: functions and bound methods. *)
Definition callable (v : Value) : bool :=
  match v with
  | VFunc _ => true
  | _ => false
  end.

(** Truth value of an object with no [__bool__] or [__len__] of its own. *)
Definition truthy (v : Value) : bool :=
  match v with
  | VNone => false
  | VBool b => b
  | VInt z => negb (z =? 0)%Z
  | VFloat q => negb (Qeq_bool q 0)
  | VStr s => negb (String.eqb s "")
  | VList l => match l with [] => false | _ => true end
  | VDict d => match d with [] => false | _ => true end
  | VFunc _ | VTool _ | VObj _ _ => true
  end.

(** ** Type annotations *)

(** What a field annotation evaluates to: [typing.Any], a class, a
    [typing.Union[...]] ([Optional[T]] is [Union[T, None]]), a union
    written with a bar, [X | Y] (a [types.UnionType]), or another
    subscripted generic such as [List[int]], known by its origin's name. *)
Inductive TypeAnn : Type :=
| TAny
| TCls (c : PyClass)
| TUnion (args : list TypeAnn)
| TBar (args : list TypeAnn)
| TGeneric (origin : string).

(** ** Exceptions *)

(** A pydantic error record, as [ValidationError.errors()] yields it: a
    dict whose keys [type], [loc], [msg], [ctx] may each be absent. *)
Inductive LocItem := LStr (s : string) | LInt (i : Z).

Record ErrorDetails := {
  e_type : option string;
  e_loc  : option (list LocItem);
  e_msg  : option string;
  e_ctx  : option Value
}.

(** [ValueError(arg)], pydantic's [ValidationError] (a subclass of
    [ValueError]) and [TypeError(msg)]. *)
Inductive Exn :=
| ValueError (arg : Value)
| ValidationError (errs : list ErrorDetails)
| TypeError (msg : string)
| AttributeError (msg : string).

(** [isinstance(e, ValueError)], what [except ValueError] catches. *)
Definition is_ValueError (e : Exn) : bool :=
  match e with
  | ValueError _ | ValidationError _ => true
  | TypeError _ | AttributeError _ => false
  end.

Inductive Result (A : Type) :=
| Ok (a : A)
| Raise (e : Exn).
Arguments Ok {A} a.
Arguments Raise {A} e.

End Py.

(* ===================================================================== *)
(** * The schema library                                                  *)
(* ===================================================================== *)

(** pydantic v2 is an external library.  The model below covers the
    model classes this repository declares: fields that are [str], [int],
    [float], [bool], [Any] or instance-checked classes, each possibly
    [Optional], with an optional default and optional [ge]/[le] bounds,
    validated in pydantic's default (lax) mode with extra keys ignored.
    One error is reported per offending field, in field order, with
    [loc = (field,)]. *)

Module Pydantic.
Import Py.

(** The library's lexical conversions, left abstract: how a string is
    read as a number in lax mode, and how a bound prints in a message. *)
Class NumberSyntax := {
  parse_int   : string -> option Z;
  parse_float : string -> option Q;
  show_number : Q -> string
}.

Inductive BaseType :=
| BAny
| BStr
| BInt
| BFloat
| BBool
| BInstance (c : PyClass).

(** [FieldInfo]: [default = None] is a required field; [ge] and [le] are
    the bounds as they were written, an [int] or a [float]; [pep604]
    tells that a nullable field is written [T | None] rather than
    [Optional[T]]. *)
Record FieldInfo := {
  base     : BaseType;
  nullable : bool;
  pep604   : bool;
  default  : option Value;
  ge       : option Value;
  le       : option Value
}.

(** A model class: the class object, the rest of its MRO, and
    [model_fields] in declaration order. *)
Record ModelClass := {
  model_cls    : PyClass;
  model_bases  : list PyClass;
  model_fields : list (string * FieldInfo)
}.

(** The classes of the values that are not model instances. *)
Definition builtin_classes : list PyClass :=
  [cls_object; cls_NoneType; cls_bool; cls_int; cls_float; cls_str; cls_list;
   cls_dict; cls_function; cls_BaseTool; cls_Tool].

(** What the record above cannot express about a model class: it is a
    class of its own, and [model_fields], a dict, has distinct keys. *)
Definition is_model_class (m : ModelClass) : Prop :=
  (model_cls m ∉ builtin_classes) ∧ NoDup (map fst (model_fields m)).

(** [field.annotation] *)
Definition annotation (fi : FieldInfo) : TypeAnn :=
  let t := match base fi with
           | BAny => TAny
           | BStr => TCls cls_str
           | BInt => TCls cls_int
           | BFloat => TCls cls_float
           | BBool => TCls cls_bool
           | BInstance c => TCls c
           end in
  if nullable fi then
    if pep604 fi then TBar [t; TCls cls_NoneType] else TUnion [t; TCls cls_NoneType]
  else t.

(** An error before its location is known: kind, message, context. *)
Definition Failure : Type := string * string * option Value.

Definition Q_of_bool (b : bool) : Q := if b then 1 else 0.

Definition is_integral (q : Q) : bool := Qeq_bool q (inject_Z (Qfloor q)).

Definition bool_words_true  : list string := ["1"; "on"; "t"; "true"; "y"; "yes"].
Definition bool_words_false : list string := ["0"; "off"; "f"; "false"; "n"; "no"].

Definition mem_str (s : string) (l : list string) : bool :=
  existsb (String.eqb s) l.

Section Validators.
Context `{NumberSyntax}.

Definition validate_str (v : Value) : Value + Failure :=
  match v with
  | VStr _ => inl v
  | _ => inr ("string_type", "Input should be a valid string", None)
  end.

Definition validate_int (v : Value) : Value + Failure :=
  match v with
  | VInt _ => inl v
  | VBool b => inl (VInt (if b then 1 else 0))
  | VFloat q =>
      if is_integral q then inl (VInt (Qfloor q))
      else inr ("int_from_float",
                "Input should be a valid integer, got a number with a fractional part",
                None)
  | VStr s =>
      match parse_int s with
      | Some z => inl (VInt z)
      | None => inr ("int_parsing",
                     "Input should be a valid integer, unable to parse string as an integer",
                     None)
      end
  | _ => inr ("int_type", "Input should be a valid integer", None)
  end.

Definition validate_float (v : Value) : Value + Failure :=
  match v with
  | VFloat _ => inl v
  | VInt z => inl (VFloat (inject_Z z))
  | VBool b => inl (VFloat (Q_of_bool b))
  | VStr s =>
      match parse_float s with
      | Some q => inl (VFloat q)
      | None => inr ("float_parsing",
                     "Input should be a valid number, unable to parse string as a number",
                     None)
      end
  | _ => inr ("float_type", "Input should be a valid number", None)
  end.

Definition bool_parsing : Failure :=
  ("bool_parsing", "Input should be a valid boolean, unable to interpret input", None).

Definition bool_type : Failure :=
  ("bool_type", "Input should be a valid boolean", None).

(** A float is read as the integer it equals, if any: one with a
    fractional part is of the wrong type, a whole one other than 0 and 1
    cannot be interpreted. *)
Definition validate_bool (v : Value) : Value + Failure :=
  match v with
  | VBool _ => inl v
  | VInt z =>
      if (z =? 0)%Z then inl (VBool false)
      else if (z =? 1)%Z then inl (VBool true)
      else inr bool_parsing
  | VFloat q =>
      if negb (is_integral q) then inr bool_type
      else if Qeq_bool q 0 then inl (VBool false)
      else if Qeq_bool q 1 then inl (VBool true)
      else inr bool_parsing
  | VStr s =>
      if mem_str (lower s) bool_words_true then inl (VBool true)
      else if mem_str (lower s) bool_words_false then inl (VBool false)
      else inr bool_parsing
  | _ => inr bool_type
  end.

Definition validate_instance (c : PyClass) (v : Value) : Value + Failure :=
  if isinstance v c then inl v
  else inr ("is_instance_of",
            "Input should be an instance of " +:+ cls_name c,
            Some (VDict [("class", VStr (cls_name c))])).

(** The numeric value of an [int] or a [float]. *)
Definition number_of (v : Value) : option Q :=
  match v with
  | VInt z => Some (inject_Z z)
  | VFloat q => Some q
  | _ => None
  end.

(** A declared bound with its numeric value. *)
Definition bound_of (b : option Value) : option (Value * Q) :=
  match b with
  | Some v => match number_of v with
              | Some q => Some (v, q)
              | None => None
              end
  | None => None
  end.

Definition check_ge (fi : FieldInfo) (v : Value) (x : Q) : Value + Failure :=
  match bound_of (ge fi) with
  | Some (bv, a) =>
      if Qle_bool a x then inl v
      else inr ("greater_than_equal",
                "Input should be greater than or equal to " +:+ show_number a,
                Some (VDict [("ge", bv)]))
  | None => inl v
  end.

(** [le] is checked before [ge]; the first violated bound is reported. *)
Definition check_bounds (fi : FieldInfo) (v : Value) : Value + Failure :=
  match number_of v with
  | None => inl v
  | Some x =>
      match bound_of (le fi) with
      | Some (bv, b) =>
          if Qle_bool x b then check_ge fi v x
          else inr ("less_than_equal",
                    "Input should be less than or equal to " +:+ show_number b,
                    Some (VDict [("le", bv)]))
      | None => check_ge fi v x
      end
  end.

Definition validate_base (fi : FieldInfo) (v : Value) : Value + Failure :=
  match base fi with
  | BAny => inl v
  | BStr => validate_str v
  | BInt => match validate_int v with inl v' => check_bounds fi v' | inr f => inr f end
  | BFloat => match validate_float v with inl v' => check_bounds fi v' | inr f => inr f end
  | BBool => validate_bool v
  | BInstance c => validate_instance c v
  end.

(** Validation of a supplied value against a field. *)
Definition validate_value (fi : FieldInfo) (v : Value) : Value + Failure :=
  match v with
  | VNone => if nullable fi then inl VNone else validate_base fi v
  | _ => validate_base fi v
  end.

Definition located (fname : string) (f : Failure) : ErrorDetails :=
  let '(ty, msg, ctx) := f in
  {| e_type := Some ty; e_loc := Some [LStr fname]; e_msg := Some msg; e_ctx := ctx |}.

Definition missing_error (fname : string) : ErrorDetails :=
  {| e_type := Some "missing"; e_loc := Some [LStr fname];
     e_msg := Some "Field required"; e_ctx := None |}.

(** One field of a model called with keyword arguments [kwargs]: its
    attribute, or its error. *)
Definition validate_field (kwargs : list (string * Value))
    (fname : string) (fi : FieldInfo) : (string * Value) + ErrorDetails :=
  match dict_get fname kwargs with
  | Some v =>
      match validate_value fi v with
      | inl v' => inl (fname, v')
      | inr f => inr (located fname f)
      end
  | None =>
      match default fi with
      | Some d => inl (fname, d)
      | None => inr (missing_error fname)
      end
  end.

(** All fields, in declaration order: attributes and errors. *)
Fixpoint validate_fields (kwargs : list (string * Value))
    (fields : list (string * FieldInfo))
  : list (string * Value) * list ErrorDetails :=
  match fields with
  | [] => ([], [])
  | (fname, fi) :: rest =>
      let '(attrs, errs) := validate_fields kwargs rest in
      match validate_field kwargs fname fi with
      | inl a => (a :: attrs, errs)
      | inr e => (attrs, e :: errs)
      end
  end.

(** The model class called with keyword arguments [kwargs].  With fields
    of the kinds above the call returns the instance or raises the
    library's [ValidationError], nothing else.  A field whose type is
    itself a model class, which the library builds from a dict given for
    it, is not among these kinds. *)
Definition construct (m : ModelClass) (kwargs : list (string * Value)) : Result Value :=
  match validate_fields kwargs (model_fields m) with
  | (attrs, []) => Ok (VObj (model_cls m :: model_bases m) attrs)
  | (_, errs) => Raise (ValidationError errs)
  end.

End Validators.

(** [inst.model_dump()]: nested model instances are dumped too. *)
Fixpoint dump (v : Value) : Value :=
  match v with
  | VObj mro attrs =>
      if bool_decide (cls_BaseModel ∈ mro)
      then VDict (map (fun kv => (fst kv, dump (snd kv))) attrs)
      else v
  | VList l => VList (map dump l)
  | VDict d => VDict (map (fun kv => (fst kv, dump (snd kv))) d)
  | _ => v
  end.

Definition model_dump (inst : Value) : Result Value :=
  match inst with
  | VObj _ attrs => Ok (VDict (map (fun kv => (fst kv, dump (snd kv))) attrs))
  | _ => Raise (AttributeError "model_dump")
  end.

End Pydantic.

(* ===================================================================== *)
(** * agents/agent.py: class Agent                                        *)
(* ===================================================================== *)

(** [agents/lib/agent.py] repeats the three methods below as class
    methods with the same bodies. *)

Module Agent.
Import Py Pydantic.

(** A dict display [{k1: v1, ..., kn: vn}], keys evaluated left to right. *)
Definition dict_lit (l : list (string * Value)) : list (string * Value) :=
  fold_left (fun d kv => dict_set (fst kv) (snd kv) d) l [].

(** [str(x)] for an element of [loc]. *)
Definition str_of_loc (x : LocItem) : string :=
  match x with
  | LStr s => s
  | LInt i => str_of_Z i
  end.

(** [payload in (None, {}, [])] *)
Definition in_blank (payload : Value) : bool :=
  match payload with
  | VNone | VDict [] | VList [] => true
  | _ => false
  end.

(** The heuristic of [_normalize_pydantic_errors] for one error [e]. *)
Definition is_missing (e : ErrorDetails) : bool :=
  let etype := match e_type e with Some t => t | None => "" end in
  let msg := match e_msg e with Some m => m | None => "" end in
  endswith etype ".missing"
  || String.eqb etype "missing"
  || startswith (lower msg) "field required".

Definition pointer_of (e : ErrorDetails) : string :=
  match e_loc e with
  | None | Some [] => "/"
  | Some loc => "/" +:+ join "/" (map str_of_loc loc)
  end.

Definition normalize_error (where_ : string) (e : ErrorDetails) : Value :=
  let pointer := pointer_of e in
  let etype := match e_type e with Some t => t | None => "" end in
  VDict [
    ("code", VStr (if is_missing e then where_ +:+ ".missing"
                   else where_ +:+ ".validation"));
    ("title", VStr (if is_missing e then "Campo requerido ausente"
                    else "Error de validación"));
    ("detail", VStr (match e_msg e with Some m => m | None => "Entrada inválida" end));
    ("source", VDict [("pointer", VStr pointer)]);
    ("meta", VDict [("type", VStr etype);
                    ("ctx", match e_ctx e with Some c => c | None => VNone end)])
  ].

Definition _normalize_pydantic_errors (where_ : string) (ve : list ErrorDetails)
  : list Value :=
  map (normalize_error where_) ve.

Section Methods.
Context `{NumberSyntax}.

(** [self.__class__.__name__] *)
Variable class_name : string.

Definition not_supported_item (where_ : string) : Value :=
  VDict [
    ("code", VStr (where_ +:+ ".not_supported"));
    ("title", VStr (where_ +:+ " no admitido"));
    ("detail", VStr (class_name +:+ " no acepta " +:+ where_ +:+ "."));
    ("source", VDict [("pointer", VStr ("/" +:+ where_))])
  ].

Definition failure_report (where_ : string) (ve : list ErrorDetails) : Value :=
  VDict [("ok", VBool false);
         ("errors", VList (_normalize_pydantic_errors where_ ve))].

Definition _validate_with_model (model : option ModelClass) (payload : Value)
    (where_ : string) : Result Value :=
  match model with
  | None =>
      if negb (in_blank payload) then
        Raise (ValueError (VDict [("ok", VBool false);
                                  ("errors", VList [not_supported_item where_])]))
      else Ok VNone
  | Some m =>
      if isinstance payload (model_cls m) then Ok payload
      else
        match payload with
        | VNone =>
            match construct m [] with
            | Raise (ValidationError ve) => Raise (ValueError (failure_report where_ ve))
            | r => r
            end
        | VDict kwargs =>
            match construct m kwargs with
            | Raise (ValidationError ve) => Raise (ValueError (failure_report where_ ve))
            | r => r
            end
        | _ =>
            Raise (TypeError (where_ +:+ " debe ser " +:+ cls_name (model_cls m)
                              +:+ ", dict o None"))
        end
  end.

Definition report (ok : bool) (where_ : string) (validated errors : Value) : Value :=
  VDict (dict_lit [("ok", VBool ok); (where_, validated);
                   ("errors", errors); ("schema", VNone)]).

Definition _lookup_with_model (model : option ModelClass) (payload : Value)
    (where_ : string) : Result Value :=
  match model with
  | None =>
      if negb (in_blank payload)
      then Ok (report false where_ VNone (VList [not_supported_item where_]))
      else Ok (report true where_ VNone (VList []))
  | Some _ =>
      match _validate_with_model model payload where_ with
      | Ok inst =>
          match inst with
          | VNone => Ok (report true where_ VNone (VList []))
          | _ =>
              match model_dump inst with
              | Ok dumped => Ok (report true where_ dumped (VList []))
              | Raise e => Raise e
              end
          end
      | Raise e =>
          if is_ValueError e then
            let data := match e with
                        | ValueError (VDict d) => d
                        | _ => []
                        end in
            let errors :=
              match dict_get "errors" data with
              | Some errs => errs
              | None => VList [VDict [("code", VStr (where_ +:+ ".error"));
                                      ("title", VStr ("Error de " +:+ where_))]]
              end in
            Ok (report false where_ VNone errors)
          else Raise e
      end
  end.

(** [where] is "config" or "deps". *)
Inductive Where := Config | Deps.

Definition where_name (w : Where) : string :=
  match w with
  | Config => "config"
  | Deps => "deps"
  end.

(** [lookup_config] and [lookup_deps], over the models the class
    declares. *)
Definition lookup_config (config_model : option ModelClass) (cfg : Value) :=
  _lookup_with_model config_model cfg (where_name Config).

Definition lookup_deps (deps_model : option ModelClass) (deps : Value) :=
  _lookup_with_model deps_model deps (where_name Deps).

End Methods.

Section Resolve.
Context `{NumberSyntax} {A : Type}.

Variable class_name : string.

(** What [config_model()] and [deps_model()] return for the class. *)
Variables config_model deps_model : option ModelClass.

(** The abstract [_execute] of the subclass. *)
Variable _execute : string -> Value -> Value -> Result A.

Definition resolve (instruction : string) (cfg deps : Value) : Result A :=
  match _validate_with_model class_name config_model cfg "config" with
  | Raise e => Raise e
  | Ok cfg_valid =>
      match _validate_with_model class_name deps_model deps "deps" with
      | Raise e => Raise e
      | Ok deps_valid => _execute instruction cfg_valid deps_valid
      end
  end.

End Resolve.

End Agent.

(* ===================================================================== *)
(** * agents/tooled.py: the declared models                               *)
(* ===================================================================== *)

Module Tooled.
Import Py Pydantic.

Definition cls_TooledConfig : PyClass := {| cls_id := 100; cls_name := "TooledConfig" |}.
Definition cls_TooledDeps   : PyClass := {| cls_id := 101; cls_name := "TooledDeps" |}.
Definition cls_BaseMemory   : PyClass := {| cls_id := 102; cls_name := "BaseMemory" |}.
Definition cls_RAGExpander  : PyClass := {| cls_id := 103; cls_name := "RAGExpander" |}.

Definition plain (b : BaseType) (d : Value) : FieldInfo :=
  {| base := b; nullable := false; pep604 := false; default := Some d;
     ge := None; le := None |}.

Definition TooledConfig : ModelClass := {|
  model_cls := cls_TooledConfig;
  model_bases := [cls_BaseModel; cls_object];
  model_fields := [
    ("model", plain BStr (VStr "gpt-4o-mini"));
    ("temperature",
       {| base := BFloat; nullable := false; pep604 := false;
          default := Some (VFloat 0%Q);
          ge := Some (VFloat 0%Q); le := Some (VFloat 2%Q) |});
    ("max_tokens",
       {| base := BInt; nullable := false; pep604 := false;
          default := Some (VInt 256%Z);
          ge := Some (VInt 1%Z); le := Some (VInt 8192%Z) |});
    ("lang", plain BStr (VStr "es"));
    ("system_prompt",
       plain BStr (VStr "Eres un agente útil. Usa herramientas cuando sea necesario."))
  ]
|}.

(** [memory] is declared [Optional[BaseMemory]], and [BaseMemory] is a
    model class of langchain, an abstract one.  The library accepts
    [None] and an instance of it, and rejects a value that is neither an
    instance nor a dict: so far the instance check below agrees with it,
    up to the kind of the error ([model_type] in the library).  From a
    dict the library tries to build a [BaseMemory], which is no
    validation; the properties that depend on [memory] leave a dict
    given for it out. *)
Definition TooledDeps : ModelClass := {|
  model_cls := cls_TooledDeps;
  model_bases := [cls_BaseModel; cls_object];
  model_fields := [
    ("memory",
       {| base := BInstance cls_BaseMemory; nullable := true; pep604 := false;
          default := Some VNone; ge := None; le := None |});
    ("rag", plain (BInstance cls_RAGExpander) VNone)
  ]
|}.

(** [obj.a]: the attribute, or [AttributeError]. *)
Definition attr (obj : Value) (a : string) : Result Value :=
  match obj with
  | VObj _ attrs =>
      match dict_get a attrs with
      | Some x => Ok x
      | None => Raise (AttributeError a)
      end
  | VTool t =>
      if String.eqb a "name" then Ok (VStr (name t))
      else if String.eqb a "description" then Ok (VStr (description t))
      else Raise (AttributeError a)
  | _ => Raise (AttributeError a)
  end.

(** [TooledAgent._execute]: what it prints, and what it returns. *)
Definition _execute (instruction : string) (cfg ctx : Value)
  : Result (list Value * string) :=
  match attr ctx "rag" with
  | Ok rag => Ok ([rag], "verde")
  | Raise e => Raise e
  end.

(** [TooledAgent.resolve] *)
Definition resolve `{NumberSyntax} (instruction : string) (cfg deps : Value)
  : Result (list Value * string) :=
  Agent.resolve "TooledAgent" (Some TooledConfig) (Some TooledDeps) _execute
    instruction cfg deps.

End Tooled.

(* ===================================================================== *)
(** * agents/Context.py                                                   *)
(* ===================================================================== *)

Module Context.
Import Py Pydantic.

Definition is_NoneType (t : TypeAnn) : bool :=
  match t with
  | TCls c => bool_decide (c = cls_NoneType)
  | _ => false
  end.

(** [get_origin] of a union written with a bar is [types.UnionType], not
    [Union]: such an annotation is returned as it is. *)
Definition _unwrap_optional (t : TypeAnn) : TypeAnn :=
  match t with
  | TUnion args =>
      match List.filter (fun a => negb (is_NoneType a)) args with
      | [a] => a
      | _ => t
      end
  | _ => t
  end.

(** The instance check of a union, of either kind: its members are tried
    in order, and a member that is not a class raises [TypeError] ([None]
    here). *)
Fixpoint union_check (instance : Value) (args : list TypeAnn) : option bool :=
  match args with
  | [] => Some false
  | TCls c :: rest =>
      if isinstance instance c then Some true else union_check instance rest
  | _ :: _ => None
  end.

(** [isinstance(instance, T)]; [None] when it raises [TypeError]. *)
Definition isinstance_ann (instance : Value) (T : TypeAnn) : option bool :=
  match T with
  | TCls c => Some (isinstance instance c)
  | TUnion args | TBar args => union_check instance args
  | TAny | TGeneric _ => None
  end.

(** [getattr(T, "__name__", "")]; a union written with a bar has no
    [__name__]. *)
Definition type_name (T : TypeAnn) : string :=
  match T with
  | TCls c => cls_name c
  | TAny => "Any"
  | TUnion _ => "Union"
  | TBar _ => ""
  | TGeneric origin => origin
  end.

Definition _matches_type (instance : Value) (expected_type : TypeAnn) : bool :=
  match expected_type with
  | TAny => true
  | _ =>
      let T := _unwrap_optional expected_type in
      match isinstance_ann instance T with
      | Some true => true
      | _ =>
          if String.eqb (type_name T) "RAGExpander"
          then callable (getattr instance "expand")
          else false
      end
  end.

Definition is_None (v : Value) : bool :=
  match v with VNone => true | _ => false end.

(** The inner loop of [inject]: the first utility that matches, or
    [None]. *)
Definition provided_for (utils : list Value) (expected : TypeAnn) : Value :=
  match find (fun obj => _matches_type obj expected) utils with
  | Some obj => obj
  | None => VNone
  end.

(** The keyword arguments [inject] builds, slot by slot. *)
Definition inject_values (utils : list Value) (fields : list (string * FieldInfo))
  : list (string * Value) :=
  fold_left
    (fun values nf =>
       let provided := provided_for utils (annotation (snd nf)) in
       if negb (is_None provided) then dict_set (fst nf) provided values else values)
    fields [].

(** [Context.inject]; [utils] is [self._utils]. *)
Definition inject `{NumberSyntax} (utils : list Value) (deps_model : option ModelClass)
  : Result Value :=
  match deps_model with
  | None => Ok VNone
  | Some m => construct m (inject_values utils (model_fields m))
  end.

End Context.

(* ===================================================================== *)
(** * agents/lib/agent.py: tools                                          *)
(* ===================================================================== *)

Module LibAgent.
Import Py Pydantic.

(** [deps_bm.model_fields] are the fields of its class, given here as
    [fields]; the instances of [BaseTool] are the values [VTool t]. *)
Definition _extract_tools_from_deps (fields : list (string * FieldInfo))
    (deps_bm : Value) : list BaseTool :=
  if truthy deps_bm then
    flat_map (fun nf =>
                match getattr deps_bm (fst nf) with
                | VTool t => [t]
                | _ => []
                end) fields
  else [].

(** One step of the comprehension [{t.name: t for t in prefer_left}]. *)
Definition ins_left (by_ : list (string * BaseTool)) (t : BaseTool) :=
  dict_set (name t) t by_.

(** The body of the loop over [right]. *)
Definition ins_right (by_ : list (string * BaseTool)) (t : BaseTool) :=
  if negb (dict_mem (name t) by_) then dict_set (name t) t by_ else by_.

Definition _merge_tools (prefer_left right : list BaseTool) : list BaseTool :=
  let by0 := fold_left ins_left prefer_left [] in
  let by1 := fold_left ins_right right by0 in
  dict_values by1.

(** The three slots an instance holds. *)
Record AgentState := {
  _cfg   : Value;
  _deps  : Value;
  _tools : list BaseTool
}.

(** [[t for t in (tools or []) if isinstance(t, BaseTool)]] *)
Definition only_tools (tools : list Value) : list BaseTool :=
  flat_map (fun v => match v with VTool t => [t] | _ => [] end) tools.

(** [Agent.__init__].  The validation methods are class methods here, so
    the [cls.__class__.__name__] of their messages is the name of the
    metaclass.  [fields] stands for [deps_bm.model_fields]: the fields of
    the dependency model, which is the class of the validated
    dependencies unless the payload was an instance of a subclass of
    it. *)
Definition __init__ `{NumberSyntax} (config_model deps_model : option ModelClass)
    (cfg deps : Value) (tools : list Value) : Result AgentState :=
  match Agent._validate_with_model "ABCMeta" config_model cfg "config" with
  | Raise e => Raise e
  | Ok cfg_valid =>
      match Agent._validate_with_model "ABCMeta" deps_model deps "deps" with
      | Raise e => Raise e
      | Ok deps_valid =>
          let fields := match deps_model with
                        | Some m => model_fields m
                        | None => []
                        end in
          let deps_tools := _extract_tools_from_deps fields deps_valid in
          let ext_tools := only_tools tools in
          Ok {| _cfg := cfg_valid; _deps := deps_valid;
                _tools := _merge_tools deps_tools ext_tools |}
      end
  end.

End LibAgent.

(* ===================================================================== *)
(** * agents/lib/inspector.py                                             *)
(* ===================================================================== *)

Module Inspector.
Import Py Pydantic.

(** [d.setdefault(k, v)] *)
Definition setdefault (k : string) (v : Value) (d : list (string * Value))
  : list (string * Value) :=
  if dict_mem k d then d else dict_set k v d.

(** [inspect]: the value it returns and the schemas it prints.
    [model_json_schema] is the schema generator of the library;
    [agent_name] is [agent_cls.__name__]. *)
Definition inspect (model_json_schema : ModelClass -> list (string * Value))
    (agent_name : string) (config_model : option ModelClass)
  : Value * list (list (string * Value)) :=
  match config_model with
  | None => (VNone, [])
  | Some model =>
      let schema := model_json_schema model in
      let schema := setdefault "$id"
                      (VStr ("urn:agent-config:" +:+ agent_name +:+ ":1.0.0")) schema in
      let schema := setdefault "title" (VStr (agent_name +:+ "Config")) schema in
      (VNone, [schema])
  end.

End Inspector.

(* ===================================================================== *)
(** * agents/simple.py: pricing and the cost-tracing handler              *)
(* ===================================================================== *)

Module Simple.
Import Py.

(** ** Numbers *)

(** A Python [float] is an IEEE 754 binary64 number.  It is given here
    by its exact rational value; every arithmetic operation rounds its
    exact result to the nearest binary64 number, ties to even, and a
    rational that is no binary64 number, such as a decimal literal,
    stands for the binary64 number nearest to it.  Subnormal numbers are
    covered; the exponent is not bounded above, so the infinities (and
    the [OverflowError] of converting an integer beyond the binary64
    range) are not. *)

(** [2 ** k] *)
Definition pow2 (k : Z) : Q := (2 ^ k)%Q.

(** The binary exponent of a rational other than zero: the [k] with
    [2 ** k <= |x| < 2 ** (k + 1)]. *)
Definition ilog2 (x : Q) : Z :=
  let k := (Z.log2 (Z.abs (Qnum x)) - Z.log2 (Zpos (Qden x)))%Z in
  if Qle_bool (pow2 k) (Qabs x) then k else (k - 1)%Z.

(** The integer nearest to [x], ties to the even one. *)
Definition round_half_even (x : Q) : Z :=
  let f := Qfloor x in
  match Qcompare (x - inject_Z f) (1 # 2) with
  | Lt => f
  | Gt => (f + 1)%Z
  | Eq => if Z.even f then f else (f + 1)%Z
  end.

(** The magnitude of the binary64 number nearest to [x], for [x] other
    than zero: 53 significant bits, the least one worth at least
    [2 ** -1074]. *)
Definition round_magnitude (x : Q) : Q :=
  let ulp := pow2 (Z.max (ilog2 x) (-1022) - 52) in
  inject_Z (round_half_even (Qabs x / ulp)) * ulp.

(** The binary64 number nearest to [x]. *)
Definition round_binary64 (x : Q) : Q :=
  if Qeq_bool x 0 then 0
  else Qred (if Qle_bool 0 x then round_magnitude x else - round_magnitude x).

(** [x + y], [x - y], [x * y] and [x / y] on floats. *)
Definition fadd (x y : Q) : Q := round_binary64 (round_binary64 x + round_binary64 y).
Definition fsub (x y : Q) : Q := round_binary64 (round_binary64 x - round_binary64 y).
Definition fmul (x y : Q) : Q := round_binary64 (round_binary64 x * round_binary64 y).
Definition fdiv (x y : Q) : Q := round_binary64 (round_binary64 x / round_binary64 y).

(** [float(z)] for an integer, as the arithmetic operators convert an
    [int] operand. *)
Definition float_of_int (z : Z) : Q := round_binary64 (inject_Z z).

(** [int(x)] for a float: truncation towards zero. *)
Definition int_of_float (x : Q) : Z := Z.quot (Qnum x) (Zpos (Qden x)).

(** [round(x, ndigits)] for a float: the decimal with [ndigits] places
    nearest to the exact value of [x], ties to even, and then the float
    nearest to that decimal. *)
Definition py_round (x : Q) (ndigits : nat) : Q :=
  let scale := inject_Z (10 ^ Z.of_nat ndigits) in
  round_binary64 (inject_Z (round_half_even (round_binary64 x * scale)) / scale).

(** ** Token counting *)

(** The tokenizer library, external: a call that raises is [None]. *)
Record Encoding := { encode : string -> option (list Z) }.

Record Tiktoken := {
  encoding_for_model : string -> option Encoding;
  get_encoding       : string -> option Encoding
}.

Definition _normalize_model_for_encoding (model : string) : string :=
  if String.eqb model "" then "gpt-4o-mini"
  else if startswith model "gpt-4o" then "gpt-4o"
  else if startswith model "gpt-4.1" then "gpt-4.1"
  else if startswith model "o4" then "gpt-4o"
  else model.

Section Tokens.
(** The module-level name [tiktoken]: [None] when the import failed. *)
Variable tiktoken : option Tiktoken.

Definition _encoding_for_model (model : string) : option Encoding :=
  match tiktoken with
  | None => None
  | Some tk =>
      let m := _normalize_model_for_encoding model in
      match encoding_for_model tk m with
      | Some enc => Some enc
      | None => get_encoding tk "cl100k_base"
      end
  end.

Definition _count_tokens (model text : string) : Z :=
  match text, tiktoken with
  | EmptyString, _ | _, None => 0
  | _, Some _ =>
      match _encoding_for_model model with
      | None => 0
      | Some enc =>
          match encode enc text with
          | Some toks => Z.of_nat (length toks)
          | None => 0
          end
      end
  end.

End Tokens.

(** ** Pricing *)

Definition PRICING_PER_1K : list (string * (Q * Q)) := [
  ("gpt-4o-mini",  (15 # 100, 60 # 100));
  ("gpt-4o",       (5 # 1, 15 # 1));
  ("gpt-4.1-mini", (30 # 100, 120 # 100));
  ("gpt-4.1",      (5 # 1, 15 # 1));
  ("o4-mini",      (30 # 100, 120 # 100));
  ("o4",           (5 # 1, 15 # 1))
]%Q.

Definition match_pricing (model_name : string) : Q * Q :=
  match dict_get model_name PRICING_PER_1K with
  | Some price => price
  | None =>
      match find (fun kv => startswith model_name (fst kv)) PRICING_PER_1K with
      | Some kv => snd kv
      | None => (0, 0)%Q
      end
  end.

Definition estimate_cost_usd (model : string) (prompt_toks completion_toks : Z) : Q :=
  let '(mi, mo) := match_pricing model in
  fadd (fmul (fdiv (float_of_int prompt_toks) 1000) mi)
       (fmul (fdiv (float_of_int completion_toks) 1000) mo).

(** ** The response object *)

(** The loosely structured response of the framework, with the keys and
    attributes [_end_common] reads; an absent key or attribute is
    [None]. *)
Definition Usage : Type := list (string * Z).

Record Metadata := {
  rm_model       : option string;
  rm_model_name  : option string;
  rm_id          : option string;
  rm_request_id  : option string;
  rm_token_usage : option Usage;
  rm_usage       : option Usage
}.

Record GenerationInfo := {
  gi_token_usage : option Usage;
  gi_usage       : option Usage
}.

Record OpenAIRaw := { raw_usage : option Usage }.

Record LlmOutput := {
  lo_token_usage : option Usage;
  lo_usage       : option Usage;
  lo_model       : option string;
  lo_model_name  : option string;
  lo_openai_api_response : option OpenAIRaw
}.

Record Message := {
  content           : option string;
  response_metadata : option Metadata
}.

Record Generation := {
  message         : option Message;
  generation_info : option GenerationInfo
}.

Record LLMResult := {
  llm_output  : option LlmOutput;
  generations : option (list (list Generation))
}.

Definition empty_llm_output : LlmOutput :=
  {| lo_token_usage := None; lo_usage := None; lo_model := None;
     lo_model_name := None; lo_openai_api_response := None |}.

Definition empty_metadata : Metadata :=
  {| rm_model := None; rm_model_name := None; rm_id := None;
     rm_request_id := None; rm_token_usage := None; rm_usage := None |}.

Definition empty_generation_info : GenerationInfo :=
  {| gi_token_usage := None; gi_usage := None |}.

(** [a or b] for optional dicts: [None] and [{}] are falsy. *)
Definition or_usage (a b : option Usage) : option Usage :=
  match a with
  | Some (_ :: _) => a
  | _ => b
  end.

Definition usage_truthy (u : option Usage) : bool :=
  match u with
  | Some (_ :: _) => true
  | _ => false
  end.

(** [int(usage.get(k) or 0)] *)
Definition count_of (k : string) (usage : Usage) : Z :=
  match dict_get k usage with
  | Some z => z
  | None => 0
  end.

(** [int(usage.get("total_tokens") or (p + c))] *)
Definition total_of (usage : Usage) (p c : Z) : Z :=
  match dict_get "total_tokens" usage with
  | Some z => if (z =? 0)%Z then (p + c)%Z else z
  | None => (p + c)%Z
  end.

(** [gens[0][0]] when both lists are non-empty. *)
Definition first_generation (response : LLMResult) : option Generation :=
  match generations response with
  | Some ((g :: _) :: _) => Some g
  | _ => None
  end.

(** [str(getattr(msg, "content", ""))[:200] + "…"] *)
Definition preview (text : string) : string := slice_to 200 text +:+ "…".

Definition content_of (msg : Message) : string :=
  match content msg with Some s => s | None => "" end.

(** ** Invocation records *)

Record RawMeta := {
  raw_llm_output                : option LlmOutput;
  raw_response_message_metadata : option Metadata;
  raw_generation_info           : option GenerationInfo;
  raw_openai_api_response       : option OpenAIRaw
}.

Definition empty_raw : RawMeta :=
  {| raw_llm_output := None; raw_response_message_metadata := None;
     raw_generation_info := None; raw_openai_api_response := None |}.

(** The dict stored per call; the last three keys are absent until the
    call ends. *)
Record Call := {
  kind              : string;
  run_id            : string;
  parent_run_id     : option string;
  start_time        : Q;
  model             : option string;
  prompts           : list string;
  prompt_preview    : string;
  output_preview    : option string;
  prompt_tokens     : Z;
  completion_tokens : Z;
  total_tokens      : Z;
  cost_usd          : Q;
  request_id        : option string;
  raw               : RawMeta;
  end_time          : option Q;
  latency_ms        : option Z;
  error             : option string
}.

(** What the handler writes to the log. *)
Inductive LogRecord :=
| LogStart (kind run_id : string) (n_prompts : nat)
| LogError (run_id error : string)
| LogEnd (run_id model_eff : string) (total_toks : Z) (cost : Q).

Record CostTracingHandler := {
  calls    : gmap string Call;
  finished : list Call
}.

(** [CostTracingHandler()] *)
Definition new_handler : CostTracingHandler := {| calls := ∅; finished := [] |}.

Definition _start_common (h : CostTracingHandler) (kind : string)
    (serialized : list (string * Value)) (prompts : list string)
    (run_id : string) (parent_run_id : option string) (t0 : Q)
  : CostTracingHandler * list LogRecord :=
  (* the local [name] of the source is computed and never used *)
  let call := {|
    kind := kind;
    run_id := run_id;
    parent_run_id := parent_run_id;
    start_time := t0;
    model := None;
    prompts := prompts;
    prompt_preview := match prompts with p :: _ => preview p | [] => "" end;
    output_preview := None;
    prompt_tokens := 0;
    completion_tokens := 0;
    total_tokens := 0;
    cost_usd := 0;
    request_id := None;
    raw := empty_raw;
    end_time := None;
    latency_ms := None;
    error := None
  |} in
  ({| calls := <[run_id := call]> (calls h); finished := finished h |},
   [LogStart kind run_id (length prompts)]).

Definition on_llm_start (h : CostTracingHandler) (serialized : list (string * Value))
    (prompts : list string) (run_id : string) (parent_run_id : option string) (t0 : Q) :=
  _start_common h "llm" serialized prompts run_id parent_run_id t0.

(** The text of one conversation: the contents of the messages that have
    one, joined by spaces. *)
Definition convo_text (convo : list Message) : string :=
  join " " (omap content convo).

Definition on_chat_model_start (h : CostTracingHandler)
    (serialized : list (string * Value)) (messages : list (list Message))
    (run_id : string) (parent_run_id : option string) (t0 : Q) :=
  let prompts :=
    List.filter (fun text => negb (String.eqb text "")) (map convo_text messages) in
  _start_common h "chat" serialized prompts run_id parent_run_id t0.

(** [int((t_end - t_start) * 1000)] *)
Definition latency (t_start t_end : Q) : Z :=
  int_of_float (fmul (fsub t_end t_start) 1000).

Definition on_llm_error (h : CostTracingHandler) (error : string) (run_id : string)
    (now : Q) : CostTracingHandler * list LogRecord :=
  match calls h !! run_id with
  | Some call =>
      let call' := {|
        kind := kind call;
        run_id := Simple.run_id call;
        parent_run_id := parent_run_id call;
        start_time := start_time call;
        model := model call;
        prompts := prompts call;
        prompt_preview := prompt_preview call;
        output_preview := output_preview call;
        prompt_tokens := prompt_tokens call;
        completion_tokens := completion_tokens call;
        total_tokens := total_tokens call;
        cost_usd := cost_usd call;
        request_id := request_id call;
        raw := raw call;
        end_time := Some now;
        latency_ms := Some (latency (start_time call) now);
        error := Some error
      |} in
      ({| calls := delete run_id (calls h); finished := finished h ++ [call'] |},
       [LogError run_id error])
  | None => (h, [LogError run_id error])
  end.

Section EndCommon.
Variable tiktoken : option Tiktoken.

(** The local variables of [_end_common] that outlive its [try] block. *)
Record Extracted := {
  x_model          : option string;
  x_request_id     : option string;
  x_prompt_toks    : Z;
  x_comp_toks      : Z;
  x_total_toks     : Z;
  x_output_preview : option string;
  x_raw_meta       : RawMeta
}.

(** The body of the [try] block.  The response is typed, so none of its
    statements raises. *)
Definition extract (call : Call) (response : LLMResult) : Extracted :=
  let llm_output := match llm_output response with
                    | Some lo => lo
                    | None => empty_llm_output
                    end in
  (* 1) llm_output *)
  let usage1 := or_usage (lo_token_usage llm_output)
                  (or_usage (lo_usage llm_output) (Some [])) in
  (* 2) generations / message *)
  let gen0 := first_generation response in
  let msg := match gen0 with Some g => message g | None => None end in
  let rm := match msg with
            | Some m => match response_metadata m with
                        | Some md => md
                        | None => empty_metadata
                        end
            | None => empty_metadata
            end in
  let model2 := match msg with
                | Some _ => or_str (lo_model llm_output)
                              (or_str (lo_model_name llm_output)
                                 (or_str (rm_model rm) (rm_model_name rm)))
                | None => None
                end in
  let usage2 := match msg with
                | Some _ => or_usage usage1
                              (or_usage (rm_token_usage rm)
                                 (or_usage (rm_usage rm) (Some [])))
                | None => usage1
                end in
  (* 3) generation_info *)
  let gi := match gen0 with
            | Some g => match generation_info g with
                        | Some i => i
                        | None => empty_generation_info
                        end
            | None => empty_generation_info
            end in
  let usage3 := match gen0 with
                | Some _ => or_usage usage2 (or_usage (gi_token_usage gi) (gi_usage gi))
                | None => usage2
                end in
  (* 4) the raw provider block *)
  let openai_raw := match lo_openai_api_response llm_output with
                    | Some r => r
                    | None => {| raw_usage := None |}
                    end in
  let usage : Usage :=
    match usage3 with
    | Some (kv :: u) => kv :: u
    | _ => match raw_usage openai_raw with
           | Some (kv :: u) => kv :: u
           | _ => []
           end
    end in
  let prompt_toks := count_of "prompt_tokens" usage in
  let comp_toks := count_of "completion_tokens" usage in
  let total_toks := total_of usage prompt_toks comp_toks in
  (* 5) the tokenizer estimate *)
  let estimated := (prompt_toks + comp_toks =? 0)%Z in
  let eff_model := match or_str model2 (Some "gpt-4o-mini") with
                   | Some m => m
                   | None => "gpt-4o-mini"
                   end in
  let prompt_toks5 :=
    if estimated then _count_tokens tiktoken eff_model (join " " (prompts call))
    else prompt_toks in
  let comp_toks5 :=
    if estimated
    then _count_tokens tiktoken eff_model
           (match msg with Some m => content_of m | None => "" end)
    else comp_toks in
  let total_toks5 := if estimated then (prompt_toks5 + comp_toks5)%Z else total_toks in
  let model6 := lo_model_name llm_output in
  (* the second pass over the first generation *)
  let reparse := match msg with
                 | Some _ =>
                     match usage, rm_token_usage rm with
                     | [], Some tu => Some tu
                     | _, _ => None
                     end
                 | None => None
                 end in
  let prompt_toks7 := match reparse with
                      | Some tu => count_of "prompt_tokens" tu
                      | None => prompt_toks5
                      end in
  let comp_toks7 := match reparse with
                    | Some tu => count_of "completion_tokens" tu
                    | None => comp_toks5
                    end in
  let total_toks7 := match reparse with
                     | Some tu => total_of tu prompt_toks7 comp_toks7
                     | None => total_toks5
                     end in
  {| x_model := match msg with
                | Some _ => or_str model6 (rm_model_name rm)
                | None => model6
                end;
     x_request_id := match msg with
                     | Some _ => or_str (rm_id rm) (rm_request_id rm)
                     | None => None
                     end;
     x_prompt_toks := prompt_toks7;
     x_comp_toks := comp_toks7;
     x_total_toks := total_toks7;
     x_output_preview := match msg with
                         | Some m => Some (preview (content_of m))
                         | None => None
                         end;
     x_raw_meta := {|
       raw_llm_output := Some llm_output;
       raw_response_message_metadata :=
         match msg with Some _ => Some rm | None => None end;
       raw_generation_info :=
         match gen0 with Some _ => Some gi | None => None end;
       raw_openai_api_response :=
         if usage_truthy usage3 then None else Some openai_raw
     |}
  |}.

Definition _end_common (h : CostTracingHandler) (response : LLMResult)
    (run_id : string) (t1 : Q) : CostTracingHandler * list LogRecord :=
  match calls h !! run_id with
  | None => (h, [])
  | Some call =>
      let x := extract call response in
      let model_eff := match or_str (x_model x) (Some "unknown") with
                       | Some m => m
                       | None => "unknown"
                       end in
      let cost := estimate_cost_usd model_eff (x_prompt_toks x) (x_comp_toks x) in
      let call' := {|
        kind := kind call;
        run_id := Simple.run_id call;
        parent_run_id := parent_run_id call;
        start_time := start_time call;
        model := Some model_eff;
        prompts := prompts call;
        prompt_preview := prompt_preview call;
        output_preview := x_output_preview x;
        prompt_tokens := x_prompt_toks x;
        completion_tokens := x_comp_toks x;
        total_tokens := x_total_toks x;
        cost_usd := py_round cost 8;
        request_id := x_request_id x;
        raw := x_raw_meta x;
        end_time := Some t1;
        latency_ms := Some (latency (start_time call) t1);
        error := None
      |} in
      ({| calls := delete run_id (calls h); finished := finished h ++ [call'] |},
       [LogEnd run_id model_eff (x_total_toks x) cost])
  end.

Definition on_llm_end (h : CostTracingHandler) (response : LLMResult)
    (run_id : string) (t1 : Q) :=
  _end_common h response run_id t1.

(** ** The handler as an event sink *)

(** A callback invocation, with the clock reading [time.time()] returns
    during it. *)
Inductive Event :=
| LlmStart (serialized : list (string * Value)) (prompts : list string)
           (run_id : string) (parent_run_id : option string) (now : Q)
| ChatModelStart (serialized : list (string * Value)) (messages : list (list Message))
                 (run_id : string) (parent_run_id : option string) (now : Q)
| LlmEnd (response : LLMResult) (run_id : string) (now : Q)
| LlmError (error : string) (run_id : string) (now : Q).

Definition dispatch (h : CostTracingHandler) (ev : Event)
  : CostTracingHandler * list LogRecord :=
  match ev with
  | LlmStart serialized prompts rid parent now =>
      on_llm_start h serialized prompts rid parent now
  | ChatModelStart serialized messages rid parent now =>
      on_chat_model_start h serialized messages rid parent now
  | LlmEnd response rid now => on_llm_end h response rid now
  | LlmError error rid now => on_llm_error h error rid now
  end.

(** The handler after a sequence of callbacks. *)
Definition run_events (h : CostTracingHandler) (evs : list Event) : CostTracingHandler :=
  fold_left (fun h ev => fst (dispatch h ev)) evs h.

End EndCommon.

(** ** The totals of [run] *)

Record Totals := {
  total_prompt     : Z;
  total_completion : Z;
  total_total      : Z;
  total_cost       : Q
}.

(** [sum(...)] adds from the left, starting at 0. *)
Definition sum_Z (f : Call -> Z) (l : list Call) : Z :=
  fold_left (fun acc c => (acc + f c)%Z) l 0%Z.

(** The sum of the costs is taken as a number; [round] then gives the
    float of the total. *)
Definition sum_Q (f : Call -> Q) (l : list Call) : Q :=
  fold_left (fun acc c => (acc + f c)%Q) l 0%Q.

Definition totals (finished : list Call) : Totals :=
  {| total_prompt := sum_Z prompt_tokens finished;
     total_completion := sum_Z completion_tokens finished;
     total_total := sum_Z total_tokens finished;
     total_cost := py_round (sum_Q cost_usd finished) 8 |}.

End Simple.

(* ===================================================================== *)
(** * Vocabulary of the properties                                        *)
(* ===================================================================== *)

Module Spec.
Import Py Pydantic.

(** ** Error items and reports *)

Definition item_code (item : Value) : option string :=
  match item with
  | VDict d => match dict_get "code" d with
               | Some (VStr c) => Some c
               | _ => None
               end
  | _ => None
  end.

Definition item_pointer (item : Value) : option string :=
  match item with
  | VDict d => match dict_get "source" d with
               | Some (VDict src) => match dict_get "pointer" src with
                                     | Some (VStr p) => Some p
                                     | _ => None
                                     end
               | _ => None
               end
  | _ => None
  end.

(** A key of a report. *)
Definition report_get (k : string) (r : Value) : option Value :=
  match r with
  | VDict d => dict_get k d
  | _ => None
  end.

(** The violation kind and the message of an error, as
    [_normalize_pydantic_errors] reads them. *)
Definition violation_kind (e : ErrorDetails) : string :=
  match e_type e with Some t => t | None => "" end.

Definition violation_msg (e : ErrorDetails) : string :=
  match e_msg e with Some m => m | None => "" end.

(** The absence-of-required-value condition: the kind is "missing", or
    ends with ".missing", or the message, letter case aside, starts with
    "field required". *)
Definition absence_marked (e : ErrorDetails) : Prop :=
  violation_kind e = "missing"
  ∨ (∃ p, violation_kind e = p +:+ ".missing")
  ∨ (∃ rest, lower (violation_msg e) = "field required" +:+ rest).

(** The classification of one error [e] into its item: the code is
    "<where>.missing" exactly under the absence condition and
    "<where>.validation" exactly without it, and the pointer is the
    slash-joined location. *)
Definition classified (where_ : string) (e : ErrorDetails) (item : Value) : Prop :=
  (item_code item = Some (where_ +:+ ".missing") ↔ absence_marked e)
  ∧ (item_code item = Some (where_ +:+ ".validation") ↔ ¬ absence_marked e)
  ∧ item_pointer item = Some (Agent.pointer_of e).

(** A model with one required field and no other, for the examples. *)
Definition cls_Sample : PyClass := {| cls_id := 200; cls_name := "Sample" |}.

Definition required_int : FieldInfo :=
  {| base := BInt; nullable := false; pep604 := false; default := None;
     ge := None; le := None |}.

Definition Sample : ModelClass := {|
  model_cls := cls_Sample;
  model_bases := [cls_BaseModel; cls_object];
  model_fields := [("n", required_int)]
|}.

(** A number syntax that reads no string as a number. *)
Definition no_syntax : NumberSyntax :=
  {| parse_int := fun _ => None; parse_float := fun _ => None;
     show_number := fun _ => "" |}.

(** ** Tool merging *)

(** The first tool of [l] named [n]. *)
Definition first_named (n : string) (l : list BaseTool) : option BaseTool :=
  find (fun t => String.eqb (name t) n) l.

(** The last tool of [l] named [n]. *)
Fixpoint last_named (n : string) (l : list BaseTool) : option BaseTool :=
  match l with
  | [] => None
  | t :: l' =>
      match last_named n l' with
      | Some t' => Some t'
      | None => if String.eqb (name t) n then Some t else None
      end
  end.

(** The tool kept for the name [n]: the last dependency tool of that
    name, else the first explicit tool of that name. *)
Definition kept (deps_tools ext_tools : list BaseTool) (n : string) : option BaseTool :=
  match last_named n deps_tools with
  | Some t => Some t
  | None => first_named n ext_tools
  end.

(** First-seen-wins over the dependency tools followed by the explicit
    ones: one tool per name, the first of that name in the sequence. *)
Definition first_seen_wins (deps_tools ext_tools merged : list BaseTool) : Prop :=
  NoDup (map name merged)
  ∧ ∀ t, t ∈ merged ↔ first_named (name t) (deps_tools ++ ext_tools) = Some t.

(** A tool named "wikipedia", as [tools/Wikipedia.py] builds it; [i] tells
    two such instances apart. *)
Definition wikipedia_tool (i : positive) : BaseTool :=
  {| tool_id := i; name := "wikipedia";
     description := "Consulta Wikipedia y devuelve un resumen" |}.

(** Every key of the dict is the name of its tool, and no key repeats. *)
Definition keyed (by_ : list (string * BaseTool)) : Prop :=
  NoDup (dict_keys by_) ∧ ∀ k t, (k, t) ∈ by_ → k = name t.

(** ** Cost tracing *)

Import Simple.

Definition event_run_id (ev : Event) : string :=
  match ev with
  | LlmStart _ _ rid _ _ | ChatModelStart _ _ rid _ _
  | LlmEnd _ rid _ | LlmError _ rid _ => rid
  end.

Definition is_start (ev : Event) : bool :=
  match ev with
  | LlmStart _ _ _ _ _ | ChatModelStart _ _ _ _ _ => true
  | _ => false
  end.

(** The start events, and the end or error events, of a run in a trace. *)
Definition starts_of (r : string) (evs : list Event) : nat :=
  length (List.filter (fun ev => is_start ev && String.eqb (event_run_id ev) r) evs).

Definition finishes_of (r : string) (evs : list Event) : nat :=
  length (List.filter (fun ev => negb (is_start ev) && String.eqb (event_run_id ev) r) evs).

(** The finished records of a run. *)
Definition finished_of (r : string) (h : CostTracingHandler) : nat :=
  length (List.filter (fun c => String.eqb (run_id c) r) (finished h)).

(** 1 when the run is in flight, else 0. *)
Definition in_flight (r : string) (h : CostTracingHandler) : nat :=
  match calls h !! r with Some _ => 1 | None => 0 end.

(** Every in-flight record sits under its own run id and is as
    [_start_common] made it: no tokens, no cost, not ended. *)
Definition fresh (c : Call) : Prop :=
  prompt_tokens c = 0%Z ∧ completion_tokens c = 0%Z ∧ total_tokens c = 0%Z
  ∧ cost_usd c = 0%Q ∧ end_time c = None ∧ latency_ms c = None ∧ error c = None.

Definition in_flight_ok (h : CostTracingHandler) : Prop :=
  ∀ r c, calls h !! r = Some c → run_id c = r ∧ fresh c.

(** An error event finalizes [c] into [c']: three keys are added, the
    others keep their values. *)
Definition finalized_by_error (c c' : Call) (error : string) (now : Q) : Prop :=
  end_time c' = Some now
  ∧ latency_ms c' = Some (latency (start_time c) now)
  ∧ Simple.error c' = Some error
  ∧ kind c' = kind c ∧ run_id c' = run_id c ∧ parent_run_id c' = parent_run_id c
  ∧ start_time c' = start_time c ∧ model c' = model c ∧ prompts c' = prompts c
  ∧ prompt_preview c' = prompt_preview c ∧ output_preview c' = output_preview c
  ∧ prompt_tokens c' = prompt_tokens c
  ∧ completion_tokens c' = completion_tokens c
  ∧ total_tokens c' = total_tokens c
  ∧ cost_usd c' = cost_usd c
  ∧ request_id c' = request_id c ∧ raw c' = raw c.


(** No key of the table is a proper prefix of a later key: the first key
    that is a prefix of a name is then the longest such key. *)
Fixpoint longest_first (table : list (string * (Q * Q))) : bool :=
  match table with
  | [] => true
  | kv :: rest =>
      forallb (fun kv' => negb (startswith (fst kv') (fst kv)
                                && negb (String.eqb (fst kv) (fst kv')))) rest
      && longest_first rest
  end.





(** What a callback does to the handler. *)
Inductive effect (h : CostTracingHandler) (ev : Event) (h' : CostTracingHandler) : Prop :=
| effect_start c :
    is_start ev = true →
    run_id c = event_run_id ev → fresh c →
    calls h' = <[event_run_id ev := c]> (calls h) →
    finished h' = finished h →
    effect h ev h'
| effect_finish c c' :
    is_start ev = false →
    calls h !! event_run_id ev = Some c →
    run_id c' = run_id c →
    calls h' = delete (event_run_id ev) (calls h) →
    finished h' = (finished h ++ [c'])%list →
    effect h ev h'
| effect_none :
    is_start ev = false →
    calls h !! event_run_id ev = None →
    h' = h →
    effect h ev h'.

(** ** Vocabulary of the further properties *)

(** The names of [l] not in [seen], each kept the first time it occurs. *)
Fixpoint unseen (seen l : list string) : list string :=
  match l with
  | [] => []
  | x :: l' =>
      if mem_str x seen then unseen seen l' else x :: unseen (x :: seen) l'
  end.

Definition first_occurrences (l : list string) : list string := unseen [] l.

(** The three codes a validation report can carry. *)
Definition report_codes (where_ : string) : list string :=
  [where_ +:+ ".not_supported"; where_ +:+ ".missing"; where_ +:+ ".validation"].

(** A utility that matches at least one slot of the model. *)
Definition relevant (m : ModelClass) (u : Value) : bool :=
  existsb (fun nf => Context._matches_type u (annotation (snd nf))) (model_fields m).

(** An object that is no [RAGExpander] but has a method [expand]. *)
Definition cls_Duck : PyClass := {| cls_id := 201; cls_name := "Duck" |}.

Definition duck : Value :=
  VObj [cls_Duck; cls_object] [("expand", VFunc "Duck.expand")].

(** The model name a response reports: [model_name] of the top-level
    output, else [model_name] of the first message's metadata, else
    "unknown". *)
Definition reported_model (response : LLMResult) : string :=
  let lo_name := match llm_output response with
                 | Some lo => lo_model_name lo
                 | None => None
                 end in
  let msg_name := match first_generation response with
                  | Some g =>
                      match message g with
                      | Some m =>
                          match response_metadata m with
                          | Some md => rm_model_name md
                          | None => None
                          end
                      | None => None
                      end
                  | None => None
                  end in
  match or_str lo_name (or_str msg_name (Some "unknown")) with
  | Some n => n
  | None => "unknown"
  end.


(** ** Vocabulary of the injection *)


(** An instance of [RAGExpander], told from the others by [tag]. *)
Definition expander (tag : Z) : Value :=
  VObj [Tooled.cls_RAGExpander; cls_object]
       [("expand", VFunc "RAGExpander.expand"); ("tag", VInt tag)].




(** ** Vocabulary of the cost accounting *)












(** The end and error events of a trace. *)
Definition finish_events (evs : list Event) : nat :=
  length (List.filter (fun ev => negb (is_start ev)) evs).

(** An in-flight record as [_start_common] made it. *)
Definition pending (c : Call) : Prop :=
  fresh c ∧ model c = None ∧ output_preview c = None.

(** A finished record: it has an end time and the latency from its start
    to it; it either carries an error message, no model, no output and
    the zeros set at start, or no error and a non-empty model name. *)
Definition closed (c : Call) : Prop :=
  ∃ t, end_time c = Some t
    ∧ latency_ms c = Some (latency (start_time c) t)
    ∧ ((∃ e, Simple.error c = Some e) ∧ model c = None ∧ output_preview c = None
       ∧ prompt_tokens c = 0%Z ∧ completion_tokens c = 0%Z ∧ total_tokens c = 0%Z
       ∧ cost_usd c = 0%Q
       ∨ Simple.error c = None ∧ ∃ m, model c = Some m ∧ m ≠ "").

(** The places of a response where [_end_common] looks for a usage
    block. *)
Definition usage_sources (response : LLMResult) : list (option Usage) :=
  match llm_output response with
  | Some lo =>
      [lo_token_usage lo; lo_usage lo;
       match lo_openai_api_response lo with
       | Some r => raw_usage r
       | None => None
       end]
  | None => []
  end
  ++ match first_generation response with
     | Some g =>
         match generation_info g with
         | Some gi => [gi_token_usage gi; gi_usage gi]
         | None => []
         end
         ++ match message g with
            | Some m =>
                match response_metadata m with
                | Some md => [rm_token_usage md; rm_usage md]
                | None => []
                end
            | None => []
            end
     | None => []
     end.

(** No place of the response holds a non-empty usage block. *)
Definition no_usage (response : LLMResult) : bool :=
  forallb (fun u => negb (usage_truthy u)) (usage_sources response).

(** The fallback error list of [_lookup_with_model]. *)
Definition fallback_errors (where_ : string) : Value :=
  VList [VDict [("code", VStr (where_ +:+ ".error"));
                ("title", VStr ("Error de " +:+ where_))]].

(** The report [_lookup_with_model] builds from an outcome of
    [_validate_with_model]. *)
Definition report_of (where_ : string) (outcome : Result Value) : Result Value :=
  match outcome with
  | Ok VNone => Ok (Agent.report true where_ VNone (VList []))
  | Ok inst =>
      match model_dump inst with
      | Ok dumped => Ok (Agent.report true where_ dumped (VList []))
      | Raise e => Raise e
      end
  | Raise (ValueError (VDict d)) =>
      Ok (Agent.report false where_ VNone
            (match dict_get "errors" d with
             | Some errs => errs
             | None => fallback_errors where_
             end))
  | Raise (ValueError _) | Raise (ValidationError _) =>
      Ok (Agent.report false where_ VNone (fallback_errors where_))
  | Raise e => Raise e
  end.

(** The outcomes [_validate_with_model] can have: [None] or one
    "not_supported" error for an agent without model; the payload itself,
    a built instance, a report with at least one normalized error, or a
    [TypeError] for an agent with one. *)
Inductive outcome_shape (class_name : string) (model : option ModelClass)
    (payload : Value) (where_ : string) : Result Value → Prop :=
| shape_none :
    model = None → Agent.in_blank payload = true →
    outcome_shape class_name model payload where_ (Ok VNone)
| shape_not_supported :
    model = None → Agent.in_blank payload = false →
    outcome_shape class_name model payload where_
      (Raise (ValueError (VDict [("ok", VBool false);
                                 ("errors", VList [Agent.not_supported_item class_name where_])])))
| shape_same m :
    model = Some m → isinstance payload (model_cls m) = true →
    outcome_shape class_name model payload where_ (Ok payload)
| shape_built m attrs :
    model = Some m → isinstance payload (model_cls m) = false →
    (payload = VNone ∨ ∃ d, payload = VDict d) →
    outcome_shape class_name model payload where_ (Ok (VObj (model_cls m :: model_bases m) attrs))
| shape_rejected m e errs :
    model = Some m → isinstance payload (model_cls m) = false →
    (payload = VNone ∨ ∃ d, payload = VDict d) →
    outcome_shape class_name model payload where_
      (Raise (ValueError (VDict [("ok", VBool false);
                                 ("errors",
                                  VList (Agent.normalize_error where_ e
                                         :: Agent._normalize_pydantic_errors where_ errs))])))
| shape_type_error m msg :
    model = Some m → isinstance payload (model_cls m) = false →
    payload ≠ VNone → (∀ d, payload ≠ VDict d) →
    outcome_shape class_name model payload where_ (Raise (TypeError msg)).

End Spec.

(* ===================================================================== *)
(** * Properties                                                          *)
(* ===================================================================== *)

Import Py Spec.

(** ** Dictionaries *)

Section DictFacts.
Context {V : Type}.
Implicit Types (d : list (string * V)) (k : string) (v : V).

Lemma dict_get_set_eq k v d : dict_get k (dict_set k v d) = Some v.
Proof.
  induction d as [|[k' v'] d IH]; simpl.
  - by rewrite String.eqb_refl.
  - destruct (String.eqb_spec k k') as [->|Hne]; simpl.
    + by rewrite String.eqb_refl.
    + by destruct (String.eqb_spec k k').
Qed.

Lemma dict_get_set_ne k k' v d :
  k ≠ k' → dict_get k' (dict_set k v d) = dict_get k' d.
Proof.
  intros Hne. induction d as [|[k0 v0] d IH]; simpl.
  - destruct (String.eqb_spec k' k); congruence.
  - destruct (String.eqb_spec k k0) as [->|Hk]; simpl.
    + destruct (String.eqb_spec k' k0); congruence.
    + destruct (String.eqb_spec k' k0); congruence.
Qed.

Lemma dict_keys_set k v d k' :
  k' ∈ dict_keys (dict_set k v d) ↔ k' = k ∨ k' ∈ dict_keys d.
Proof.
  unfold dict_keys. induction d as [|[k0 v0] d IH]; simpl.
  - rewrite list_elem_of_singleton. split; [by left | intros [|Hin]; [done|]].
    by apply elem_of_nil in Hin.
  - destruct (String.eqb_spec k k0) as [->|Hk]; simpl; rewrite !elem_of_cons.
    + tauto.
    + rewrite IH. tauto.
Qed.

Lemma dict_keys_set_NoDup k v d :
  NoDup (dict_keys d) → NoDup (dict_keys (dict_set k v d)).
Proof.
  unfold dict_keys. induction d as [|[k0 v0] d IH]; simpl; intros Hnd.
  - apply NoDup_singleton.
  - apply NoDup_cons in Hnd as [Hnotin Hnd].
    destruct (String.eqb_spec k k0) as [->|Hk]; simpl.
    + by apply NoDup_cons.
    + apply NoDup_cons. split; [|by apply IH].
      intros Hin. apply (dict_keys_set k v d k0) in Hin as [?|?]; [congruence | by apply Hnotin].
Qed.

Lemma dict_get_None k d : dict_get k d = None ↔ k ∉ dict_keys d.
Proof.
  unfold dict_keys. induction d as [|[k0 v0] d IH]; simpl.
  - split; [intros _; apply not_elem_of_nil | done].
  - destruct (String.eqb_spec k k0) as [->|Hk].
    + split; [done | intros Hn; exfalso; apply Hn; left].
    + rewrite IH. rewrite not_elem_of_cons. naive_solver.
Qed.

Lemma dict_get_Some_elem k v d : dict_get k d = Some v → (k, v) ∈ d.
Proof.
  induction d as [|[k0 v0] d IH]; simpl; [done|].
  destruct (String.eqb_spec k k0) as [->|Hk].
  - intros [= ->]. left.
  - intros Hg. right. by apply IH.
Qed.

Lemma dict_elem_get k v d :
  NoDup (dict_keys d) → (k, v) ∈ d → dict_get k d = Some v.
Proof.
  unfold dict_keys. induction d as [|[k0 v0] d IH]; simpl; intros Hnd Hin.
  - by apply elem_of_nil in Hin.
  - apply NoDup_cons in Hnd as [Hnotin Hnd].
    apply elem_of_cons in Hin as [[= -> ->]|Hin].
    + by rewrite String.eqb_refl.
    + destruct (String.eqb_spec k k0) as [->|Hk]; [|by apply IH].
      exfalso. apply Hnotin. apply (list_elem_of_fmap_2 fst) in Hin. exact Hin.
Qed.

End DictFacts.

(** ** Tool merging *)

Section MergeFacts.
Import LibAgent.

Lemma keyed_nil : keyed [].
Proof. split; [apply NoDup_nil_2 | intros k t Hin; by apply elem_of_nil in Hin]. Qed.

Lemma keyed_set by_ t : keyed by_ → keyed (dict_set (name t) t by_).
Proof.
  intros [Hnd Hk]. split; [by apply dict_keys_set_NoDup|].
  intros k t' Hin.
  assert (Hnd' := dict_keys_set_NoDup (name t) t by_ Hnd).
  apply (dict_elem_get _ _ _ Hnd') in Hin.
  destruct (decide (name t = k)) as [<-|Hne].
  - rewrite dict_get_set_eq in Hin. by injection Hin as <-.
  - rewrite dict_get_set_ne in Hin by done.
    apply dict_get_Some_elem in Hin. by apply Hk.
Qed.

Lemma keyed_ins_right by_ t : keyed by_ → keyed (ins_right by_ t).
Proof. unfold ins_right. destruct (negb _); [apply keyed_set | done]. Qed.

Lemma keyed_fold_left by_ l : keyed by_ → keyed (fold_left ins_left l by_).
Proof.
  revert by_. induction l as [|t l IH]; simpl; intros by_ Hk; [done|].
  apply IH. by apply keyed_set.
Qed.

Lemma keyed_fold_right by_ r : keyed by_ → keyed (fold_left ins_right r by_).
Proof.
  revert by_. induction r as [|t r IH]; simpl; intros by_ Hk; [done|].
  apply IH. by apply keyed_ins_right.
Qed.

Lemma get_fold_left n l by_ :
  dict_get n (fold_left ins_left l by_) =
  match last_named n l with Some t => Some t | None => dict_get n by_ end.
Proof.
  revert by_. induction l as [|t l IH]; simpl; intros by_; [done|].
  rewrite IH. destruct (last_named n l); [done|].
  unfold ins_left. destruct (String.eqb_spec (name t) n) as [<-|Hne].
  - apply dict_get_set_eq.
  - by apply dict_get_set_ne.
Qed.

Lemma get_ins_right n by_ t :
  dict_get n (ins_right by_ t) =
  match dict_get n by_ with
  | Some t' => Some t'
  | None => if String.eqb (name t) n then Some t else None
  end.
Proof.
  unfold ins_right, dict_mem.
  destruct (String.eqb_spec (name t) n) as [<-|Hne].
  - destruct (dict_get (name t) by_) eqn:Hg; simpl; [done|].
    apply dict_get_set_eq.
  - destruct (dict_get (name t) by_) eqn:Hg; simpl.
    + by destruct (dict_get n by_).
    + rewrite dict_get_set_ne by done. by destruct (dict_get n by_).
Qed.

Lemma get_fold_right n r by_ :
  dict_get n (fold_left ins_right r by_) =
  match dict_get n by_ with Some t => Some t | None => first_named n r end.
Proof.
  revert by_. induction r as [|t r IH]; simpl; intros by_.
  - by destruct (dict_get n by_).
  - rewrite IH, get_ins_right. destruct (dict_get n by_); [done|].
    unfold first_named. by destruct (String.eqb (name t) n).
Qed.

Lemma merge_unfold l r :
  _merge_tools l r = dict_values (fold_left ins_right r (fold_left ins_left l [])).
Proof. reflexivity. Qed.

Lemma get_merged n l r :
  dict_get n (fold_left ins_right r (fold_left ins_left l [])) = kept l r n.
Proof.
  rewrite get_fold_right, get_fold_left. unfold kept.
  by destruct (last_named n l).
Qed.

Lemma keyed_values_names by_ : keyed by_ → map name (dict_values by_) = dict_keys by_.
Proof.
  intros [_ Hk]. unfold dict_values, dict_keys.
  induction by_ as [|[k t] by_ IH]; simpl; [done|].
  f_equal.
  - symmetry. apply Hk. left.
  - apply IH. intros k' t' Hin. apply Hk. by right.
Qed.

Lemma keyed_values_elem by_ t :
  keyed by_ → t ∈ dict_values by_ ↔ dict_get (name t) by_ = Some t.
Proof.
  intros [Hnd Hk]. unfold dict_values. split.
  - intros Hin. apply list_elem_of_fmap in Hin as [[k t'] [-> Hin]]. simpl.
    rewrite <- (Hk _ _ Hin). by apply dict_elem_get.
  - intros Hg. apply dict_get_Some_elem in Hg.
    apply (list_elem_of_fmap_2 snd) in Hg. exact Hg.
Qed.

Lemma last_named_None n l : last_named n l = None ↔ n ∉ map name l.
Proof.
  induction l as [|t l IH]; simpl.
  - split; [intros _; apply not_elem_of_nil | done].
  - rewrite not_elem_of_cons. destruct (last_named n l).
    + split; [done|]. intros [_ Hn]. by apply IH in Hn.
    + destruct (String.eqb_spec (name t) n); naive_solver.
Qed.

Lemma first_named_None n l : first_named n l = None ↔ n ∉ map name l.
Proof.
  unfold first_named. induction l as [|t l IH]; simpl.
  - split; [intros _; apply not_elem_of_nil | done].
  - rewrite not_elem_of_cons.
    destruct (String.eqb_spec (name t) n); naive_solver.
Qed.

End MergeFacts.

Section MergeTheorems.
Import LibAgent.

Lemma first_named_app n l r :
  first_named n (l ++ r) =
  match first_named n l with Some t => Some t | None => first_named n r end.
Proof.
  unfold first_named. induction l as [|t l IH]; simpl; [done|].
  by destruct (String.eqb (name t) n).
Qed.

Lemma last_named_first_named n l :
  NoDup (map name l) → last_named n l = first_named n l.
Proof.
  induction l as [|t l IH]; simpl; intros Hnd; [done|].
  apply NoDup_cons in Hnd as [Hnotin Hnd].
  rewrite (IH Hnd). change (find _ l) with (first_named n l).
  destruct (String.eqb_spec (name t) n) as [<-|Hne].
  - apply first_named_None in Hnotin. by rewrite Hnotin.
  - by destruct (first_named n l).
Qed.

(** C7, as stated, fails: with two dependency tools of one name the merge
    keeps the second of them, not the first one seen. *)
Lemma merge_tools_not_first_seen :
  _merge_tools [wikipedia_tool 1; wikipedia_tool 2] [] = [wikipedia_tool 2]
  ∧ ¬ first_seen_wins [wikipedia_tool 1; wikipedia_tool 2] []
        (_merge_tools [wikipedia_tool 1; wikipedia_tool 2] []).
Proof.
  split; [reflexivity|].
  intros [_ Hfirst].
  assert (Hin : wikipedia_tool 2 ∈ _merge_tools [wikipedia_tool 1; wikipedia_tool 2] [])
    by (vm_compute; left).
  apply Hfirst in Hin. vm_compute in Hin. discriminate Hin.
Qed.

(** C7, amended: the merge holds exactly one tool per name occurring in
    either list; a name carried by a dependency tool keeps the last
    dependency tool of that name, any other name keeps the first explicit
    tool of that name; when the dependency tools have pairwise distinct
    names this is first-seen-wins over the dependency tools followed by
    the explicit ones; and a dependency tool named "wikipedia" merged
    with an explicit tool named "wikipedia" leaves the dependency tool
    alone. *)
Theorem merge_tools_precedence (deps_tools ext_tools : list BaseTool) :
  NoDup (map name (_merge_tools deps_tools ext_tools))
  ∧ (∀ n, n ∈ map name (_merge_tools deps_tools ext_tools)
          ↔ n ∈ map name deps_tools ∨ n ∈ map name ext_tools)
  ∧ (∀ t, t ∈ _merge_tools deps_tools ext_tools
          ↔ kept deps_tools ext_tools (name t) = Some t)
  ∧ (NoDup (map name deps_tools) →
     first_seen_wins deps_tools ext_tools (_merge_tools deps_tools ext_tools))
  ∧ (∀ i j, _merge_tools [wikipedia_tool i] [wikipedia_tool j] = [wikipedia_tool i]).
Proof.
  rewrite merge_unfold.
  set (by1 := fold_left ins_right ext_tools (fold_left ins_left deps_tools [])).
  assert (Hkeyed : keyed by1).
  { apply keyed_fold_right, keyed_fold_left, keyed_nil. }
  assert (Hnames : NoDup (map name (dict_values by1))).
  { rewrite keyed_values_names by done. apply Hkeyed. }
  assert (Helem : ∀ t, t ∈ dict_values by1 ↔ kept deps_tools ext_tools (name t) = Some t).
  { intros t. rewrite keyed_values_elem by done. unfold by1. by rewrite get_merged. }
  split; [exact Hnames|]. split; [|split; [exact Helem|split]].
  - intros n. rewrite keyed_values_names by done.
    destruct (decide (n ∈ dict_keys by1)) as [Hin|Hnin].
    + split; [intros _|done].
      destruct (decide (n ∈ map name deps_tools)) as [|Hl]; [by left|right].
      destruct (decide (n ∈ map name ext_tools)) as [|Hr]; [done|exfalso].
      apply last_named_None in Hl. apply first_named_None in Hr.
      assert (Hg : dict_get n by1 = None).
      { unfold by1. rewrite get_merged. unfold kept. by rewrite Hl. }
      apply dict_get_None in Hg. by apply Hg.
    + split; [done|]. intros Hor. exfalso.
      apply dict_get_None in Hnin. unfold by1 in Hnin.
      rewrite get_merged in Hnin. unfold kept in Hnin.
      destruct (last_named n deps_tools) eqn:Hl; [done|].
      apply last_named_None in Hl. apply first_named_None in Hnin.
      by destruct Hor.
  - intros Hnd. split; [exact Hnames|].
    intros t. rewrite Helem. unfold kept.
    by rewrite first_named_app, (last_named_first_named _ _ Hnd).
  - intros i j. reflexivity.
Qed.

End MergeTheorems.

(** ** Strings *)

Section StringFacts.

Lemma append_cons a s t : String a s +:+ t = String a (s +:+ t).
Proof. reflexivity. Qed.

Lemma append_nil t : "" +:+ t = t.
Proof. reflexivity. Qed.

Lemma startswith_spec s p : startswith s p = true ↔ ∃ rest, s = p +:+ rest.
Proof.
  unfold startswith. revert p. induction s as [|b s IH]; intros [|a p]; simpl.
  - split; [intros _; by exists "" | done].
  - split; [done | by intros [rest [=]]].
  - split; [intros _; by exists (String b s) | done].
  - destruct (ascii_dec a b) as [->|Hne].
    + rewrite IH. split; intros [rest Hr]; exists rest;
        rewrite append_cons in *; congruence.
    + split; [done|]. intros [rest Hr]. rewrite append_cons in Hr. congruence.
Qed.

Lemma length_append s t : String.length (s +:+ t) = String.length s + String.length t.
Proof.
  induction s as [|a s IH]; [done|].
  rewrite append_cons. simpl. congruence.
Qed.

Lemma substring_all s : substring 0 (String.length s) s = s.
Proof. induction s as [|a s IH]; simpl; congruence. Qed.

Lemma substring_skip p s m : substring (String.length p) m (p +:+ s) = substring 0 m s.
Proof.
  induction p as [|a p IH]; [done|].
  rewrite append_cons. simpl. exact IH.
Qed.

Lemma substring_split s (k : nat) :
  (k ≤ String.length s)%nat →
  s = substring 0 k s +:+ substring k (String.length s - k) s.
Proof.
  revert k. induction s as [|a s IH]; intros k Hk; simpl in *.
  - by destruct k.
  - destruct k as [|k]; simpl.
    + by rewrite append_nil, substring_all.
    + rewrite append_cons. f_equal. apply IH. lia.
Qed.

Lemma endswith_spec s suf : endswith s suf = true ↔ ∃ p, s = p +:+ suf.
Proof.
  unfold endswith. split.
  - destruct (Nat.leb_spec (String.length suf) (String.length s)) as [Hle|]; [|done].
    intros Heq. apply String.eqb_eq in Heq.
    exists (substring 0 (String.length s - String.length suf) s).
    assert (Hsplit := substring_split s (String.length s - String.length suf)).
    replace (String.length s - (String.length s - String.length suf))%nat
      with (String.length suf) in Hsplit by lia.
    rewrite Heq in Hsplit. apply Hsplit. lia.
  - intros [p ->]. rewrite length_append.
    destruct (Nat.leb_spec (String.length suf) (String.length p + String.length suf));
      [|lia].
    replace (String.length p + String.length suf - String.length suf)
      with (String.length p) by lia.
    rewrite substring_skip, substring_all. apply String.eqb_refl.
Qed.

Lemma append_suffix_neq w s t : s ≠ t → w +:+ s ≠ w +:+ t.
Proof. intros Hne Heq. by apply String.app_inj in Heq. Qed.

End StringFacts.

(** ** Validation against a declared model *)

Section AgentTheorems.
Import Pydantic Agent Tooled.
Context `{NumberSyntax}.
Variable class_name : string.

Lemma in_blank_spec payload :
  in_blank payload = true ↔ payload = VNone ∨ payload = VDict [] ∨ payload = VList [].
Proof.
  destruct payload as [| | | | |[|]|[|]| | |]; simpl; split;
    try done; try (intros [|[|]]; done); auto.
Qed.

Lemma isinstance_own_class c bases attrs : isinstance (VObj (c :: bases) attrs) c = true.
Proof. unfold isinstance. apply bool_decide_eq_true. simpl. left. Qed.

Lemma construct_instance m kwargs out :
  construct m kwargs = Ok out → isinstance out (model_cls m) = true.
Proof.
  unfold construct. destruct (validate_fields kwargs (model_fields m)) as [attrs [|e errs]];
    [|done].
  intros [= <-]. apply isinstance_own_class.
Qed.

(** The two [try] blocks of [_validate_with_model] let a constructed
    instance through and wrap every validation error. *)
Lemma wrap_construct_Ok m kwargs where_ out :
  match construct m kwargs with
  | Raise (ValidationError ve) =>
      Raise (ValueError (failure_report where_ ve))
  | r => r
  end = Ok out →
  construct m kwargs = Ok out.
Proof.
  unfold construct. by destruct (validate_fields kwargs (model_fields m)) as [attrs [|e errs]].
Qed.

(** C2: for an agent that declares no schema, a payload other than
    [None], [{}] and [[]] makes validation raise a report with exactly
    one error item, of code "<where>.not_supported" and pointer
    "/<where>", and makes lookup return ok=false with that single item;
    [None], [{}] and [[]] validate to [None] and look up to ok=true with
    a null validated object and no errors. *)
Theorem no_schema_not_supported (w : Where) (payload : Value) :
  (in_blank payload = true
     ↔ payload = VNone ∨ payload = VDict [] ∨ payload = VList [])
  ∧ (in_blank payload = false →
     ∃ item,
       _validate_with_model class_name None payload (where_name w)
         = Raise (ValueError (VDict [("ok", VBool false); ("errors", VList [item])]))
       ∧ (∃ r, _lookup_with_model class_name None payload (where_name w) = Ok r
               ∧ report_get "ok" r = Some (VBool false)
               ∧ report_get (where_name w) r = Some VNone
               ∧ report_get "errors" r = Some (VList [item]))
       ∧ item_code item = Some (where_name w +:+ ".not_supported")
       ∧ item_pointer item = Some ("/" +:+ where_name w))
  ∧ (in_blank payload = true →
     _validate_with_model class_name None payload (where_name w) = Ok VNone
     ∧ ∃ r, _lookup_with_model class_name None payload (where_name w) = Ok r
            ∧ report_get "ok" r = Some (VBool true)
            ∧ report_get (where_name w) r = Some VNone
            ∧ report_get "errors" r = Some (VList [])).
Proof.
  split; [apply in_blank_spec|]. split.
  - intros Hblank. exists (not_supported_item class_name (where_name w)).
    unfold _validate_with_model, _lookup_with_model. rewrite Hblank. simpl.
    split; [reflexivity|]. split.
    + eexists. split; [reflexivity|]. by destruct w.
    + by destruct w.
  - intros Hblank.
    unfold _validate_with_model, _lookup_with_model. rewrite Hblank. simpl.
    split; [reflexivity|]. eexists. split; [reflexivity|]. by destruct w.
Qed.

(** C3: a payload that is already an instance of the model is returned
    as it is, and whatever a validation returns validates to itself. *)
Theorem validate_idempotent (model : option ModelClass) (payload : Value)
    (where_ : string) :
  (∀ m, model = Some m → isinstance payload (model_cls m) = true →
        _validate_with_model class_name model payload where_ = Ok payload)
  ∧ (∀ out, _validate_with_model class_name model payload where_ = Ok out →
            _validate_with_model class_name model out where_ = Ok out).
Proof.
  split.
  - intros m -> Hinst. unfold _validate_with_model. by rewrite Hinst.
  - intros out. destruct model as [m|]; unfold _validate_with_model.
    + destruct (isinstance payload (model_cls m)) eqn:Hinst.
      * intros [= <-]. by rewrite Hinst.
      * assert (Hout : ∀ kwargs, construct m kwargs = Ok out →
                  (if isinstance out (model_cls m) then Ok out
                   else match out with
                        | VNone =>
                            match construct m [] with
                            | Raise (ValidationError ve) =>
                                Raise (ValueError (failure_report where_ ve))
                            | r => r
                            end
                        | VDict kw =>
                            match construct m kw with
                            | Raise (ValidationError ve) =>
                                Raise (ValueError (failure_report where_ ve))
                            | r => r
                            end
                        | _ => Raise (TypeError (where_ +:+ " debe ser "
                                 +:+ cls_name (model_cls m) +:+ ", dict o None"))
                        end) = Ok out).
        { intros kwargs Hc. by rewrite (construct_instance _ _ _ Hc). }
        destruct payload; try done; intros Hw; apply wrap_construct_Ok in Hw;
          by eapply Hout.
    + destruct (in_blank payload); simpl; [|done]. by intros [= <-].
Qed.

(** C4: with a declared model, a payload that is neither an instance of
    it, nor a dict, nor [None] makes validation raise [TypeError], which
    is not a [ValueError]; lookup, which turns every [ValueError] of
    validation into an ok=false report, lets the [TypeError] through. *)
Theorem type_mismatch_propagates (m : ModelClass) (payload : Value) (w : Where) :
  isinstance payload (model_cls m) = false →
  payload ≠ VNone →
  (∀ d, payload ≠ VDict d) →
  (∃ msg,
     _validate_with_model class_name (Some m) payload (where_name w)
       = Raise (TypeError msg)
     ∧ _lookup_with_model class_name (Some m) payload (where_name w)
       = Raise (TypeError msg)
     ∧ is_ValueError (TypeError msg) = false)
  ∧ (∀ q arg,
       _validate_with_model class_name (Some m) q (where_name w)
         = Raise (ValueError arg) →
       ∃ r, _lookup_with_model class_name (Some m) q (where_name w) = Ok r
            ∧ report_get "ok" r = Some (VBool false)).
Proof.
  intros Hinst Hnone Hdict. split.
  - exists (where_name w +:+ " debe ser " +:+ cls_name (model_cls m) +:+ ", dict o None").
    assert (Hv : _validate_with_model class_name (Some m) payload (where_name w)
                 = Raise (TypeError (where_name w +:+ " debe ser "
                                     +:+ cls_name (model_cls m) +:+ ", dict o None"))).
    { unfold _validate_with_model. rewrite Hinst.
      destruct payload; try done. by destruct (Hdict d). }
    split; [exact Hv|]. split; [|done].
    unfold _lookup_with_model. by rewrite Hv.
  - intros q arg Hv. unfold _lookup_with_model. rewrite Hv. simpl.
    eexists. split; [reflexivity|]. by destruct w.
Qed.

Lemma is_missing_spec e : is_missing e = true ↔ absence_marked e.
Proof.
  unfold is_missing, absence_marked, violation_kind, violation_msg.
  rewrite !orb_true_iff, endswith_spec, String.eqb_eq, startswith_spec. tauto.
Qed.

Lemma code_suffixes_differ where_ : where_ +:+ ".missing" ≠ where_ +:+ ".validation".
Proof. by apply append_suffix_neq. Qed.

Lemma normalize_error_code where_ e :
  item_code (normalize_error where_ e)
  = Some (if is_missing e then where_ +:+ ".missing" else where_ +:+ ".validation").
Proof. reflexivity. Qed.

Lemma normalize_error_pointer where_ e :
  item_pointer (normalize_error where_ e) = Some (pointer_of e).
Proof. reflexivity. Qed.

Lemma normalize_error_classified where_ e : classified where_ e (normalize_error where_ e).
Proof.
  unfold classified. rewrite normalize_error_code, normalize_error_pointer.
  rewrite <- is_missing_spec. pose proof (code_suffixes_differ where_) as Hne.
  destruct (is_missing e); repeat split; try done; congruence.
Qed.

Lemma validate_fields_error kwargs fields F fi e :
  (F, fi) ∈ fields → validate_field kwargs F fi = inr e →
  e ∈ snd (validate_fields kwargs fields).
Proof.
  induction fields as [|[F' fi'] fields IH]; intros Hin Hv.
  - by apply elem_of_nil in Hin.
  - simpl. destruct (validate_fields kwargs fields) as [attrs errs] eqn:Hrest.
    apply elem_of_cons in Hin as [[= <- <-]|Hin].
    + rewrite Hv. simpl. left.
    + specialize (IH Hin Hv). simpl in IH.
      destruct (validate_field kwargs F' fi'); simpl; [done | by right].
Qed.

Lemma construct_error m kwargs e :
  e ∈ snd (validate_fields kwargs (model_fields m)) →
  construct m kwargs
  = Raise (ValidationError (snd (validate_fields kwargs (model_fields m)))).
Proof.
  unfold construct. destruct (validate_fields kwargs (model_fields m)) as [attrs [|e' errs]];
    simpl; [|done].
  intros Hin. by apply elem_of_nil in Hin.
Qed.

Lemma model_rejects_dict m kwargs :
  is_model_class m → isinstance (VDict kwargs) (model_cls m) = false.
Proof.
  intros [Hcls _]. unfold isinstance. apply bool_decide_eq_false. simpl.
  intros Hin. apply Hcls. unfold builtin_classes.
  rewrite !elem_of_cons in Hin. rewrite !elem_of_cons. tauto.
Qed.

Lemma model_rejects_None m : is_model_class m → isinstance VNone (model_cls m) = false.
Proof.
  intros [Hcls _]. unfold isinstance. apply bool_decide_eq_false. simpl.
  intros Hin. apply Hcls. unfold builtin_classes.
  rewrite !elem_of_cons in Hin. rewrite !elem_of_cons. tauto.
Qed.

(** A field error makes validation of a dict, or of [None], raise the
    report that holds its normalized item. *)
Lemma validate_field_error m where_ kwargs F fi e :
  is_model_class m → (F, fi) ∈ model_fields m →
  validate_field kwargs F fi = inr e →
  ∃ items,
    _validate_with_model class_name (Some m) (VDict kwargs) where_
      = Raise (ValueError (VDict [("ok", VBool false); ("errors", VList items)]))
    ∧ (kwargs = [] →
       _validate_with_model class_name (Some m) VNone where_
         = Raise (ValueError (VDict [("ok", VBool false); ("errors", VList items)])))
    ∧ normalize_error where_ e ∈ items.
Proof.
  intros Hm Hin Hv.
  pose proof (validate_fields_error _ _ _ _ _ Hin Hv) as He.
  exists (_normalize_pydantic_errors where_ (snd (validate_fields kwargs (model_fields m)))).
  unfold _validate_with_model.
  rewrite (model_rejects_dict _ _ Hm), (model_rejects_None _ Hm).
  rewrite (construct_error _ _ _ He). split; [reflexivity|]. split.
  - intros ->. by rewrite (construct_error _ _ _ He).
  - unfold _normalize_pydantic_errors. by apply (list_elem_of_fmap_2 (normalize_error where_)).
Qed.

Lemma missing_error_item where_ F :
  item_code (normalize_error where_ (missing_error F)) = Some (where_ +:+ ".missing")
  ∧ item_pointer (normalize_error where_ (missing_error F)) = Some ("/" +:+ F).
Proof. split; reflexivity. Qed.

(** No failure of a supplied value carries an absence marker. *)
Ltac failure_cases Hv :=
  repeat first
    [ discriminate Hv
    | injection Hv as <-; reflexivity
    | match type of Hv with
      | context [match ?x with _ => _ end] => destruct x; simpl in Hv
      end ].

Lemma str_failure v f F : validate_str v = inr f → is_missing (located F f) = false.
Proof. unfold validate_str. intros Hv. failure_cases Hv. Qed.

Lemma int_failure v f F : validate_int v = inr f → is_missing (located F f) = false.
Proof. unfold validate_int. intros Hv. failure_cases Hv. Qed.

Lemma float_failure v f F : validate_float v = inr f → is_missing (located F f) = false.
Proof. unfold validate_float. intros Hv. failure_cases Hv. Qed.

Lemma bool_failure v f F : validate_bool v = inr f → is_missing (located F f) = false.
Proof. unfold validate_bool, bool_parsing, bool_type. intros Hv. failure_cases Hv. Qed.

Lemma instance_failure c v f F :
  validate_instance c v = inr f → is_missing (located F f) = false.
Proof. unfold validate_instance. intros Hv. failure_cases Hv. Qed.

Lemma bounds_failure fi v f F : check_bounds fi v = inr f → is_missing (located F f) = false.
Proof. unfold check_bounds, check_ge. intros Hv. failure_cases Hv. Qed.

Lemma base_failure fi v f F : validate_base fi v = inr f → is_missing (located F f) = false.
Proof.
  unfold validate_base. destruct (base fi).
  - discriminate.
  - apply str_failure.
  - destruct (validate_int v) as [v'|f'] eqn:Hi.
    + apply bounds_failure.
    + intros [= <-]. by eapply int_failure.
  - destruct (validate_float v) as [v'|f'] eqn:Hi.
    + apply bounds_failure.
    + intros [= <-]. by eapply float_failure.
  - apply bool_failure.
  - apply instance_failure.
Qed.

Lemma rejected_value_not_missing fi v f F :
  validate_value fi v = inr f → is_missing (located F f) = false.
Proof.
  unfold validate_value. destruct v; try apply base_failure.
  destruct (nullable fi); [discriminate | apply base_failure].
Qed.

Lemma rejected_value_item where_ fi v f F :
  validate_value fi v = inr f →
  item_code (normalize_error where_ (located F f)) = Some (where_ +:+ ".validation")
  ∧ item_pointer (normalize_error where_ (located F f)) = Some ("/" +:+ F).
Proof.
  intros Hv. rewrite normalize_error_code, (rejected_value_not_missing _ _ _ F Hv).
  split; [done|]. by destruct f as [[ty msg] ctx].
Qed.

(** C1: every error of the schema library becomes one item, in order,
    whose code is "<where>.missing" exactly when the violation kind is
    "missing" or ends with ".missing" or the message, letter case aside,
    starts with "field required", and "<where>.validation" otherwise,
    with the pointer built from the error's location; for a field [F] of
    a model, a payload (a dict, or [None]) that omits [F] when [F] has no
    default raises a report holding an item of code "<where>.missing" and
    pointer "/F", and a payload that supplies a value the field rejects
    raises a report holding an item of code "<where>.validation", not
    "<where>.missing", and pointer "/F". *)
Theorem missing_vs_validation (where_ : string) (m : ModelClass) (F : string)
    (fi : FieldInfo) (kwargs : list (string * Value)) :
  is_model_class m →
  (F, fi) ∈ model_fields m →
  (∀ ve, Forall2 (classified where_) ve (_normalize_pydantic_errors where_ ve))
  ∧ (default fi = None → dict_get F kwargs = None →
     ∃ items item,
       _validate_with_model class_name (Some m) (VDict kwargs) where_
         = Raise (ValueError (VDict [("ok", VBool false); ("errors", VList items)]))
       ∧ (kwargs = [] →
          _validate_with_model class_name (Some m) VNone where_
            = Raise (ValueError (VDict [("ok", VBool false); ("errors", VList items)])))
       ∧ item ∈ items
       ∧ item_code item = Some (where_ +:+ ".missing")
       ∧ item_pointer item = Some ("/" +:+ F))
  ∧ (∀ v f, dict_get F kwargs = Some v → validate_value fi v = inr f →
     ∃ items item,
       _validate_with_model class_name (Some m) (VDict kwargs) where_
         = Raise (ValueError (VDict [("ok", VBool false); ("errors", VList items)]))
       ∧ item ∈ items
       ∧ item_code item = Some (where_ +:+ ".validation")
       ∧ item_code item ≠ Some (where_ +:+ ".missing")
       ∧ item_pointer item = Some ("/" +:+ F)).
Proof.
  intros Hm Hin. split; [|split].
  - intros ve. unfold _normalize_pydantic_errors.
    induction ve as [|e ve IH]; simpl; constructor; [|exact IH].
    apply normalize_error_classified.
  - intros Hdef Hget.
    assert (Hv : validate_field kwargs F fi = inr (missing_error F)).
    { unfold validate_field. by rewrite Hget, Hdef. }
    destruct (validate_field_error m where_ kwargs F fi _ Hm Hin Hv)
      as (items & Hraise & Hnone & Hitem).
    exists items, (normalize_error where_ (missing_error F)).
    pose proof (missing_error_item where_ F) as [Hcode Hptr]. by repeat split.
  - intros v f Hget Hrej.
    assert (Hv : validate_field kwargs F fi = inr (located F f)).
    { unfold validate_field. by rewrite Hget, Hrej. }
    destruct (validate_field_error m where_ kwargs F fi _ Hm Hin Hv)
      as (items & Hraise & _ & Hitem).
    exists items, (normalize_error where_ (located F f)).
    pose proof (rejected_value_item where_ fi v f F Hrej) as [Hcode Hptr].
    repeat split; try done. rewrite Hcode. intros [= Heq].
    by destruct (code_suffixes_differ where_).
Qed.

(** C5: looking up [{}] against [TooledConfig] gives ok=true with every
    default applied, temperature 0.0 and model "gpt-4o-mini" among them;
    looking up [{"temperature": 5.0}] gives ok=false with exactly one
    error, of code "config.validation" and pointer "/temperature". *)
Theorem tooled_config_scenario :
  lookup_config class_name (Some TooledConfig) (VDict [])
  = Ok (VDict [("ok", VBool true);
               ("config",
                VDict [("model", VStr "gpt-4o-mini");
                       ("temperature", VFloat 0);
                       ("max_tokens", VInt 256);
                       ("lang", VStr "es");
                       ("system_prompt",
                        VStr "Eres un agente útil. Usa herramientas cuando sea necesario.")]);
               ("errors", VList []);
               ("schema", VNone)])
  ∧ ∃ item,
      lookup_config class_name (Some TooledConfig) (VDict [("temperature", VFloat 5)])
      = Ok (VDict [("ok", VBool false); ("config", VNone);
                   ("errors", VList [item]); ("schema", VNone)])
      ∧ item_code item = Some "config.validation"
      ∧ item_pointer item = Some "/temperature".
Proof.
  split; [reflexivity|]. eexists. split; [reflexivity|]. split; reflexivity.
Qed.

End AgentTheorems.

(** ** Dependency injection *)

Section InjectTheorems.
Import Pydantic Agent Context.
Context `{NumberSyntax}.

Lemma inject_step_other utils fname acc nf :
  fst nf ≠ fname →
  dict_get fname
    (let provided := provided_for utils (annotation (snd nf)) in
     if negb (is_None provided) then dict_set (fst nf) provided acc else acc)
  = dict_get fname acc.
Proof.
  intros Hne. simpl. destruct (negb _); [|done]. by apply dict_get_set_ne.
Qed.

Lemma inject_values_other utils fname fields acc :
  fname ∉ map fst fields →
  dict_get fname
    (fold_left
       (fun values nf =>
          let provided := provided_for utils (annotation (snd nf)) in
          if negb (is_None provided) then dict_set (fst nf) provided values else values)
       fields acc)
  = dict_get fname acc.
Proof.
  revert acc. induction fields as [|nf fields IH]; intros acc Hnin; [done|].
  simpl in Hnin. apply not_elem_of_cons in Hnin as [Hne Hnin]. simpl fold_left.
  rewrite IH by done. apply inject_step_other. congruence.
Qed.

Lemma inject_values_slot utils fname fi fields acc :
  NoDup (map fst fields) → (fname, fi) ∈ fields →
  dict_get fname
    (fold_left
       (fun values nf =>
          let provided := provided_for utils (annotation (snd nf)) in
          if negb (is_None provided) then dict_set (fst nf) provided values else values)
       fields acc)
  = if is_None (provided_for utils (annotation fi)) then dict_get fname acc
    else Some (provided_for utils (annotation fi)).
Proof.
  revert acc. induction fields as [|nf fields IH]; intros acc Hnd Hin.
  - by apply elem_of_nil in Hin.
  - simpl in Hnd. apply NoDup_cons in Hnd as [Hnotin Hnd]. simpl fold_left.
    apply elem_of_cons in Hin as [<-|Hin].
    + rewrite inject_values_other by done. simpl.
      destruct (is_None (provided_for utils (annotation fi))); simpl; [done|].
      apply dict_get_set_eq.
    + rewrite IH by done.
      assert (Hne : fst nf ≠ fname).
      { intros <-. apply Hnotin. by apply (list_elem_of_fmap_2 fst) in Hin. }
      destruct (is_None (provided_for utils (annotation fi))); [|done].
      by apply inject_step_other.
Qed.

Lemma inject_values_get utils fname fi fields :
  NoDup (map fst fields) → (fname, fi) ∈ fields →
  dict_get fname (inject_values utils fields)
  = if is_None (provided_for utils (annotation fi)) then None
    else Some (provided_for utils (annotation fi)).
Proof.
  intros Hnd Hin. exact (inject_values_slot utils fname fi fields [] Hnd Hin).
Qed.









End InjectTheorems.

Section InjectCounterexample.
Import Pydantic Context.


End InjectCounterexample.

(** ** The cost-tracing handler *)

Section TracerTheorems.
Import Simple.
#[local] Open Scope nat_scope.
Variable tiktoken : option Tiktoken.

Lemma in_flight_ok_new : in_flight_ok new_handler.
Proof. intros r c Hc. simpl in Hc. by rewrite lookup_empty in Hc. Qed.

Lemma start_common_spec h kind_ serialized prompts_ rid parent t0 :
  ∃ c, fst (_start_common h kind_ serialized prompts_ rid parent t0)
       = {| calls := <[rid := c]> (calls h); finished := finished h |}
       ∧ run_id c = rid ∧ fresh c.
Proof. eexists. split; [reflexivity|]. by repeat split. Qed.

Lemma dispatch_effect h ev : effect h ev (fst (dispatch tiktoken h ev)).
Proof.
  destruct ev as [ser ps rid parent now|ser ms rid parent now|resp rid now|err rid now];
    cbn [dispatch].
  - unfold on_llm_start.
    destruct (start_common_spec h "llm" ser ps rid parent now) as (c & -> & Hr & Hf).
    by eapply effect_start.
  - unfold on_chat_model_start.
    match goal with
    | |- context [_start_common h ?k ?s ?p rid parent now] =>
        destruct (start_common_spec h k s p rid parent now) as (c & -> & Hr & Hf)
    end.
    by eapply effect_start.
  - unfold on_llm_end, _end_common. destruct (calls h !! rid) as [c|] eqn:Hc; simpl.
    + eapply (effect_finish _ _ _ c); [done | exact Hc | | reflexivity | reflexivity].
      reflexivity.
    + by apply effect_none.
  - unfold on_llm_error. destruct (calls h !! rid) as [c|] eqn:Hc; simpl.
    + eapply (effect_finish _ _ _ c); [done | exact Hc | | reflexivity | reflexivity].
      reflexivity.
    + by apply effect_none.
Qed.

Lemma effect_in_flight_ok h ev h' : effect h ev h' → in_flight_ok h → in_flight_ok h'.
Proof.
  intros [c Hs Hr Hf Hcalls Hfin|c c' Hs Hc Hr Hcalls Hfin|Hs Hc ->] Hok; [| |done].
  - intros r c0. rewrite Hcalls. destruct (decide (event_run_id ev = r)) as [<-|Hne].
    + rewrite lookup_insert_eq. by intros [= <-].
    + rewrite lookup_insert_ne by done. apply Hok.
  - intros r c0. rewrite Hcalls. destruct (decide (event_run_id ev = r)) as [<-|Hne].
    + by rewrite lookup_delete_eq.
    + rewrite lookup_delete_ne by done. apply Hok.
Qed.

Lemma run_events_cons h ev evs :
  run_events tiktoken h (ev :: evs) = run_events tiktoken (fst (dispatch tiktoken h ev)) evs.
Proof. reflexivity. Qed.

Lemma run_events_in_flight_ok h evs :
  in_flight_ok h → in_flight_ok (run_events tiktoken h evs).
Proof.
  revert h. induction evs as [|ev evs IH]; intros h Hok; [done|].
  rewrite run_events_cons. apply IH.
  by eapply effect_in_flight_ok; [apply dispatch_effect|].
Qed.

Lemma in_flight_insert r rid c h h' :
  calls h' = <[rid := c]> (calls h) →
  in_flight r h' = if String.eqb rid r then 1 else in_flight r h.
Proof.
  intros Hc. unfold in_flight. rewrite Hc.
  destruct (String.eqb_spec rid r) as [->|Hne].
  - by rewrite lookup_insert_eq.
  - by rewrite lookup_insert_ne.
Qed.

Lemma in_flight_delete r rid h h' :
  calls h' = delete rid (calls h) →
  in_flight r h' = if String.eqb rid r then 0 else in_flight r h.
Proof.
  intros Hc. unfold in_flight. rewrite Hc.
  destruct (String.eqb_spec rid r) as [->|Hne].
  - by rewrite lookup_delete_eq.
  - by rewrite lookup_delete_ne.
Qed.

Lemma finished_of_snoc r c h h' :
  finished h' = (finished h ++ [c])%list →
  finished_of r h' = finished_of r h + (if String.eqb (run_id c) r then 1 else 0).
Proof.
  intros Hf. unfold finished_of. rewrite Hf, List.filter_app, length_app. simpl.
  by destruct (String.eqb (run_id c) r).
Qed.

Lemma effect_counts r h ev h' :
  effect h ev h' → in_flight_ok h →
  finished_of r h' + in_flight r h'
    ≤ finished_of r h + in_flight r h
      + (if is_start ev && String.eqb (event_run_id ev) r then 1 else 0)
  ∧ finished_of r h'
    ≤ finished_of r h
      + (if negb (is_start ev) && String.eqb (event_run_id ev) r then 1 else 0).
Proof.
  intros [c Hs Hr Hf Hcalls Hfin|c c' Hs Hc Hr Hcalls Hfin|Hs Hc ->] Hok.
  - rewrite (in_flight_insert _ _ _ _ _ Hcalls), Hs. unfold finished_of. rewrite Hfin.
    simpl. destruct (String.eqb (event_run_id ev) r); lia.
  - destruct (Hok _ _ Hc) as [Hrid _].
    rewrite (in_flight_delete _ _ _ _ Hcalls), (finished_of_snoc _ _ _ _ Hfin), Hs, Hr, Hrid.
    simpl. destruct (String.eqb_spec (event_run_id ev) r) as [<-|Hne]; [|lia].
    unfold in_flight. rewrite Hc. lia.
  - lia.
Qed.

Lemma starts_of_cons r ev evs :
  starts_of r (ev :: evs)
  = (if is_start ev && String.eqb (event_run_id ev) r then 1 else 0) + starts_of r evs.
Proof.
  unfold starts_of. simpl.
  by destruct (is_start ev && String.eqb (event_run_id ev) r).
Qed.

Lemma finishes_of_cons r ev evs :
  finishes_of r (ev :: evs)
  = (if negb (is_start ev) && String.eqb (event_run_id ev) r then 1 else 0)
    + finishes_of r evs.
Proof.
  unfold finishes_of. simpl.
  by destruct (negb (is_start ev) && String.eqb (event_run_id ev) r).
Qed.

Lemma run_events_counts r h evs :
  in_flight_ok h →
  finished_of r (run_events tiktoken h evs) + in_flight r (run_events tiktoken h evs)
    ≤ finished_of r h + in_flight r h + starts_of r evs
  ∧ finished_of r (run_events tiktoken h evs) ≤ finished_of r h + finishes_of r evs.
Proof.
  revert h. induction evs as [|ev evs IH]; intros h Hok.
  - simpl. unfold starts_of, finishes_of. simpl. lia.
  - rewrite run_events_cons, starts_of_cons, finishes_of_cons.
    pose proof (dispatch_effect h ev) as Heff.
    destruct (effect_counts r _ _ _ Heff Hok) as [H1 H2].
    destruct (IH _ (effect_in_flight_ok _ _ _ Heff Hok)) as [H3 H4]. lia.
Qed.

Lemma finished_of_zero r h c : finished_of r h = 0 → c ∈ finished h → run_id c ≠ r.
Proof.
  unfold finished_of. intros Hz Hin Heq.
  apply list_elem_of_In in Hin.
  assert (Hf : In c (List.filter (fun c => String.eqb (run_id c) r) (finished h))).
  { apply List.filter_In. split; [done|]. by apply String.eqb_eq. }
  destruct (List.filter _ (finished h)); [done | discriminate Hz].
Qed.

(** C8: an end event for a run that is not in flight changes neither the
    handler nor the log, and an error event for such a run leaves the
    handler as it is; a callback that lengthens the finished sequence is
    an end or error event whose run was in flight, it appends one record
    of that run and removes the run from the in-flight map; after any
    trace, the finished records of a run plus its in-flight record are at
    most its start events, its finished records are at most its end and
    error events, and a run with no end or error event has no finished
    record. *)
Theorem tracer_completes_at_most_once (evs : list Event) (r : string) :
  (∀ h response now,
     calls h !! r = None → dispatch tiktoken h (LlmEnd response r now) = (h, []))
  ∧ (∀ h err now,
     calls h !! r = None → fst (dispatch tiktoken h (LlmError err r now)) = h)
  ∧ (∀ ev,
     finished (fst (dispatch tiktoken (run_events tiktoken new_handler evs) ev))
       = finished (run_events tiktoken new_handler evs)
     ∨ ∃ c c',
         is_start ev = false
         ∧ calls (run_events tiktoken new_handler evs) !! event_run_id ev = Some c
         ∧ run_id c' = event_run_id ev
         ∧ calls (fst (dispatch tiktoken (run_events tiktoken new_handler evs) ev))
             !! event_run_id ev = None
         ∧ finished (fst (dispatch tiktoken (run_events tiktoken new_handler evs) ev))
           = (finished (run_events tiktoken new_handler evs) ++ [c'])%list)
  ∧ finished_of r (run_events tiktoken new_handler evs)
      + in_flight r (run_events tiktoken new_handler evs)
    ≤ starts_of r evs
  ∧ finished_of r (run_events tiktoken new_handler evs) ≤ finishes_of r evs
  ∧ (finishes_of r evs = 0 →
     ∀ c, c ∈ finished (run_events tiktoken new_handler evs) → run_id c ≠ r).
Proof.
  pose proof (run_events_in_flight_ok _ evs in_flight_ok_new) as Hok.
  destruct (run_events_counts r _ evs in_flight_ok_new) as [Hstarts Hfinishes].
  assert (Hz : finished_of r new_handler = 0 ∧ in_flight r new_handler = 0).
  { split; [done|]. unfold in_flight. simpl. by rewrite lookup_empty. }
  destruct Hz as [Hz1 Hz2]. rewrite Hz1 in Hfinishes. rewrite Hz1, Hz2 in Hstarts.
  split; [|split; [|split; [|split; [|split]]]].
  - intros h response now Hc. simpl. unfold on_llm_end, _end_common. by rewrite Hc.
  - intros h err now Hc. simpl. unfold on_llm_error. by rewrite Hc.
  - intros ev.
    destruct (dispatch_effect (run_events tiktoken new_handler evs) ev)
      as [c Hs Hr Hf Hcalls Hfin|c c' Hs Hc Hr Hcalls Hfin|Hs Hc Heq].
    + by left.
    + right. exists c, c'. destruct (Hok _ _ Hc) as [Hrid _].
      repeat split; try done; [congruence|].
      rewrite Hcalls. apply lookup_delete_eq.
    + left. by rewrite Heq.
  - simpl in Hstarts. lia.
  - simpl in Hfinishes. lia.
  - intros Hnone c. apply finished_of_zero. lia.
Qed.

Lemma sum_Z_snoc f l c : sum_Z f (l ++ [c]) = (sum_Z f l + f c)%Z.
Proof. unfold sum_Z. by rewrite fold_left_app. Qed.

Lemma Qplus_zero_r (q : Q) : (q + 0)%Q = q.
Proof.
  destruct q as [n d]. unfold Qplus. simpl.
  by rewrite Z.mul_1_r, Z.add_0_r, Pos.mul_1_r.
Qed.

Lemma sum_Q_snoc_zero f l c : f c = 0%Q → sum_Q f (l ++ [c]) = sum_Q f l.
Proof.
  intros Hz. unfold sum_Q. rewrite fold_left_app. simpl. rewrite Hz.
  apply Qplus_zero_r.
Qed.

Lemma totals_snoc_zero l c :
  prompt_tokens c = 0%Z → completion_tokens c = 0%Z → total_tokens c = 0%Z →
  cost_usd c = 0%Q →
  totals (l ++ [c]) = totals l.
Proof.
  intros Hp Hc Ht Hcost. unfold totals.
  rewrite !sum_Z_snoc, Hp, Hc, Ht, !Z.add_0_r.
  by rewrite (sum_Q_snoc_zero cost_usd l c Hcost).
Qed.

(** C10: when an error event finalizes the in-flight record of a run,
    after any trace, the record moves to the finished sequence with only
    the end time, the latency and the error message added; its prompt,
    completion and total tokens and its cost are the zeros set at start,
    and the totals over the finished sequence are what they were before
    it was appended. *)
Theorem error_contributes_zero (evs : list Event) (err r : string) (now : Q) (c : Call) :
  calls (run_events tiktoken new_handler evs) !! r = Some c →
  ∃ c',
    fst (on_llm_error (run_events tiktoken new_handler evs) err r now)
    = {| calls := delete r (calls (run_events tiktoken new_handler evs));
         finished := (finished (run_events tiktoken new_handler evs) ++ [c'])%list |}
    ∧ finalized_by_error c c' err now
    ∧ prompt_tokens c' = 0%Z
    ∧ completion_tokens c' = 0%Z
    ∧ total_tokens c' = 0%Z
    ∧ cost_usd c' = 0%Q
    ∧ totals (finished (run_events tiktoken new_handler evs) ++ [c'])
      = totals (finished (run_events tiktoken new_handler evs)).
Proof.
  intros Hc.
  pose proof (run_events_in_flight_ok _ evs in_flight_ok_new) as Hok.
  destruct (Hok _ _ Hc) as (_ & Hp & Hcomp & Ht & Hcost & _).
  unfold on_llm_error. rewrite Hc. simpl.
  eexists. split; [reflexivity|].
  split; [by repeat split|].
  repeat split; try done.
  by apply totals_snoc_zero.
Qed.

End TracerTheorems.

(** ** Floats *)

Section FloatFacts.
Import Simple.
#[local] Open Scope Q_scope.

Lemma round_half_even_Z (x : Q) (z : Z) : x == inject_Z z -> round_half_even x = z.
Proof.
  intros Hx. unfold round_half_even.
  rewrite (Qfloor_comp _ _ Hx), Qfloor_Z.
  assert (Hd : x - inject_Z z == 0) by (rewrite Hx; ring).
  rewrite (Qcompare_comp _ _ Hd _ _ (Qeq_refl (1 # 2))). reflexivity.
Qed.

Lemma round_half_even_bounds (x : Q) :
  (Qfloor x <= round_half_even x <= Qfloor x + 1)%Z.
Proof.
  unfold round_half_even.
  destruct (Qcompare _ _); [destruct (Z.even _)|..]; lia.
Qed.

Lemma round_half_even_mono (x y : Q) : x <= y -> (round_half_even x <= round_half_even y)%Z.
Proof.
  intros Hxy. pose proof (Qfloor_resp_le _ _ Hxy) as Hf.
  destruct (Z.eq_dec (Qfloor x) (Qfloor y)) as [Heq|Hne].
  - unfold round_half_even. rewrite Heq.
    destruct (Qcompare (x - inject_Z (Qfloor y)) (1 # 2)) eqn:Hcx;
      destruct (Qcompare (y - inject_Z (Qfloor y)) (1 # 2)) eqn:Hcy;
      try (destruct (Z.even (Qfloor y))); try lia; exfalso;
      repeat match goal with
             | H : (_ ?= _) = Eq |- _ => apply Qeq_alt in H
             | H : (_ ?= _) = Lt |- _ => apply Qlt_alt in H
             | H : (_ ?= _) = Gt |- _ => apply Qgt_alt in H
             end; lra.
  - pose proof (round_half_even_bounds x). pose proof (round_half_even_bounds y). lia.
Qed.

Lemma pow2_pos (k : Z) : 0 < pow2 k.
Proof. apply Qpower_0_lt. reflexivity. Qed.

Lemma pow2_le (a b : Z) : (a <= b)%Z -> pow2 a <= pow2 b.
Proof. intros Hab. apply Qpower_le_compat_l; [exact Hab | discriminate]. Qed.

Lemma pow2_lt_inv (a b : Z) : pow2 a < pow2 b -> (a < b)%Z.
Proof. intros H. apply (Qpower_lt_compat_l_inv 2); [exact H | reflexivity]. Qed.

Lemma pow2_plus (a b : Z) : pow2 (a + b) == pow2 a * pow2 b.
Proof. apply Qpower_plus. discriminate. Qed.

Lemma pow2_Z (a : Z) : (0 <= a)%Z -> pow2 a == inject_Z (2 ^ a).
Proof. intros Ha. unfold pow2. rewrite Zpower_Qpower by exact Ha. reflexivity. Qed.

(** [x] is in the binade of [ilog2 x]. *)
Lemma ilog2_spec (x : Q) :
  ~ x == 0 -> pow2 (ilog2 x) <= Qabs x /\ Qabs x < pow2 (ilog2 x + 1).
Proof.
  intros Hx. destruct x as [n d].
  assert (Hn : (0 < Z.abs n)%Z).
  { destruct (Z.eq_dec n 0%Z) as [->|]; [exfalso; apply Hx; reflexivity | lia]. }
  pose proof (Z.log2_spec _ Hn) as [Hn1 Hn2].
  pose proof (Z.log2_spec (Z.pos d) (Pos2Z.is_pos d)) as [Hd1 Hd2].
  pose proof (Z.log2_nonneg (Z.abs n)) as Hln.
  pose proof (Z.log2_nonneg (Z.pos d)) as Hld.
  set (ln := Z.log2 (Z.abs n)) in *. set (ld := Z.log2 (Z.pos d)) in *.
  assert (Habs : Qabs (n # d) == inject_Z (Z.abs n) / inject_Z (Z.pos d)).
  { unfold Qabs. rewrite (Qmake_Qdiv (Z.abs n) d). reflexivity. }
  assert (Hdpos : 0 < inject_Z (Z.pos d)) by reflexivity.
  assert (Hlow : pow2 (ln - ld - 1) <= Qabs (n # d)).
  { rewrite Habs. apply Qle_shift_div_l; [exact Hdpos|].
    replace (ln - ld - 1)%Z with (ln + - (ld + 1))%Z by lia.
    rewrite pow2_plus. unfold pow2 at 2. rewrite Qpower_opp.
    fold (pow2 (ld + 1)). rewrite (pow2_Z ln Hln), (pow2_Z (ld + 1)) by lia.
    assert (H2 : 0 < inject_Z (2 ^ (ld + 1))).
    { change 0 with (inject_Z 0). rewrite <- Zlt_Qlt. lia. }
    setoid_replace (inject_Z (2 ^ ln) * / inject_Z (2 ^ (ld + 1)) * inject_Z (Z.pos d))
      with ((inject_Z (2 ^ ln) * inject_Z (Z.pos d)) / inject_Z (2 ^ (ld + 1)))
      using relation Qeq by (unfold Qdiv; ring).
    apply Qle_shift_div_r; [exact H2|].
    rewrite <- !inject_Z_mult, <- Zle_Qle. nia. }
  assert (Hhigh : Qabs (n # d) < pow2 (ln - ld + 1)).
  { rewrite Habs. apply Qlt_shift_div_r; [exact Hdpos|].
    replace (ln - ld + 1)%Z with ((ln + 1) + - ld)%Z by lia.
    rewrite pow2_plus. unfold pow2 at 2. rewrite Qpower_opp.
    fold (pow2 ld). rewrite (pow2_Z (ln + 1)), (pow2_Z ld Hld) by lia.
    assert (H2 : 0 < inject_Z (2 ^ ld)).
    { change 0 with (inject_Z 0). rewrite <- Zlt_Qlt. lia. }
    setoid_replace (inject_Z (2 ^ (ln + 1)) * / inject_Z (2 ^ ld) * inject_Z (Z.pos d))
      with ((inject_Z (2 ^ (ln + 1)) * inject_Z (Z.pos d)) / inject_Z (2 ^ ld))
      using relation Qeq by (unfold Qdiv; ring).
    apply Qlt_shift_div_l; [exact H2|].
    rewrite <- !inject_Z_mult, <- Zlt_Qlt. nia. }
  unfold ilog2. cbn [Qnum Qden]. fold ln ld.
  destruct (Qle_bool (pow2 (ln - ld)) (Qabs (n # d))) eqn:Ht.
  - apply Qle_bool_iff in Ht. split; [exact Ht | exact Hhigh].
  - split; [exact Hlow|]. replace (ln - ld - 1 + 1)%Z with (ln - ld)%Z by lia.
    apply Qnot_le_lt. intros Hle. apply Qle_bool_iff in Hle. congruence.
Qed.

Lemma ilog2_mono (x y : Q) : ~ x == 0 -> Qabs x <= Qabs y -> (ilog2 x <= ilog2 y)%Z.
Proof.
  intros Hx Hxy.
  assert (Hy : ~ y == 0).
  { intros Hy. apply Hx. rewrite Hy in Hxy. change (Qabs 0) with 0 in Hxy.
    apply Qabs_Qle_condition in Hxy. lra. }
  destruct (ilog2_spec x Hx) as [Hx1 _]. destruct (ilog2_spec y Hy) as [_ Hy2].
  assert (Hlt : pow2 (ilog2 x) < pow2 (ilog2 y + 1)) by lra.
  apply pow2_lt_inv in Hlt. lia.
Qed.

Lemma round_half_even_nonneg (x : Q) : 0 <= x -> (0 <= round_half_even x)%Z.
Proof.
  intros Hx. rewrite <- (round_half_even_Z 0 0) by reflexivity.
  apply round_half_even_mono. exact Hx.
Qed.

Lemma round_magnitude_nonneg (x : Q) : 0 <= round_magnitude x.
Proof.
  unfold round_magnitude. apply Qmult_le_0_compat; [|apply Qlt_le_weak, pow2_pos].
  change 0 with (inject_Z 0). rewrite <- Zle_Qle. apply round_half_even_nonneg.
  apply Qle_shift_div_l; [apply pow2_pos|]. rewrite Qmult_0_l. apply Qabs_nonneg.
Qed.

Lemma round_magnitude_mono (x y : Q) :
  ~ x == 0 -> Qabs x <= Qabs y -> round_magnitude x <= round_magnitude y.
Proof.
  intros Hx Hxy.
  assert (Hy : ~ y == 0).
  { intros Hy. apply Hx. rewrite Hy in Hxy. change (Qabs 0) with 0 in Hxy.
    apply Qabs_Qle_condition in Hxy. lra. }
  pose proof (ilog2_mono x y Hx Hxy) as Hlog.
  destruct (ilog2_spec x Hx) as [_ Hx2]. destruct (ilog2_spec y Hy) as [Hy1 _].
  unfold round_magnitude.
  set (ex := Z.max (ilog2 x) (-1022)). set (ey := Z.max (ilog2 y) (-1022)).
  assert (Hex : (ex <= ey)%Z) by lia.
  pose proof (pow2_pos (ex - 52)) as Hux. pose proof (pow2_pos (ey - 52)) as Huy.
  destruct (Z.eq_dec ex ey) as [Heq|Hne].
  - rewrite <- Heq. apply Qmult_le_compat_r; [|lra].
    rewrite <- Zle_Qle. apply round_half_even_mono.
    apply Qmult_le_compat_r; [exact Hxy|]. apply Qlt_le_weak, Qinv_lt_0_compat, Hux.
  - assert (Hey : ey = ilog2 y) by lia.
    apply Qle_trans with (pow2 (ex + 1)); [|apply Qle_trans with (pow2 ey)].
    + assert (Hm : (round_half_even (Qabs x / pow2 (ex - 52)) <= 2 ^ 53)%Z).
      { apply Z.le_trans with (round_half_even (inject_Z (2 ^ 53)));
          [|rewrite (round_half_even_Z _ (2 ^ 53)); [lia | reflexivity]].
        apply round_half_even_mono. apply Qle_shift_div_r; [exact Hux|].
        rewrite <- (pow2_Z 53) by lia. rewrite <- pow2_plus.
        replace (53 + (ex - 52))%Z with (ex + 1)%Z by lia.
        apply Qle_trans with (pow2 (ilog2 x + 1)); [lra|]. apply pow2_le. lia. }
      replace (ex + 1)%Z with (53 + (ex - 52))%Z by lia. rewrite pow2_plus.
      apply Qmult_le_compat_r; [|lra]. rewrite (pow2_Z 53) by lia.
      rewrite <- Zle_Qle. exact Hm.
    + apply pow2_le. lia.
    + assert (Hm : (2 ^ 52 <= round_half_even (Qabs y / pow2 (ey - 52)))%Z).
      { apply Z.le_trans with (round_half_even (inject_Z (2 ^ 52)));
          [rewrite (round_half_even_Z _ (2 ^ 52)); [lia | reflexivity]|].
        apply round_half_even_mono. apply Qle_shift_div_l; [exact Huy|].
        rewrite <- (pow2_Z 52) by lia. rewrite <- pow2_plus.
        replace (52 + (ey - 52))%Z with ey by lia. rewrite Hey. exact Hy1. }
      replace ey with (52 + (ey - 52))%Z at 1 by lia. rewrite pow2_plus.
      apply Qmult_le_compat_r; [|lra]. rewrite (pow2_Z 52) by lia.
      rewrite <- Zle_Qle. exact Hm.
Qed.

Lemma round_binary64_pos (x : Q) : 0 < x -> round_binary64 x == round_magnitude x.
Proof.
  intros Hx. unfold round_binary64.
  destruct (Qeq_bool x 0) eqn:Hz; [apply Qeq_bool_iff in Hz; lra|].
  destruct (Qle_bool 0 x) eqn:Hs; [apply Qred_correct|].
  exfalso. assert (H0 : 0 <= x) by lra. apply Qle_bool_iff in H0. congruence.
Qed.

Lemma round_binary64_neg (x : Q) : x < 0 -> round_binary64 x == - round_magnitude x.
Proof.
  intros Hx. unfold round_binary64.
  destruct (Qeq_bool x 0) eqn:Hz; [apply Qeq_bool_iff in Hz; lra|].
  destruct (Qle_bool 0 x) eqn:Hs; [apply Qle_bool_iff in Hs; lra | apply Qred_correct].
Qed.

Lemma round_binary64_zero (x : Q) : x == 0 -> round_binary64 x = 0.
Proof. intros Hx. unfold round_binary64. apply Qeq_bool_iff in Hx. rewrite Hx. reflexivity. Qed.

Lemma round_binary64_nonneg (x : Q) : 0 <= x -> 0 <= round_binary64 x.
Proof.
  intros Hx. destruct (Qeq_dec x 0) as [Hz|Hz]; [rewrite (round_binary64_zero x Hz); lra|].
  rewrite round_binary64_pos by lra. apply round_magnitude_nonneg.
Qed.

Lemma round_binary64_nonpos (x : Q) : x <= 0 -> round_binary64 x <= 0.
Proof.
  intros Hx. destruct (Qeq_dec x 0) as [Hz|Hz]; [rewrite (round_binary64_zero x Hz); lra|].
  rewrite round_binary64_neg by lra. pose proof (round_magnitude_nonneg x). lra.
Qed.

Lemma round_binary64_mono (x y : Q) : x <= y -> round_binary64 x <= round_binary64 y.
Proof.
  intros Hxy.
  destruct (Qlt_le_dec 0 x) as [Hx|Hx].
  - rewrite (round_binary64_pos x Hx), (round_binary64_pos y) by lra.
    apply round_magnitude_mono; [lra|]. rewrite !Qabs_pos by lra. exact Hxy.
  - destruct (Qlt_le_dec y 0) as [Hy|Hy].
    + rewrite (round_binary64_neg x), (round_binary64_neg y Hy) by lra.
      apply Qopp_le_compat. apply round_magnitude_mono; [lra|].
      rewrite !Qabs_neg by lra. lra.
    + apply Qle_trans with 0; [apply round_binary64_nonpos; exact Hx | apply round_binary64_nonneg; exact Hy].
Qed.

Lemma fmul_zero_l (x y : Q) : x == 0 -> fmul x y = 0.
Proof.
  intros Hx. unfold fmul. rewrite (round_binary64_zero x Hx).
  apply round_binary64_zero. ring.
Qed.


Lemma fdiv_zero_l (x y : Q) : x == 0 -> fdiv x y = 0.
Proof.
  intros Hx. unfold fdiv. rewrite (round_binary64_zero x Hx).
  apply round_binary64_zero. unfold Qdiv. ring.
Qed.

Lemma fadd_zero (x y : Q) : x == 0 -> y == 0 -> fadd x y = 0.
Proof.
  intros Hx Hy. unfold fadd.
  rewrite (round_binary64_zero x Hx), (round_binary64_zero y Hy). reflexivity.
Qed.


Lemma fadd_mono (x x' y y' : Q) : x <= x' -> y <= y' -> fadd x y <= fadd x' y'.
Proof.
  intros Hx Hy. apply round_binary64_mono.
  apply Qplus_le_compat; by apply round_binary64_mono.
Qed.


Lemma fmul_mono_l (x x' y : Q) : 0 <= y -> x <= x' -> fmul x y <= fmul x' y.
Proof.
  intros Hy Hx. apply round_binary64_mono. apply Qmult_le_compat_r.
  - by apply round_binary64_mono.
  - by apply round_binary64_nonneg.
Qed.

Lemma fdiv_mono_l (x x' y : Q) : 0 <= y -> x <= x' -> fdiv x y <= fdiv x' y.
Proof.
  intros Hy Hx. apply round_binary64_mono. apply Qmult_le_compat_r.
  - by apply round_binary64_mono.
  - apply Qinv_le_0_compat. by apply round_binary64_nonneg.
Qed.

Lemma float_of_int_mono (z z' : Z) : (z <= z')%Z -> float_of_int z <= float_of_int z'.
Proof. intros Hz. apply round_binary64_mono. by rewrite <- Zle_Qle. Qed.



Lemma py_round_zero (x : Q) (n : nat) : x == 0 -> py_round x n = 0.
Proof.
  intros Hx. unfold py_round. rewrite (round_binary64_zero x Hx).
  apply round_binary64_zero. rewrite (round_half_even_Z _ 0); [|ring].
  unfold Qdiv. ring.
Qed.

Lemma py_round_mono (x y : Q) (n : nat) : x <= y -> py_round x n <= py_round y n.
Proof.
  intros Hxy. apply round_binary64_mono.
  assert (Hs : 0 < inject_Z (10 ^ Z.of_nat n)).
  { change 0 with (inject_Z 0). rewrite <- Zlt_Qlt. apply Z.pow_pos_nonneg; lia. }
  apply Qmult_le_compat_r; [|apply Qlt_le_weak, Qinv_lt_0_compat, Hs].
  rewrite <- Zle_Qle. apply round_half_even_mono.
  apply Qmult_le_compat_r; [by apply round_binary64_mono | by apply Qlt_le_weak].
Qed.

End FloatFacts.

(** ** Pricing and cost *)

Section CostTheorems.
Import Simple.

Lemma prefixes_comparable name a b :
  startswith name a = true → startswith name b = true →
  (String.length a ≤ String.length b)%nat →
  startswith b a = true.
Proof.
  unfold startswith. revert a b.
  induction name as [|x name IH]; intros [|y a] [|z b]; simpl; try done.
  - intros _ _ Hlen. lia.
  - destruct (ascii_dec y x) as [->|]; [|done].
    destruct (ascii_dec z x) as [->|]; [|done].
    intros Ha Hb Hlen. destruct (ascii_dec x x); [|done].
    apply (IH a b Ha Hb). lia.
Qed.

Lemma startswith_refl s : startswith s s = true.
Proof. apply startswith_spec. exists "". induction s as [|a s IH]; [done|].
  rewrite append_cons. congruence.
Qed.

Lemma find_longest table name key price :
  longest_first table = true → NoDup (dict_keys table) →
  (key, price) ∈ table → startswith name key = true →
  (∀ key', key' ∈ dict_keys table → startswith name key' = true →
           (String.length key' ≤ String.length key)%nat) →
  find (fun kv => startswith name (fst kv)) table = Some (key, price).
Proof.
  induction table as [|[k0 p0] rest IH]; intros Hlf Hnd Hin Hpre Hmax.
  - by apply elem_of_nil in Hin.
  - simpl in Hlf. apply andb_prop in Hlf as [Hfa Hlf].
    unfold dict_keys in Hnd. simpl in Hnd. apply NoDup_cons in Hnd as [Hnotin Hnd].
    simpl. destruct (startswith name k0) eqn:H0.
    + apply elem_of_cons in Hin as [[= <- <-]|Hin]; [done|exfalso].
      assert (Hkey : key ∈ dict_keys rest) by (by apply (list_elem_of_fmap_2 fst) in Hin).
      assert (Hne : k0 ≠ key) by (intros ->; by apply Hnotin).
      assert (Hlen : (String.length k0 ≤ String.length key)%nat).
      { apply Hmax; [left | done]. }
      pose proof (prefixes_comparable name k0 key H0 Hpre Hlen) as Hpk.
      rewrite forallb_forall in Hfa. apply list_elem_of_In in Hin.
      specialize (Hfa _ Hin). simpl in Hfa. rewrite Hpk in Hfa. simpl in Hfa.
      apply negb_true_iff, negb_false_iff, String.eqb_eq in Hfa. done.
    + apply elem_of_cons in Hin as [[= -> ->]|Hin]; [congruence|].
      apply IH; try done. intros key' Hk'. apply Hmax. by right.
Qed.


Lemma pricing_longest_first : longest_first PRICING_PER_1K = true.
Proof. reflexivity. Qed.

Lemma pricing_keys_NoDup : NoDup (dict_keys PRICING_PER_1K).
Proof. compute_done. Qed.

Lemma match_pricing_exact name price :
  dict_get name PRICING_PER_1K = Some price → match_pricing name = price.
Proof. unfold match_pricing. by intros ->. Qed.

Lemma match_pricing_longest name key price :
  dict_get name PRICING_PER_1K = None →
  (key, price) ∈ PRICING_PER_1K → startswith name key = true →
  (∀ key', key' ∈ dict_keys PRICING_PER_1K → startswith name key' = true →
           (String.length key' ≤ String.length key)%nat) →
  match_pricing name = price.
Proof.
  intros Hnone Hin Hpre Hmax. unfold match_pricing. rewrite Hnone.
  by rewrite (find_longest _ _ _ _ pricing_longest_first pricing_keys_NoDup Hin Hpre Hmax).
Qed.


(** *** The cost estimate *)

Lemma match_pricing_cases (P : Q * Q → Prop) name :
  Forall (fun kv => P (snd kv)) PRICING_PER_1K → P (0, 0)%Q → P (match_pricing name).
Proof.
  intros Hall Hz. rewrite Forall_forall in Hall. unfold match_pricing.
  destruct (dict_get name PRICING_PER_1K) as [price|] eqn:Hg.
  - apply dict_get_Some_elem in Hg. exact (Hall _ Hg).
  - destruct (find _ PRICING_PER_1K) as [kv|] eqn:Hf; [|done].
    apply find_some in Hf as [Hin _]. apply list_elem_of_In in Hin. exact (Hall _ Hin).
Qed.

Lemma prices_nonnegative name :
  (0 <= fst (match_pricing name))%Q ∧ (0 <= snd (match_pricing name))%Q.
Proof.
  apply (match_pricing_cases (fun pr => (0 <= fst pr)%Q ∧ (0 <= snd pr)%Q)); [|done].
  repeat constructor; done.
Qed.


Lemma estimate_no_tokens name : estimate_cost_usd name 0 0 = 0%Q.
Proof.
  unfold estimate_cost_usd. destruct (match_pricing name) as [mi mo].
  apply fadd_zero; rewrite fmul_zero_l; try done; by rewrite fdiv_zero_l.
Qed.

Lemma estimate_mono name p c p' c' :
  (p ≤ p')%Z → (c ≤ c')%Z →
  (estimate_cost_usd name p c <= estimate_cost_usd name p' c')%Q.
Proof.
  intros Hp Hc. destruct (prices_nonnegative name) as [Hi Ho].
  unfold estimate_cost_usd. destruct (match_pricing name) as [mi mo]. simpl in Hi, Ho.
  apply fadd_mono; apply fmul_mono_l; try done; apply fdiv_mono_l; try done;
    by apply float_of_int_mono.
Qed.


Variable tiktoken : option Tiktoken.

(** *** What [_end_common] extracts *)

Lemma extract_reported_model call response :
  match or_str (x_model (extract tiktoken call response)) (Some "unknown") with
  | Some m => m
  | None => "unknown"
  end = reported_model response.
Proof.
  unfold extract, reported_model. cbv zeta. cbn [x_model].
  destruct (llm_output response) as [lo|]; cbn [lo_model_name empty_llm_output];
    (destruct (first_generation response) as [g|]; [destruct (message g) as [m|]|]);
    try destruct (response_metadata m) as [md|]; cbn [rm_model_name empty_metadata];
    try destruct (lo_model_name lo) as [[|]|];
    try destruct (rm_model_name md) as [[|]|]; reflexivity.
Qed.

Lemma reported_model_nonempty response : reported_model response ≠ "".
Proof.
  unfold reported_model.
  repeat match goal with
         | |- context [or_str ?a _] =>
             lazymatch a with
             | Some _ => fail
             | None => fail
             | or_str _ _ => fail
             | _ => destruct a as [[|]|]
             end
         end; done.
Qed.








End CostTheorems.

(** ** The theorems at concrete inputs *)

Section Witnesses.
Import Pydantic Agent Tooled Context Simple.

Lemma Sample_is_model_class : is_model_class Sample.
Proof.
  split.
  - unfold builtin_classes. rewrite !not_elem_of_cons.
    repeat split; try discriminate. apply not_elem_of_nil.
  - apply NoDup_singleton.
Defined.

Lemma missing_vs_validation_witness :
  is_model_class Sample
  ∧ ("n", required_int) ∈ model_fields Sample
  ∧ ∃ items item,
      _validate_with_model (H := no_syntax) "SampleAgent" (Some Sample) (VDict []) "config"
      = Raise (ValueError (VDict [("ok", VBool false); ("errors", VList items)]))
      ∧ item ∈ items
      ∧ item_code item = Some "config.missing"
      ∧ item_pointer item = Some "/n".
Proof.
  assert (Hin : ("n", required_int) ∈ model_fields Sample) by left.
  split; [exact Sample_is_model_class|]. split; [exact Hin|].
  destruct (missing_vs_validation (H := no_syntax) "SampleAgent" "config" Sample "n"
              required_int [] Sample_is_model_class Hin) as (_ & Hmissing & _).
  destruct (Hmissing eq_refl eq_refl) as (items & item & Hraise & _ & Hitem & Hcode & Hptr).
  by exists items, item.
Defined.

Lemma type_mismatch_propagates_witness :
  isinstance (VInt 5) (model_cls TooledConfig) = false
  ∧ VInt 5 ≠ VNone
  ∧ (∀ d, VInt 5 ≠ VDict d)
  ∧ ∃ msg,
      _validate_with_model (H := no_syntax) "TooledAgent" (Some TooledConfig) (VInt 5)
        "config" = Raise (TypeError msg)
      ∧ _lookup_with_model (H := no_syntax) "TooledAgent" (Some TooledConfig) (VInt 5)
          "config" = Raise (TypeError msg).
Proof.
  assert (H1 : isinstance (VInt 5) (model_cls TooledConfig) = false) by reflexivity.
  assert (H2 : VInt 5 ≠ VNone) by discriminate.
  assert (H3 : ∀ d, VInt 5 ≠ VDict d) by (intros d; discriminate).
  split; [exact H1|]. split; [exact H2|]. split; [exact H3|].
  destruct (type_mismatch_propagates (H := no_syntax) "TooledAgent" TooledConfig (VInt 5)
              Config H1 H2 H3) as [(msg & Hv & Hl & _) _].
  by exists msg.
Defined.



Lemma error_contributes_zero_witness :
  ∃ c c',
    calls (run_events None new_handler [LlmStart [] ["hola"] "r1" None 0]) !! "r1" = Some c
    ∧ finished (fst (on_llm_error
                       (run_events None new_handler [LlmStart [] ["hola"] "r1" None 0])
                       "boom" "r1" 2))
      = [c']
    ∧ total_tokens c' = 0%Z
    ∧ totals [c'] = totals [].
Proof.
  eassert (Hc : calls (run_events None new_handler [LlmStart [] ["hola"] "r1" None 0])
                  !! "r1" = Some _) by apply lookup_insert_eq.
  destruct (error_contributes_zero None [LlmStart [] ["hola"] "r1" None 0] "boom" "r1" 2
              _ Hc) as (c' & Hstep & _ & _ & _ & Htotal & _ & Htotals).
  eexists _, c'. split; [exact Hc|]. split; [by rewrite Hstep|]. by split.
Defined.

End Witnesses.

(* ===================================================================== *)
(** * Further properties                                                  *)
(* ===================================================================== *)

(** ** Validation and lookup *)

Section LookupFacts.
Import Pydantic Agent.
Context `{NumberSyntax}.
Variable class_name : string.

Lemma report_fields (w : Where) ok validated errors :
  report_get "ok" (report ok (where_name w) validated errors) = Some (VBool ok)
  ∧ report_get (where_name w) (report ok (where_name w) validated errors) = Some validated
  ∧ report_get "errors" (report ok (where_name w) validated errors) = Some errors
  ∧ report_get "schema" (report ok (where_name w) validated errors) = Some VNone.
Proof. by destruct w. Qed.

Lemma construct_outcome m kwargs :
  (∃ attrs, construct m kwargs = Ok (VObj (model_cls m :: model_bases m) attrs))
  ∨ (∃ e errs, construct m kwargs = Raise (ValidationError (e :: errs))).
Proof.
  unfold construct. destruct (validate_fields kwargs (model_fields m)) as [attrs [|e errs]].
  - left. by exists attrs.
  - right. by exists e, errs.
Qed.

Lemma validate_shape model payload where_ :
  outcome_shape class_name model payload where_
    (_validate_with_model class_name model payload where_).
Proof.
  destruct model as [m|]; unfold _validate_with_model.
  - destruct (isinstance payload (model_cls m)) eqn:Hinst; [by eapply shape_same|].
    destruct payload;
      try (eapply shape_type_error; [done | done | done | intros d; discriminate]).
    + destruct (construct_outcome m []) as [[attrs ->]|(e & errs & ->)].
      * eapply shape_built; eauto.
      * eapply shape_rejected; eauto.
    + destruct (construct_outcome m d) as [[attrs ->]|(e & errs & ->)].
      * eapply shape_built; eauto.
      * eapply shape_rejected; eauto.
  - destruct (in_blank payload) eqn:Hb; simpl.
    + by apply shape_none.
    + by apply shape_not_supported.
Qed.

Lemma lookup_report_of model payload where_ :
  _lookup_with_model class_name model payload where_
  = report_of where_ (_validate_with_model class_name model payload where_).
Proof.
  destruct model as [m|].
  - unfold _lookup_with_model.
    destruct (_validate_with_model class_name (Some m) payload where_) as [inst|e].
    + by destruct inst.
    + destruct e as [arg| | |]; simpl; try done. by destruct arg.
  - unfold _lookup_with_model, _validate_with_model.
    by destruct (in_blank payload).
Qed.

Lemma normalized_item_code where_ e :
  ∃ code, item_code (normalize_error where_ e) = Some code
          ∧ code ∈ report_codes where_
          ∧ code ≠ where_ +:+ ".error".
Proof.
  rewrite normalize_error_code. unfold report_codes.
  destruct (is_missing e); eexists; (split; [reflexivity|]); split.
  - right. left.
  - by apply append_suffix_neq.
  - right. right. left.
  - by apply append_suffix_neq.
Qed.

Lemma not_supported_item_code where_ :
  ∃ code, item_code (not_supported_item class_name where_) = Some code
          ∧ code ∈ report_codes where_
          ∧ code ≠ where_ +:+ ".error".
Proof.
  eexists. split; [reflexivity|]. split; [left | by apply append_suffix_neq].
Qed.

Lemma lookup_true_validated model payload (w : Where) r :
  _lookup_with_model class_name model payload (where_name w) = Ok r →
  report_get "ok" r = Some (VBool true) →
  ∃ inst, _validate_with_model class_name model payload (where_name w) = Ok inst.
Proof.
  rewrite lookup_report_of.
  destruct (_validate_with_model class_name model payload (where_name w)) as [inst|e];
    [by exists inst|].
  destruct e as [arg| | |]; simpl; try discriminate.
  - destruct arg; intros [= <-] Hok; by destruct w.
  - intros [= <-] Hok; by destruct w.
Qed.

Lemma lookup_false_rejected model payload (w : Where) r :
  _lookup_with_model class_name model payload (where_name w) = Ok r →
  report_get "ok" r = Some (VBool false) →
  ∃ items,
    _validate_with_model class_name model payload (where_name w)
    = Raise (ValueError (VDict [("ok", VBool false); ("errors", VList items)]))
    ∧ report_get "errors" r = Some (VList items).
Proof.
  rewrite lookup_report_of.
  destruct (validate_shape model payload (where_name w))
    as [Hm Hb|Hm Hb|m Hm Hi|m attrs Hm Hi Hp|m e errs Hm Hi Hp|m msg Hm Hi Hn Hd];
    simpl; try discriminate.
  - intros [= <-] Hok. by destruct w.
  - intros [= <-] _. eexists. split; [reflexivity | by destruct w].
  - destruct payload; simpl; try discriminate; intros [= <-] Hok; by destruct w.
  - intros [= <-] Hok. by destruct w.
  - intros [= <-] _. eexists. split; [reflexivity | by destruct w].
Qed.

Lemma validate_not_attribute_error model payload where_ msg :
  _validate_with_model class_name model payload where_ ≠ Raise (AttributeError msg).
Proof. by destruct (validate_shape model payload where_). Qed.

(** X1: every report of lookup has a null schema and is either ok=true
    with no errors, or ok=false with a null validated object and at
    least one error. *)
Theorem lookup_report_invariant (model : option ModelClass) (payload : Value)
    (w : Where) (r : Value) :
  _lookup_with_model class_name model payload (where_name w) = Ok r →
  report_get "schema" r = Some VNone
  ∧ ((report_get "ok" r = Some (VBool true) ∧ report_get "errors" r = Some (VList []))
     ∨ (report_get "ok" r = Some (VBool false)
        ∧ report_get (where_name w) r = Some VNone
        ∧ ∃ item items, report_get "errors" r = Some (VList (item :: items)))).
Proof.
  rewrite lookup_report_of.
  destruct (validate_shape model payload (where_name w))
    as [Hm Hb|Hm Hb|m Hm Hi|m attrs Hm Hi Hp|m e errs Hm Hi Hp|m msg Hm Hi Hn Hd];
    simpl.
  - intros [= <-]. pose proof (report_fields w true VNone (VList [])) as (?&?&?&?).
    split; [done|by left].
  - intros [= <-].
    pose proof (report_fields w false VNone
                  (VList [not_supported_item class_name (where_name w)])) as (?&?&?&?).
    split; [done|right]. eauto 10.
  - destruct payload; simpl; try discriminate.
    + intros [= <-]. pose proof (report_fields w true VNone (VList [])) as (?&?&?&?).
      split; [done|by left].
    + intros [= <-].
      match goal with
      | |- context [report true _ ?d _] =>
          pose proof (report_fields w true d (VList [])) as (?&?&?&?)
      end.
      split; [done|by left].
  - intros [= <-].
    match goal with
    | |- context [report true _ ?d _] =>
        pose proof (report_fields w true d (VList [])) as (?&?&?&?)
    end.
    split; [done|by left].
  - intros [= <-].
    match goal with
    | |- context [report false _ _ ?errs] =>
        pose proof (report_fields w false VNone errs) as (?&?&?&?)
    end.
    split; [done|right]. eauto 10.
  - discriminate.
Qed.

(** X2: when lookup reports ok=false, validation raised a report and the
    errors of lookup are the errors of that report; each of them has the
    code "<where>.not_supported", "<where>.missing" or
    "<where>.validation", and none is the fallback "<where>.error". *)
Theorem lookup_errors_from_validation (model : option ModelClass) (payload : Value)
    (w : Where) (r : Value) :
  _lookup_with_model class_name model payload (where_name w) = Ok r →
  report_get "ok" r = Some (VBool false) →
  ∃ items,
    _validate_with_model class_name model payload (where_name w)
    = Raise (ValueError (VDict [("ok", VBool false); ("errors", VList items)]))
    ∧ report_get "errors" r = Some (VList items)
    ∧ ∀ item, item ∈ items →
        ∃ code, item_code item = Some code
                ∧ code ∈ report_codes (where_name w)
                ∧ code ≠ where_name w +:+ ".error".
Proof.
  rewrite lookup_report_of.
  destruct (validate_shape model payload (where_name w))
    as [Hm Hb|Hm Hb|m Hm Hi|m attrs Hm Hi Hp|m e errs Hm Hi Hp|m msg Hm Hi Hn Hd];
    simpl.
  - intros [= <-] Hok. by destruct w.
  - intros [= <-] _. eexists. split; [reflexivity|]. split; [by destruct w|].
    intros item Hin. apply list_elem_of_singleton in Hin as ->.
    apply not_supported_item_code.
  - destruct payload; simpl; try discriminate; intros [= <-] Hok; by destruct w.
  - intros [= <-] Hok. by destruct w.
  - intros [= <-] _. eexists. split; [reflexivity|]. split; [by destruct w|].
    intros item Hin. apply elem_of_cons in Hin as [->|Hin].
    + apply normalized_item_code.
    + unfold _normalize_pydantic_errors in Hin.
      apply list_elem_of_fmap in Hin as (e' & -> & _). apply normalized_item_code.
  - discriminate.
Qed.

(** X3: validation never lets the schema library's [ValidationError]
    out: what it raises instead is a [ValueError] with a report, and
    such a report always holds at least one error.  With a declared
    model a [ValueError] is raised only for a payload that is [None] or a
    dict and no instance of the model; without one, only for a payload
    that is not blank, and validation then never raises [TypeError]. *)
Theorem validate_raises (model : option ModelClass) (payload : Value) (where_ : string) :
  (∀ errs, _validate_with_model class_name model payload where_
           ≠ Raise (ValidationError errs))
  ∧ (∀ arg, _validate_with_model class_name model payload where_
            = Raise (ValueError arg) →
            ∃ item items, arg = VDict [("ok", VBool false);
                                       ("errors", VList (item :: items))])
  ∧ (∀ m arg, model = Some m →
       _validate_with_model class_name model payload where_ = Raise (ValueError arg) →
       isinstance payload (model_cls m) = false
       ∧ (payload = VNone ∨ ∃ d, payload = VDict d))
  ∧ (model = None →
     (∀ arg, _validate_with_model class_name model payload where_
             = Raise (ValueError arg) → in_blank payload = false)
     ∧ ∀ msg, _validate_with_model class_name model payload where_
              ≠ Raise (TypeError msg)).
Proof.
  destruct (validate_shape model payload where_)
    as [Hm Hb|Hm Hb|m Hm Hi|m attrs Hm Hi Hp|m e errs Hm Hi Hp|m msg Hm Hi Hn Hd];
    subst model; (split; [done|]).
  - split; [done|]. split; [done|]. done.
  - split; [intros arg [= <-]; eauto|]. split; [done|]. done.
  - split; [done|]. split; [done|]. done.
  - split; [done|]. split; [done|]. done.
  - split; [intros arg [= <-]; eauto|]. split; [|done].
    intros m' arg [= <-] _. done.
  - split; [done|]. split; [done|]. done.
Qed.

End LookupFacts.

Section ResolveFacts.
Import Pydantic Agent.
Context `{NumberSyntax} {A : Type}.
Variable class_name : string.
Variables config_model deps_model : option ModelClass.
Variable _execute : string → Value → Value → Result A.

(** X4: the two lookups predict [resolve].  When both report ok=true,
    [resolve] runs [_execute] on the two validated objects; when the
    lookup of the configuration reports ok=false, [resolve] raises a
    report with the errors of that lookup, whatever the dependencies are;
    when only the lookup of the dependencies reports ok=false, [resolve]
    raises a report with its errors. *)
Theorem resolve_after_lookup (instruction : string) (cfg deps : Value) (r1 : Value) :
  lookup_config class_name config_model cfg = Ok r1 →
  (report_get "ok" r1 = Some (VBool false) →
   ∃ items,
     report_get "errors" r1 = Some (VList items)
     ∧ resolve class_name config_model deps_model _execute instruction cfg deps
       = Raise (ValueError (VDict [("ok", VBool false); ("errors", VList items)])))
  ∧ (report_get "ok" r1 = Some (VBool true) →
     ∀ r2, lookup_deps class_name deps_model deps = Ok r2 →
       (report_get "ok" r2 = Some (VBool false) →
        ∃ items,
          report_get "errors" r2 = Some (VList items)
          ∧ resolve class_name config_model deps_model _execute instruction cfg deps
            = Raise (ValueError (VDict [("ok", VBool false); ("errors", VList items)])))
       ∧ (report_get "ok" r2 = Some (VBool true) →
          ∃ cfg_valid deps_valid,
            _validate_with_model class_name config_model cfg "config" = Ok cfg_valid
            ∧ _validate_with_model class_name deps_model deps "deps" = Ok deps_valid
            ∧ resolve class_name config_model deps_model _execute instruction cfg deps
              = _execute instruction cfg_valid deps_valid)).
Proof.
  unfold lookup_config, lookup_deps. intros Hl1. split.
  - intros Hok. destruct (lookup_false_rejected _ _ _ Config _ Hl1 Hok) as (items & Hv & He).
    exists items. split; [done|]. unfold resolve. simpl in Hv. by rewrite Hv.
  - intros Hok r2 Hl2.
    destruct (lookup_true_validated _ _ _ Config _ Hl1 Hok) as [cfg_valid Hv1].
    simpl in Hv1. split.
    + intros Hok2.
      destruct (lookup_false_rejected _ _ _ Deps _ Hl2 Hok2) as (items & Hv & He).
      exists items. split; [done|]. unfold resolve. simpl in Hv. by rewrite Hv1, Hv.
    + intros Hok2.
      destruct (lookup_true_validated _ _ _ Deps _ Hl2 Hok2) as [deps_valid Hv2].
      simpl in Hv2. exists cfg_valid, deps_valid. unfold resolve. by rewrite Hv1, Hv2.
Qed.

End ResolveFacts.

(** ** The declared models of agents/tooled.py *)

Section TooledFacts.
Import Pydantic Agent.
Context `{NumberSyntax}.

Lemma validate_fields_built kwargs fields attrs :
  validate_fields kwargs fields = (attrs, []) →
  Forall2 (fun nf a => validate_field kwargs (fst nf) (snd nf) = inl a) fields attrs.
Proof.
  revert attrs. induction fields as [|[fname fi] fields IH]; intros attrs; simpl.
  - intros [= <-]. constructor.
  - destruct (validate_fields kwargs fields) as [attrs' errs'].
    destruct (validate_field kwargs fname fi) as [a|e] eqn:Hv; [|done].
    intros [= <- ->]. constructor; [done | by apply IH].
Qed.

Lemma construct_built m kwargs inst :
  construct m kwargs = Ok inst →
  ∃ attrs,
    inst = VObj (model_cls m :: model_bases m) attrs
    ∧ Forall2 (fun nf a => validate_field kwargs (fst nf) (snd nf) = inl a)
        (model_fields m) attrs.
Proof.
  unfold construct.
  destruct (validate_fields kwargs (model_fields m)) as [attrs [|e errs]] eqn:Hv; [|done].
  intros [= <-]. exists attrs. split; [done | by apply validate_fields_built].
Qed.

(** An attribute of a built instance is the default of an omitted field
    or the validated form of a supplied value. *)
Lemma validate_field_built kwargs fname fi a :
  validate_field kwargs fname fi = inl a →
  fst a = fname
  ∧ ((dict_get fname kwargs = None ∧ default fi = Some (snd a))
     ∨ (∃ v, dict_get fname kwargs = Some v ∧ validate_value fi v = inl (snd a))).
Proof.
  unfold validate_field. destruct (dict_get fname kwargs) as [v|].
  - destruct (validate_value fi v) as [v'|f] eqn:Hv; [|done].
    intros [= <-]. split; [done|right]. by exists v.
  - destruct (default fi) as [d|] eqn:Hd; [|done].
    intros [= <-]. split; [done | by left].
Qed.

Lemma instance_checked c v v' :
  validate_instance c v = inl v' → v' = v ∧ isinstance v c = true.
Proof. unfold validate_instance. by destruct (isinstance v c); intros [= <-]. Qed.

Lemma tooled_deps_built kwargs inst :
  construct Tooled.TooledDeps kwargs = Ok inst →
  ∃ memory rag,
    inst = VObj [Tooled.cls_TooledDeps; cls_BaseModel; cls_object]
             [("memory", memory); ("rag", rag)]
    ∧ ((dict_get "rag" kwargs = None ∧ rag = VNone)
       ∨ (dict_get "rag" kwargs = Some rag
          ∧ isinstance rag Tooled.cls_RAGExpander = true)).
Proof.
  intros Hc. apply construct_built in Hc as (attrs & -> & Hall). simpl in Hall.
  apply Forall2_cons_inv_l in Hall as ([k1 memory] & attrs1 & Hm & Hall & ->).
  apply Forall2_cons_inv_l in Hall as ([k2 rag] & attrs2 & Hr & Hall & ->).
  apply Forall2_nil_inv_l in Hall as ->.
  apply validate_field_built in Hm as [Hk1 _], Hr as [Hk2 Hrag]. simpl in *. subst.
  exists memory, rag. split; [done|].
  destruct Hrag as [[Hnone [= <-]]|(v & Hsome & Hv)]; [by left|right].
  unfold validate_value, validate_base in Hv. simpl in Hv.
  assert (Hi : validate_instance Tooled.cls_RAGExpander v = inl rag) by (by destruct v).
  by apply instance_checked in Hi as [-> Hi].
Qed.

(** X5: [TooledAgent.resolve] prints the [rag] of the validated
    dependencies and returns "verde", whatever the instruction and the
    configuration: for dependencies given as a dict it prints the very
    [rag] of the dict, which then is an instance of [RAGExpander], and
    [None] when the dict has none or the dependencies are [None].  It
    returns exactly when both validations succeed, raises what the first
    failing validation raises, and never raises [AttributeError].  (A
    dict given for [memory] is left out: the library would build the
    nested model from it.) *)
Theorem tooled_resolve (instruction : string) (cfg deps : Value) :
  (deps = VNone
   ∨ ∃ d, deps = VDict d ∧ ∀ d', dict_get "memory" d ≠ Some (VDict d')) →
  (∀ cfg_valid deps_valid,
     _validate_with_model "TooledAgent" (Some Tooled.TooledConfig) cfg "config"
       = Ok cfg_valid →
     _validate_with_model "TooledAgent" (Some Tooled.TooledDeps) deps "deps"
       = Ok deps_valid →
     Tooled.resolve instruction cfg deps = Ok ([getattr deps_valid "rag"], "verde"))
  ∧ (∀ out, Tooled.resolve instruction cfg deps = Ok out →
       ∃ cfg_valid deps_valid,
         _validate_with_model "TooledAgent" (Some Tooled.TooledConfig) cfg "config"
           = Ok cfg_valid
         ∧ _validate_with_model "TooledAgent" (Some Tooled.TooledDeps) deps "deps"
           = Ok deps_valid
         ∧ out = ([getattr deps_valid "rag"], "verde"))
  ∧ (∀ d v out, deps = VDict d → dict_get "rag" d = Some v →
       Tooled.resolve instruction cfg deps = Ok out →
       out = ([v], "verde") ∧ isinstance v Tooled.cls_RAGExpander = true)
  ∧ (∀ out, (deps = VNone ∨ ∃ d, deps = VDict d ∧ dict_get "rag" d = None) →
       Tooled.resolve instruction cfg deps = Ok out → out = ([VNone], "verde"))
  ∧ (∀ e, _validate_with_model "TooledAgent" (Some Tooled.TooledConfig) cfg "config"
            = Raise e →
          Tooled.resolve instruction cfg deps = Raise e)
  ∧ (∀ cfg_valid e,
       _validate_with_model "TooledAgent" (Some Tooled.TooledConfig) cfg "config"
         = Ok cfg_valid →
       _validate_with_model "TooledAgent" (Some Tooled.TooledDeps) deps "deps"
         = Raise e →
       Tooled.resolve instruction cfg deps = Raise e)
  ∧ (∀ msg, Tooled.resolve instruction cfg deps ≠ Raise (AttributeError msg)).
Proof.
  intros Hdeps.
  assert (Hd : ∀ deps_valid,
             _validate_with_model "TooledAgent" (Some Tooled.TooledDeps) deps "deps"
               = Ok deps_valid →
             ∃ kwargs memory rag,
               (deps = VNone ∧ kwargs = [] ∨ deps = VDict kwargs)
               ∧ deps_valid = VObj [Tooled.cls_TooledDeps; cls_BaseModel; cls_object]
                                [("memory", memory); ("rag", rag)]
               ∧ ((dict_get "rag" kwargs = None ∧ rag = VNone)
                  ∨ (dict_get "rag" kwargs = Some rag
                     ∧ isinstance rag Tooled.cls_RAGExpander = true))).
  { intros deps_valid Hv.
    assert (Hc : ∃ kwargs, (deps = VNone ∧ kwargs = [] ∨ deps = VDict kwargs)
                           ∧ construct Tooled.TooledDeps kwargs = Ok deps_valid).
    { destruct Hdeps as [->|(d & -> & _)]; unfold _validate_with_model in Hv; simpl in Hv.
      - exists []. split; [by left|]. by apply (wrap_construct_Ok _ _ "deps").
      - exists d. split; [by right|]. by apply (wrap_construct_Ok _ _ "deps"). }
    destruct Hc as (kwargs & Hk & Hc).
    apply tooled_deps_built in Hc as (memory & rag & -> & Hrag).
    by exists kwargs, memory, rag. }
  assert (Hex : ∀ c memory rag,
            Tooled._execute instruction c
              (VObj [Tooled.cls_TooledDeps; cls_BaseModel; cls_object]
                 [("memory", memory); ("rag", rag)]) = Ok ([rag], "verde")) by done.
  unfold Tooled.resolve, resolve.
  destruct (_validate_with_model "TooledAgent" (Some Tooled.TooledConfig) cfg "config")
    as [cfg_valid|e] eqn:Hv1.
  - destruct (_validate_with_model "TooledAgent" (Some Tooled.TooledDeps) deps "deps")
      as [deps_valid|e] eqn:Hv2.
    + destruct (Hd _ eq_refl) as (kwargs & memory & rag & Hk & -> & Hrag).
      rewrite Hex.
      split; [by intros ? ? [= <-] [= <-]|].
      split; [intros out [= <-]; by eexists _, _|].
      split; [|split; [|split; [done|split; [done|done]]]].
      * intros d v out -> Hget [= <-].
        destruct Hk as [[? _]|[= <-]]; [done|].
        destruct Hrag as [[Hnone _]|[Hsome Hi]]; [congruence|].
        assert (rag = v) as -> by congruence. done.
      * intros out Hcase [= <-]. f_equal. f_equal.
        destruct Hrag as [[_ ->]|[Hsome _]]; [done|].
        destruct Hk as [[Hd1 Hd2]|Hd1]; [by subst|]. subst deps.
        destruct Hcase as [?|(d & Hd1 & Hnone)]; [done|].
        injection Hd1 as <-. congruence.
    + split; [done|]. split; [done|]. split; [done|]. split; [done|]. split; [done|].
      split; [by intros ? ? [= <-] [= <-]|].
      intros msg [= ->].
      by apply (validate_not_attribute_error "TooledAgent" (Some Tooled.TooledDeps)
                  deps "deps" msg).
  - split; [done|]. split; [done|]. split; [done|]. split; [done|].
    split; [by intros ? [= <-]|]. split; [done|].
    intros msg [= ->].
    by apply (validate_not_attribute_error "TooledAgent" (Some Tooled.TooledConfig)
                cfg "config" msg).
Qed.

Lemma float_validated v v' : validate_float v = inl v' → ∃ q, v' = VFloat q.
Proof.
  unfold validate_float. destruct v; try discriminate; try (intros [= <-]; eauto).
  destruct (parse_float s); [intros [= <-]; eauto | discriminate].
Qed.

Lemma int_validated v v' : validate_int v = inl v' → ∃ z, v' = VInt z.
Proof.
  unfold validate_int. destruct v; try discriminate; try (intros [= <-]; eauto).
  - destruct (is_integral q); [intros [= <-]; eauto | discriminate].
  - destruct (parse_int s); [intros [= <-]; eauto | discriminate].
Qed.

(** A number that passes the bounds check lies within the declared
    numeric bounds. *)
Lemma bounds_checked fi v v' x :
  check_bounds fi v = inl v' → number_of v = Some x →
  v' = v
  ∧ (∀ bv b, bound_of (le fi) = Some (bv, b) → (x <= b)%Q)
  ∧ (∀ bv a, bound_of (ge fi) = Some (bv, a) → (a <= x)%Q).
Proof.
  unfold check_bounds, check_ge. intros Hc Hx. rewrite Hx in Hc.
  destruct (bound_of (le fi)) as [[bv b]|]; destruct (bound_of (ge fi)) as [[av a]|];
    repeat match type of Hc with
           | context [Qle_bool ?p ?q] => destruct (Qle_bool p q) eqn:?
           end;
    try discriminate Hc; injection Hc as <-;
    repeat split; try done; intros ? ? [= <- <-]; by apply Qle_bool_iff.
Qed.

Lemma float_field_validated fi v a :
  base fi = BFloat → nullable fi = false → validate_value fi v = inl a →
  ∃ q, a = VFloat q
       ∧ (∀ bv b, bound_of (le fi) = Some (bv, b) → (q <= b)%Q)
       ∧ (∀ bv b, bound_of (ge fi) = Some (bv, b) → (b <= q)%Q).
Proof.
  intros Hb Hn Hv.
  assert (Hbase : validate_base fi v = inl a).
  { unfold validate_value in Hv. rewrite Hn in Hv. by destruct v. }
  unfold validate_base in Hbase. rewrite Hb in Hbase.
  destruct (validate_float v) as [v'|f] eqn:Hfl; [|done].
  destruct (float_validated _ _ Hfl) as [q ->].
  destruct (bounds_checked _ _ _ q Hbase eq_refl) as (-> & Hle & Hge).
  by exists q.
Qed.

Lemma int_field_validated fi v a :
  base fi = BInt → nullable fi = false → validate_value fi v = inl a →
  ∃ z, a = VInt z
       ∧ (∀ bv b, bound_of (le fi) = Some (bv, b) → (inject_Z z <= b)%Q)
       ∧ (∀ bv b, bound_of (ge fi) = Some (bv, b) → (b <= inject_Z z)%Q).
Proof.
  intros Hb Hn Hv.
  assert (Hbase : validate_base fi v = inl a).
  { unfold validate_value in Hv. rewrite Hn in Hv. by destruct v. }
  unfold validate_base in Hbase. rewrite Hb in Hbase.
  destruct (validate_int v) as [v'|f] eqn:Hfl; [|done].
  destruct (int_validated _ _ Hfl) as [z ->].
  destruct (bounds_checked _ _ _ (inject_Z z) Hbase eq_refl) as (-> & Hle & Hge).
  by exists z.
Qed.

(** X6: every configuration that validation builds from a dict or from
    [None] against [TooledConfig] has a float temperature between 0 and 2
    and an integer max_tokens between 1 and 8192. *)
Theorem tooled_config_in_range (class_name : string) (payload inst : Value) :
  (payload = VNone ∨ ∃ d, payload = VDict d) →
  _validate_with_model class_name (Some Tooled.TooledConfig) payload "config" = Ok inst →
  ∃ t n,
    getattr inst "temperature" = VFloat t ∧ (0 <= t)%Q ∧ (t <= 2)%Q
    ∧ getattr inst "max_tokens" = VInt n ∧ (1 ≤ n)%Z ∧ (n ≤ 8192)%Z.
Proof.
  intros Hp Hv.
  assert (Hc : ∃ kwargs, construct Tooled.TooledConfig kwargs = Ok inst).
  { destruct Hp as [->|[d ->]]; unfold _validate_with_model in Hv; simpl in Hv.
    - exists []. by apply (wrap_construct_Ok _ _ "config").
    - exists d. by apply (wrap_construct_Ok _ _ "config"). }
  destruct Hc as [kwargs Hc].
  apply construct_built in Hc as (attrs & -> & Hall). simpl in Hall.
  apply Forall2_cons_inv_l in Hall as ([k1 a1] & attrs1 & H1 & Hall & ->).
  apply Forall2_cons_inv_l in Hall as ([k2 a2] & attrs2 & H2 & Hall & ->).
  apply Forall2_cons_inv_l in Hall as ([k3 a3] & attrs3 & H3 & Hall & ->).
  apply validate_field_built in H1 as [Hk1 _], H2 as [Hk2 Ht], H3 as [Hk3 Hn].
  simpl in *. subst k1 k2 k3.
  assert (Htemp : ∃ t, a2 = VFloat t ∧ (0 <= t)%Q ∧ (t <= 2)%Q).
  { destruct Ht as [[_ [= <-]]|(v & _ & Hval)]; [by exists 0%Q|].
    apply float_field_validated in Hval as (q & -> & Hle & Hge); [|done|done].
    exists q. split; [done|]. split; [by eapply Hge | by eapply Hle]. }
  assert (Hmax : ∃ n, a3 = VInt n ∧ (1 ≤ n)%Z ∧ (n ≤ 8192)%Z).
  { destruct Hn as [[_ [= <-]]|(v & _ & Hval)]; [by exists 256%Z|].
    apply int_field_validated in Hval as (z & -> & Hle & Hge); [|done|done].
    exists z. split; [done|].
    specialize (Hle _ _ eq_refl). specialize (Hge _ _ eq_refl).
    rewrite <- Zle_Qle in Hle, Hge. done. }
  destruct Htemp as (t & -> & Ht0 & Ht2), Hmax as (n & -> & Hn1 & Hn2).
  by exists t, n.
Qed.

Lemma validate_fields_errors kwargs fields e :
  e ∈ snd (validate_fields kwargs fields) →
  ∃ fname fi, (fname, fi) ∈ fields ∧ validate_field kwargs fname fi = inr e.
Proof.
  induction fields as [|[fname fi] fields IH]; simpl.
  - intros Hin. by apply elem_of_nil in Hin.
  - destruct (validate_fields kwargs fields) as [attrs errs].
    destruct (validate_field kwargs fname fi) as [a|e'] eqn:Hv; simpl.
    + intros Hin. destruct (IH Hin) as (n & f & Hnf & Hvf).
      exists n, f. split; [by right | done].
    + intros Hin. apply elem_of_cons in Hin as [->|Hin].
      * exists fname, fi. split; [left | done].
      * destruct (IH Hin) as (n & f & Hnf & Hvf). exists n, f. split; [by right | done].
Qed.

Lemma defaults_build fields :
  Forall (fun nf => default (snd nf) ≠ None) fields →
  snd (validate_fields [] fields) = [].
Proof.
  induction 1 as [|[fname fi] fields Hd Hall IH]; simpl; [done|].
  destruct (validate_fields [] fields) as [attrs errs]. simpl in *. subst errs.
  unfold validate_field. simpl. by destruct (default fi).
Qed.

(** X7: for a model whose fields all have defaults, as [TooledConfig]
    and [TooledDeps] are, validating [None] or [{}] always succeeds, and
    no dict payload ever yields a "<where>.missing" error: every error is
    a "<where>.validation" error. *)
Theorem defaults_never_missing (class_name : string) (m : ModelClass) (where_ : string) :
  Forall (fun nf => default (snd nf) ≠ None) (model_fields m) →
  (∃ inst, _validate_with_model class_name (Some m) VNone where_ = Ok inst)
  ∧ (∃ inst, _validate_with_model class_name (Some m) (VDict []) where_ = Ok inst)
  ∧ (∀ kwargs items,
       _validate_with_model class_name (Some m) (VDict kwargs) where_
       = Raise (ValueError (VDict [("ok", VBool false); ("errors", VList items)])) →
       ∀ item, item ∈ items → item_code item = Some (where_ +:+ ".validation")).
Proof.
  intros Hall.
  assert (Hc : ∃ inst, construct m [] = Ok inst).
  { unfold construct. pose proof (defaults_build _ Hall) as He.
    destruct (validate_fields [] (model_fields m)) as [attrs errs]. simpl in He.
    subst errs. eauto. }
  destruct Hc as [inst Hc]. unfold _validate_with_model.
  split; [|split].
  - destruct (isinstance VNone (model_cls m)); [eauto|]. rewrite Hc. eauto.
  - destruct (isinstance (VDict []) (model_cls m)); [eauto|]. rewrite Hc. eauto.
  - intros kwargs items.
    destruct (isinstance (VDict kwargs) (model_cls m)); [done|].
    unfold construct.
    destruct (validate_fields kwargs (model_fields m)) as [attrs [|e errs]] eqn:Hv; [done|].
    intros [= <-] item Hin.
    change (item ∈ map (normalize_error where_) (e :: errs)) in Hin.
    apply list_elem_of_fmap in Hin as (e' & -> & Hin).
    assert (He : e' ∈ snd (validate_fields kwargs (model_fields m))) by (by rewrite Hv).
    apply validate_fields_errors in He as (fname & fi & Hnf & Hvf).
    unfold validate_field in Hvf.
    destruct (dict_get fname kwargs) as [v|].
    + destruct (validate_value fi v) as [v'|f] eqn:Hval; [done|].
      injection Hvf as <-. by apply (rejected_value_item where_ fi v f fname).
    + rewrite Forall_forall in Hall. specialize (Hall _ Hnf). simpl in Hall.
      by destruct (default fi).
Qed.

Lemma dump_keys (attrs : list (string * Value)) :
  dict_keys (map (fun kv => (fst kv, Pydantic.dump (snd kv))) attrs) = dict_keys attrs.
Proof. unfold dict_keys. induction attrs as [|[k v] attrs IH]; simpl; congruence. Qed.

Lemma built_keys kwargs fields attrs :
  Forall2 (fun nf a => validate_field kwargs (fst nf) (snd nf) = inl a) fields attrs →
  dict_keys attrs = map fst fields.
Proof.
  unfold dict_keys. induction 1 as [|nf a fields attrs Hv Hall IH]; simpl; [done|].
  apply validate_field_built in Hv as [-> _]. congruence.
Qed.

(** X8: when lookup of a dict or of [None] against a model reports
    ok=true, the validated object of the report is a dict whose keys are
    the declared fields of the model, in declaration order. *)
Theorem lookup_validated_keys (class_name : string) (m : ModelClass) (payload : Value)
    (w : Where) (r : Value) :
  is_model_class m →
  (payload = VNone ∨ ∃ d, payload = VDict d) →
  _lookup_with_model class_name (Some m) payload (where_name w) = Ok r →
  report_get "ok" r = Some (VBool true) →
  ∃ d, report_get (where_name w) r = Some (VDict d)
       ∧ dict_keys d = map fst (model_fields m).
Proof.
  intros Hm Hp Hl Hok.
  assert (Hc : ∃ kwargs inst,
             construct m kwargs = Ok inst
             ∧ _validate_with_model class_name (Some m) payload (where_name w) = Ok inst).
  { destruct (lookup_true_validated _ _ _ _ _ Hl Hok) as [inst Hv].
    pose proof Hv as Hv'. unfold _validate_with_model in Hv'.
    destruct Hp as [->|[d ->]].
    - rewrite (model_rejects_None _ Hm) in Hv'. exists [], inst.
      split; [by apply (wrap_construct_Ok _ _ (where_name w)) | done].
    - rewrite (model_rejects_dict _ _ Hm) in Hv'. exists d, inst.
      split; [by apply (wrap_construct_Ok _ _ (where_name w)) | done]. }
  destruct Hc as (kwargs & inst & Hc & Hv).
  apply construct_built in Hc as (attrs & -> & Hall).
  rewrite lookup_report_of, Hv in Hl. simpl in Hl. injection Hl as <-.
  eexists. split; [by destruct w|].
  rewrite dump_keys. by eapply built_keys.
Qed.

End TooledFacts.

(** ** Tools of an agent *)

Section ToolFacts.
Import Pydantic LibAgent.

Lemma mem_str_spec x l : mem_str x l = true ↔ x ∈ l.
Proof.
  unfold mem_str. rewrite existsb_exists. split.
  - intros (y & Hin & Heq). apply String.eqb_eq in Heq as ->. by apply list_elem_of_In.
  - intros Hin. exists x. split; [by apply list_elem_of_In | apply String.eqb_refl].
Qed.

Lemma mem_str_keys {V} k (d : list (string * V)) : mem_str k (dict_keys d) = dict_mem k d.
Proof.
  unfold dict_mem, dict_keys. induction d as [|[k' v] d IH]; simpl; [done|].
  destruct (String.eqb k k'); [done | exact IH].
Qed.

Lemma dict_keys_set_eq {V} k (v : V) d :
  dict_keys (dict_set k v d)
  = if dict_mem k d then dict_keys d else (dict_keys d ++ [k])%list.
Proof.
  unfold dict_mem, dict_keys. induction d as [|[k' v'] d IH]; simpl; [done|].
  destruct (String.eqb_spec k k') as [->|Hne]; simpl; [done|].
  rewrite IH. by destruct (dict_get k d).
Qed.

Lemma ins_left_keys by_ t :
  dict_keys (ins_left by_ t)
  = if mem_str (name t) (dict_keys by_) then dict_keys by_
    else (dict_keys by_ ++ [name t])%list.
Proof. unfold ins_left. by rewrite dict_keys_set_eq, mem_str_keys. Qed.

Lemma ins_right_keys by_ t :
  dict_keys (ins_right by_ t)
  = if mem_str (name t) (dict_keys by_) then dict_keys by_
    else (dict_keys by_ ++ [name t])%list.
Proof.
  unfold ins_right. rewrite mem_str_keys.
  destruct (dict_mem (name t) by_) eqn:Hm; simpl; [done|].
  by rewrite dict_keys_set_eq, Hm.
Qed.

Lemma unseen_ext seen1 seen2 l :
  (∀ x, mem_str x seen1 = mem_str x seen2) → unseen seen1 l = unseen seen2 l.
Proof.
  revert seen1 seen2. induction l as [|x l IH]; intros seen1 seen2 Hext; simpl; [done|].
  rewrite <- (Hext x). destruct (mem_str x seen1); [by apply IH|].
  f_equal. apply IH. intros y. simpl. by rewrite Hext.
Qed.

Lemma mem_str_snoc x y seen : mem_str x (seen ++ [y]) = mem_str x (y :: seen).
Proof.
  unfold mem_str. rewrite existsb_app. simpl.
  destruct (String.eqb x y), (existsb (String.eqb x) seen); done.
Qed.

Lemma fold_keys_unseen (step : list (string * BaseTool) → BaseTool → list (string * BaseTool))
    l by_ :
  (∀ b t, dict_keys (step b t)
          = if mem_str (name t) (dict_keys b) then dict_keys b
            else (dict_keys b ++ [name t])%list) →
  dict_keys (fold_left step l by_)
  = (dict_keys by_ ++ unseen (dict_keys by_) (map name l))%list.
Proof.
  intros Hstep. revert by_. induction l as [|t l IH]; intros by_; simpl.
  - by rewrite app_nil_r.
  - rewrite IH, Hstep.
    destruct (mem_str (name t) (dict_keys by_)) eqn:Hm; [done|].
    rewrite <- app_assoc. simpl. do 2 f_equal.
    apply unseen_ext. intros x. apply mem_str_snoc.
Qed.

Lemma unseen_app seen l1 l2 :
  unseen seen (l1 ++ l2) = (unseen seen l1 ++ unseen (seen ++ unseen seen l1) l2)%list.
Proof.
  revert seen. induction l1 as [|x l1 IH]; intros seen; simpl.
  - by rewrite app_nil_r.
  - destruct (mem_str x seen) eqn:Hm; [apply IH|].
    simpl. f_equal. rewrite IH. f_equal. apply unseen_ext. intros y.
    unfold mem_str. rewrite !existsb_app. simpl.
    destruct (String.eqb y x), (existsb (String.eqb y) seen); done.
Qed.

Lemma merged_names l r :
  map name (_merge_tools l r) = first_occurrences (map name l ++ map name r).
Proof.
  rewrite merge_unfold.
  assert (Hk : keyed (fold_left ins_right r (fold_left ins_left l []))).
  { apply keyed_fold_right, keyed_fold_left, keyed_nil. }
  rewrite (keyed_values_names _ Hk).
  rewrite (fold_keys_unseen ins_right r _ ins_right_keys).
  rewrite (fold_keys_unseen ins_left l [] ins_left_keys). simpl.
  unfold first_occurrences. by rewrite unseen_app.
Qed.

Lemma unseen_elem x seen l : x ∈ unseen seen l ↔ x ∈ l ∧ x ∉ seen.
Proof.
  revert seen. induction l as [|y l IH]; intros seen; simpl.
  - split; [intros Hin; by apply elem_of_nil in Hin | intros [Hin _]; by apply elem_of_nil in Hin].
  - destruct (mem_str y seen) eqn:Hm.
    + apply mem_str_spec in Hm. rewrite IH, elem_of_cons. split; [tauto|].
      intros [[->|Hin] Hn]; [done | tauto].
    + assert (Hy : y ∉ seen) by (intros Hin; apply mem_str_spec in Hin; congruence).
      rewrite !elem_of_cons, IH, not_elem_of_cons. split.
      * intros [->|(Hin & Hne & Hn)]; [by split; [left|] | by split; [right|]].
      * intros [[->|Hin] Hn]; [by left|].
        destruct (decide (x = y)) as [->|Hne]; [by left | by right].
Qed.

Lemma merged_name_elem n l r :
  n ∈ map name (_merge_tools l r) ↔ n ∈ map name l ∨ n ∈ map name r.
Proof.
  rewrite merged_names. unfold first_occurrences. rewrite unseen_elem, elem_of_app.
  split; [tauto|]. intros Hin. split; [done | apply not_elem_of_nil].
Qed.

(** X9: the names of the merged tools are the names of the dependency
    tools followed by the names of the explicit tools, each kept where it
    first occurs; so the merge is never longer than the two lists
    together. *)
Theorem merge_tools_order (deps_tools ext_tools : list BaseTool) :
  map name (_merge_tools deps_tools ext_tools)
  = first_occurrences (map name deps_tools ++ map name ext_tools)
  ∧ (length (_merge_tools deps_tools ext_tools)
     ≤ length deps_tools + length ext_tools)%nat.
Proof.
  pose proof (merged_names deps_tools ext_tools) as Hn. split; [exact Hn|].
  assert (Hlen : ∀ seen l, (length (unseen seen l) ≤ length l)%nat).
  { intros seen l. revert seen. induction l as [|x l IH]; intros seen; simpl; [done|].
    destruct (mem_str x seen); simpl; [specialize (IH seen) | specialize (IH (x :: seen))];
      lia. }
  rewrite <- (length_map name (_merge_tools deps_tools ext_tools)), Hn.
  unfold first_occurrences.
  etransitivity; [apply Hlen|]. by rewrite length_app, !length_map.
Qed.

Lemma dict_set_fresh {V} k (v : V) d :
  dict_get k d = None → dict_set k v d = (d ++ [(k, v)])%list.
Proof.
  induction d as [|[k' v'] d IH]; simpl; [done|].
  destruct (String.eqb k k'); [done|]. intros Hg. by rewrite IH.
Qed.

Lemma fold_fresh (step : list (string * BaseTool) → BaseTool → list (string * BaseTool))
    l by_ :
  (∀ b t, dict_get (name t) b = None → step b t = dict_set (name t) t b) →
  NoDup (map name l) →
  (∀ t, t ∈ l → dict_get (name t) by_ = None) →
  fold_left step l by_ = (by_ ++ map (fun t => (name t, t)) l)%list.
Proof.
  intros Hstep. revert by_. induction l as [|t l IH]; intros by_ Hnd Hfresh; simpl.
  - by rewrite app_nil_r.
  - simpl in Hnd. apply NoDup_cons in Hnd as [Hnotin Hnd].
    rewrite Hstep by (apply Hfresh; left).
    rewrite dict_set_fresh by (apply Hfresh; left).
    rewrite IH; [by rewrite <- app_assoc | done |].
    intros t' Hin. apply dict_get_None. unfold dict_keys. rewrite map_app. simpl.
    rewrite elem_of_app, list_elem_of_singleton. intros [Hk|Heq].
    + assert (Hg : dict_get (name t') by_ = None) by (apply Hfresh; by right).
      by apply dict_get_None in Hg.
    + apply Hnotin. rewrite <- Heq. by apply (list_elem_of_fmap_2 name) in Hin.
Qed.

Lemma ins_right_fresh b t :
  dict_get (name t) b = None → ins_right b t = dict_set (name t) t b.
Proof. intros Hg. unfold ins_right, dict_mem. by rewrite Hg. Qed.

Lemma values_of_named (l : list BaseTool) :
  dict_values (map (fun t => (name t, t)) l) = l.
Proof. unfold dict_values. induction l as [|t l IH]; simpl; congruence. Qed.

Lemma merge_left_distinct l : NoDup (map name l) → _merge_tools l [] = l.
Proof.
  intros Hnd. rewrite merge_unfold. simpl.
  rewrite (fold_fresh ins_left l [] (fun b t _ => eq_refl) Hnd) by done.
  apply values_of_named.
Qed.

Lemma merge_right_distinct r : NoDup (map name r) → _merge_tools [] r = r.
Proof.
  intros Hnd. rewrite merge_unfold. simpl.
  rewrite (fold_fresh ins_right r [] ins_right_fresh Hnd) by done.
  apply values_of_named.
Qed.

Lemma merged_names_NoDup l r : NoDup (map name (_merge_tools l r)).
Proof.
  rewrite merge_unfold.
  assert (Hk : keyed (fold_left ins_right r (fold_left ins_left l []))).
  { apply keyed_fold_right, keyed_fold_left, keyed_nil. }
  rewrite (keyed_values_names _ Hk). apply Hk.
Qed.

(** X10: merging is idempotent: merging the result of a merge with
    nothing, on either side, gives it back; and a list of tools with
    pairwise distinct names is left as it is by a merge with the empty
    list, on either side. *)
Theorem merge_tools_idempotent (deps_tools ext_tools : list BaseTool) :
  _merge_tools (_merge_tools deps_tools ext_tools) []
  = _merge_tools deps_tools ext_tools
  ∧ _merge_tools [] (_merge_tools deps_tools ext_tools)
    = _merge_tools deps_tools ext_tools
  ∧ (NoDup (map name deps_tools) → _merge_tools deps_tools [] = deps_tools)
  ∧ (NoDup (map name ext_tools) → _merge_tools [] ext_tools = ext_tools).
Proof.
  pose proof (merged_names_NoDup deps_tools ext_tools) as Hnd.
  split; [by apply merge_left_distinct|].
  split; [by apply merge_right_distinct|].
  split; [apply merge_left_distinct | apply merge_right_distinct].
Qed.

Lemma first_named_Some_elem n l t : first_named n l = Some t → t ∈ l ∧ name t = n.
Proof.
  unfold first_named. intros Hf. apply find_some in Hf as [Hin Heq].
  split; [by apply list_elem_of_In | by apply String.eqb_eq].
Qed.

Lemma last_named_Some_elem n l t : last_named n l = Some t → t ∈ l ∧ name t = n.
Proof.
  induction l as [|t' l IH]; simpl; [done|].
  destruct (last_named n l) as [t0|].
  - intros [= <-]. destruct (IH eq_refl) as [Hin Hn]. split; [by right | done].
  - destruct (String.eqb_spec (name t') n); [|done].
    intros [= <-]. split; [left | done].
Qed.

Lemma merged_elem t l r : t ∈ _merge_tools l r → t ∈ l ∨ t ∈ r.
Proof.
  rewrite merge_unfold.
  assert (Hk : keyed (fold_left ins_right r (fold_left ins_left l []))).
  { apply keyed_fold_right, keyed_fold_left, keyed_nil. }
  rewrite (keyed_values_elem _ _ Hk), get_merged. unfold kept.
  destruct (last_named (name t) l) as [t0|] eqn:Hl.
  - intros [= ->]. left. by apply last_named_Some_elem in Hl as [Hin _].
  - intros Hf. right. by apply first_named_Some_elem in Hf as [Hin _].
Qed.

Lemma extract_elem fields deps_bm t :
  t ∈ _extract_tools_from_deps fields deps_bm
  ↔ truthy deps_bm = true
    ∧ ∃ fname fi, (fname, fi) ∈ fields ∧ getattr deps_bm fname = VTool t.
Proof.
  unfold _extract_tools_from_deps. destruct (truthy deps_bm).
  - rewrite list_elem_of_In, in_flat_map. split.
    + intros ([fname fi] & Hin & Ht). simpl in Ht. split; [done|].
      exists fname, fi. split; [by apply list_elem_of_In|].
      destruct (getattr deps_bm fname); try done.
      by destruct Ht as [->|[]].
    + intros (_ & fname & fi & Hin & Hg). exists (fname, fi).
      split; [by apply list_elem_of_In|]. simpl. rewrite Hg. by left.
  - split; [intros Hin; by apply elem_of_nil in Hin | by intros [? _]].
Qed.

Lemma only_tools_elem tools t : t ∈ only_tools tools ↔ VTool t ∈ tools.
Proof.
  unfold only_tools. rewrite !list_elem_of_In, in_flat_map. split.
  - intros (v & Hin & Ht). destruct v; try done. by destruct Ht as [->|[]].
  - intros Hin. exists (VTool t). split; [done | by left].
Qed.

(** X11: an agent that [__init__] builds holds tools with pairwise
    distinct names; each of them is a tool attribute of the validated
    dependencies or one of the tools passed in; every tool attribute of
    the validated dependencies and every tool passed in has its name
    among them; entries of the passed tools that are no tools are
    ignored; and the configuration and dependencies it holds are what
    validation returned. *)
Theorem init_tools `{NumberSyntax} (config_model deps_model : option ModelClass)
    (cfg deps : Value) (tools : list Value) (st : AgentState) :
  __init__ config_model deps_model cfg deps tools = Ok st →
  Agent._validate_with_model "ABCMeta" config_model cfg "config" = Ok (_cfg st)
  ∧ Agent._validate_with_model "ABCMeta" deps_model deps "deps" = Ok (_deps st)
  ∧ NoDup (map name (_tools st))
  ∧ (∀ t, t ∈ _tools st →
       VTool t ∈ tools ∨ ∃ fname, getattr (_deps st) fname = VTool t)
  ∧ (∀ t, VTool t ∈ tools → name t ∈ map name (_tools st))
  ∧ (∀ m fname fi t,
       deps_model = Some m → (fname, fi) ∈ model_fields m →
       getattr (_deps st) fname = VTool t →
       name t ∈ map name (_tools st))
  ∧ (∀ v, (∀ t, v ≠ VTool t) →
       __init__ config_model deps_model cfg deps (v :: tools) = Ok st).
Proof.
  unfold __init__.
  destruct (Agent._validate_with_model "ABCMeta" config_model cfg "config")
    as [cfg_valid|e]; [|done].
  destruct (Agent._validate_with_model "ABCMeta" deps_model deps "deps")
    as [deps_valid|e]; [|done].
  intros [= <-]. simpl.
  split; [done|]. split; [done|]. split; [apply merged_names_NoDup|].
  split; [|split; [|split]].
  - intros t Hin. apply merged_elem in Hin as [Hin|Hin].
    + right. apply extract_elem in Hin as (_ & fname & fi & _ & Hg). by exists fname.
    + left. by apply only_tools_elem.
  - intros t Hin. apply merged_name_elem. right.
    apply (list_elem_of_fmap_2 name). by apply only_tools_elem.
  - intros m fname fi t -> Hin Hg. apply merged_name_elem. left.
    apply (list_elem_of_fmap_2 name). apply extract_elem. split; [|by eauto].
    unfold getattr in Hg. by destruct deps_valid.
  - intros v Hv. do 3 f_equal. by destruct v; try done; destruct (Hv t).
Qed.

End ToolFacts.

(** ** Injection of dependencies *)

Section InjectFacts.
Import Pydantic Agent Context.
Context `{NumberSyntax}.

Lemma find_filter {X} (f g : X → bool) l :
  (∀ x, f x = true → g x = true) → find f (List.filter g l) = find f l.
Proof.
  intros Hfg. induction l as [|x l IH]; simpl; [done|].
  destruct (g x) eqn:Hg; simpl.
  - by destruct (f x).
  - destruct (f x) eqn:Hf; [|done]. apply Hfg in Hf. congruence.
Qed.

Lemma provided_for_relevant m utils fname fi :
  (fname, fi) ∈ model_fields m →
  provided_for (List.filter (relevant m) utils) (annotation fi)
  = provided_for utils (annotation fi).
Proof.
  intros Hin. unfold provided_for. rewrite find_filter; [done|].
  intros u Hu. unfold relevant. apply existsb_exists.
  exists (fname, fi). split; [by apply list_elem_of_In | done].
Qed.

Lemma fold_left_ext_in {X Y} (f g : Y → X → Y) l acc :
  (∀ a x, x ∈ l → f a x = g a x) → fold_left f l acc = fold_left g l acc.
Proof.
  revert acc. induction l as [|x l IH]; intros acc Hfg; simpl; [done|].
  rewrite Hfg by left. apply IH. intros a y Hy. apply Hfg. by right.
Qed.

Lemma inject_values_relevant m utils :
  inject_values (List.filter (relevant m) utils) (model_fields m)
  = inject_values utils (model_fields m).
Proof.
  unfold inject_values. apply fold_left_ext_in. intros values [fname fi] Hin. simpl.
  by rewrite (provided_for_relevant m utils fname fi Hin).
Qed.

Lemma inject_values_nil fields : inject_values [] fields = [].
Proof.
  unfold inject_values. induction fields as [|nf fields IH]; simpl; [done | exact IH].
Qed.

(** X12: utilities that match no slot of the model do not count: the
    pool without them injects the same; in particular the empty pool, or
    a pool with no matching utility, gives the model called with no
    argument, which is what validating [None] builds. *)
Theorem inject_ignores_irrelevant (utils : list Value) (m : ModelClass) :
  inject utils (Some m) = inject (List.filter (relevant m) utils) (Some m)
  ∧ inject [] (Some m) = construct m []
  ∧ (Forall (fun u => relevant m u = false) utils →
     inject utils (Some m) = construct m []).
Proof.
  unfold inject. split; [by rewrite inject_values_relevant|].
  split; [by rewrite inject_values_nil|].
  intros Hall. rewrite <- inject_values_relevant.
  assert (Hf : List.filter (relevant m) utils = []).
  { induction Hall as [|u utils Hu Hall IH]; simpl; [done|]. by rewrite Hu. }
  by rewrite Hf, inject_values_nil.
Qed.

(** X13: whatever [inject] returns passes [lookup_deps] of the same
    model with ok=true and no error, and validates to itself. *)
Theorem inject_then_lookup (class_name : string) (utils : list Value)
    (deps_model : option ModelClass) (deps : Value) :
  inject utils deps_model = Ok deps →
  _validate_with_model class_name deps_model deps "deps" = Ok deps
  ∧ ∃ r, lookup_deps class_name deps_model deps = Ok r
         ∧ report_get "ok" r = Some (VBool true)
         ∧ report_get "errors" r = Some (VList []).
Proof.
  unfold inject, lookup_deps. destruct deps_model as [m|].
  - intros Hc. destruct (construct_outcome m (inject_values utils (model_fields m)))
      as [[attrs Ha]|(e & errs & He)]; [|congruence].
    rewrite Ha in Hc. injection Hc as <-.
    assert (Hv : _validate_with_model class_name (Some m)
                   (VObj (model_cls m :: model_bases m) attrs) "deps"
                 = Ok (VObj (model_cls m :: model_bases m) attrs)).
    { unfold _validate_with_model. by rewrite isinstance_own_class. }
    split; [exact Hv|]. rewrite lookup_report_of. simpl where_name. rewrite Hv. simpl.
    eexists. split; [reflexivity|]. by split.
  - intros [= <-]. split; [done|]. eexists. split; [reflexivity|]. by split.
Qed.

(** X14: a utility that fills an instance-checked slot without being an
    instance of the slot's class, as the "expand" fallback allows, makes
    [inject] raise: the model rejects it with an "is_instance_of" error
    at that slot. *)
Theorem inject_rejects_duck (utils : list Value) (m : ModelClass) (slot : string)
    (fi : FieldInfo) (c : PyClass) (obj : Value) :
  is_model_class m →
  (slot, fi) ∈ model_fields m →
  base fi = BInstance c →
  provided_for utils (annotation fi) = obj →
  obj ≠ VNone →
  isinstance obj c = false →
  ∃ errs e,
    inject utils (Some m) = Raise (ValidationError errs)
    ∧ e ∈ errs
    ∧ e_type e = Some "is_instance_of"
    ∧ e_loc e = Some [LStr slot].
Proof.
  intros Hm Hin Hb Hp Hnn Hi.
  assert (Hslot := inject_values_get utils slot fi (model_fields m) (proj2 Hm) Hin).
  rewrite Hp in Hslot.
  assert (Hn : is_None obj = false) by (by destruct obj).
  rewrite Hn in Hslot.
  assert (Hv : ∃ f, validate_value fi obj = inr f ∧ fst (fst f) = "is_instance_of").
  { unfold validate_value, validate_base. rewrite Hb.
    assert (Hvi : validate_instance c obj
                  = inr ("is_instance_of", "Input should be an instance of " +:+ cls_name c,
                         Some (VDict [("class", VStr (cls_name c))]))).
    { unfold validate_instance. by rewrite Hi. }
    rewrite Hvi. eexists. by destruct obj. }
  destruct Hv as ([[ty msg] ctx] & Hv & Hty). simpl in Hty. subst ty.
  assert (Hf : validate_field (inject_values utils (model_fields m)) slot fi
               = inr (located slot ("is_instance_of", msg, ctx))).
  { unfold validate_field. by rewrite Hslot, Hv. }
  pose proof (validate_fields_error _ _ _ _ _ Hin Hf) as He.
  eexists _, _. unfold inject. rewrite (construct_error _ _ _ He).
  split; [reflexivity|]. split; [exact He|]. by split.
Qed.

End InjectFacts.

(** ** Model names and prices *)

Section PricingFacts.
Import Simple.

(** X15: the model name handed to the tokenizer is never empty, and
    normalizing a non-empty name twice is normalizing it once. *)
Theorem normalize_model_stable (model : string) :
  _normalize_model_for_encoding model ≠ ""
  ∧ (model ≠ "" →
     _normalize_model_for_encoding (_normalize_model_for_encoding model)
     = _normalize_model_for_encoding model).
Proof.
  assert (Hcases : model = ""
                   ∨ _normalize_model_for_encoding model = "gpt-4o"
                   ∨ _normalize_model_for_encoding model = "gpt-4.1"
                   ∨ (model ≠ "" ∧ startswith model "gpt-4o" = false
                      ∧ startswith model "gpt-4.1" = false
                      ∧ startswith model "o4" = false
                      ∧ _normalize_model_for_encoding model = model)).
  { unfold _normalize_model_for_encoding.
    destruct (String.eqb_spec model "") as [->|Hne]; [by left|right].
    destruct (startswith model "gpt-4o") eqn:H1; [by left|].
    destruct (startswith model "gpt-4.1") eqn:H2; [by right; left|].
    destruct (startswith model "o4") eqn:H3; [by left|].
    by right; right. }
  destruct Hcases as [->|[Hn|[Hn|(Hne & H1 & H2 & H3 & Hn)]]].
  - by split.
  - rewrite Hn. by split.
  - rewrite Hn. by split.
  - rewrite Hn. split; [done|]. intros _. exact Hn.
Qed.

Lemma append_empty_r s : s +:+ "" = s.
Proof. induction s as [|a s IH]; [done|]. rewrite append_cons. congruence. Qed.

Lemma startswith_append key suffix : startswith (key +:+ suffix) key = true.
Proof. apply startswith_spec. by exists suffix. Qed.

(** X16: a model name made of a key of the price table and a suffix,
    such as a date, gets the price of that key, provided no longer key of
    the table is a prefix of the name. *)
Theorem dated_variant_price (key suffix : string) (price : Q * Q) :
  (key, price) ∈ PRICING_PER_1K →
  (∀ key', key' ∈ dict_keys PRICING_PER_1K →
           startswith (key +:+ suffix) key' = true →
           (String.length key' ≤ String.length key)%nat) →
  match_pricing (key +:+ suffix) = price.
Proof.
  intros Hin Hmax.
  destruct (dict_get (key +:+ suffix) PRICING_PER_1K) as [price'|] eqn:Hg.
  - rewrite (match_pricing_exact _ _ Hg).
    assert (Hk : key +:+ suffix ∈ dict_keys PRICING_PER_1K).
    { apply dict_get_Some_elem in Hg. by apply (list_elem_of_fmap_2 fst) in Hg. }
    specialize (Hmax _ Hk (startswith_refl _)). rewrite length_append in Hmax.
    assert (Hs : suffix = "") by (destruct suffix; [done | simpl in Hmax; lia]).
    subst suffix. rewrite append_empty_r in Hg.
    pose proof (dict_elem_get _ _ _ pricing_keys_NoDup Hin). congruence.
  - apply (match_pricing_longest _ key); try done. apply startswith_append.
Qed.

(** X17: the cost estimate never decreases when a token count grows, and
    it is exactly zero for no tokens; so it is never negative for
    non-negative counts.  The same holds of the cost a record stores,
    the estimate rounded to 8 decimals. *)
Theorem estimate_cost_monotone (model : string) (p c p' c' : Z) :
  ((p ≤ p')%Z → (c ≤ c')%Z →
   (estimate_cost_usd model p c <= estimate_cost_usd model p' c')%Q
   ∧ (py_round (estimate_cost_usd model p c) 8
      <= py_round (estimate_cost_usd model p' c') 8)%Q)
  ∧ estimate_cost_usd model 0 0 = 0%Q
  ∧ py_round (estimate_cost_usd model 0 0) 8 = 0%Q
  ∧ ((0 ≤ p)%Z → (0 ≤ c)%Z →
     (0 <= estimate_cost_usd model p c)%Q
     ∧ (0 <= py_round (estimate_cost_usd model p c) 8)%Q).
Proof.
  assert (Hzero : py_round (estimate_cost_usd model 0 0) 8 = 0%Q).
  { apply py_round_zero. by rewrite estimate_no_tokens. }
  split; [|split; [apply estimate_no_tokens|split; [exact Hzero|]]].
  - intros Hp Hc. pose proof (estimate_mono model p c p' c' Hp Hc) as Hle.
    split; [exact Hle | by apply py_round_mono].
  - intros Hp Hc. pose proof (estimate_mono model 0 0 p c Hp Hc) as Hle.
    split; [by rewrite <- (estimate_no_tokens model)|].
    rewrite <- Hzero. by apply py_round_mono.
Qed.

End PricingFacts.

(** ** The life of an invocation record *)

Section RecordFacts.
Import Simple.
Variable tiktoken : option Tiktoken.

(** X18: a second start for a run id that is still in flight replaces
    the first: the handler is as if only the second start had happened. *)
Theorem last_start_wins (h : CostTracingHandler) (first second : Event) :
  is_start first = true → is_start second = true →
  event_run_id first = event_run_id second →
  run_events tiktoken h [first; second] = run_events tiktoken h [second].
Proof.
  intros H1 H2 Hr.
  destruct first as [s1 p1 r1 par1 t1|s1 m1 r1 par1 t1| |]; try discriminate H1;
    destruct second as [s2 p2 r2 par2 t2|s2 m2 r2 par2 t2| |]; try discriminate H2;
    simpl in Hr; subst r2; unfold run_events; cbn [fold_left dispatch];
    unfold on_llm_start, on_chat_model_start, _start_common; cbn [fst calls finished];
    by rewrite insert_insert_eq.
Qed.




End RecordFacts.

(** ** What an end event records *)

Section EndFacts.
Import Simple.
Variable tiktoken : option Tiktoken.


End EndFacts.

(** ** Chat starts *)

Section StartFacts.
Import Simple.

Lemma preview_nonempty text : preview text ≠ "".
Proof.
  unfold preview. destruct (slice_to 200 text) as [|a rest].
  - rewrite append_nil. discriminate.
  - rewrite append_cons. discriminate.
Qed.

(** X21: a chat start stores, under the run id, a record of kind "chat"
    whose prompts are the non-empty conversation texts, in the order of
    the conversations: the stored list is the list of the conversation
    texts, in that order, with the empty ones filtered out.  So no prompt
    is empty, there are at most as many as conversations, and the prompt
    preview is empty exactly when every conversation has an empty text.  The log line reports the number of
    stored prompts, and the finished sequence is untouched. *)
Theorem chat_start_prompts (h : CostTracingHandler) (serialized : list (string * Value))
    (messages : list (list Message)) (r : string) (parent : option string) (t0 : Q) :
  ∃ c,
    calls (fst (on_chat_model_start h serialized messages r parent t0)) !! r = Some c
    ∧ finished (fst (on_chat_model_start h serialized messages r parent t0)) = finished h
    ∧ snd (on_chat_model_start h serialized messages r parent t0)
      = [LogStart "chat" r (length (prompts c))]
    ∧ kind c = "chat"
    ∧ prompts c
      = List.filter (fun text => negb (String.eqb text "")) (map convo_text messages)
    ∧ (∀ p, p ∈ prompts c ↔ p ≠ "" ∧ ∃ convo, convo ∈ messages ∧ p = convo_text convo)
    ∧ (length (prompts c) ≤ length messages)%nat
    ∧ (length (prompts c) = length messages ↔
       ∀ convo, convo ∈ messages → convo_text convo ≠ "")
    ∧ (prompt_preview c = "" ↔ ∀ convo, convo ∈ messages → convo_text convo = "").
Proof.
  unfold on_chat_model_start, _start_common. cbn [fst snd calls finished].
  eexists. split; [apply lookup_insert_eq|]. split; [done|]. split; [done|].
  cbn [kind prompts prompt_preview]. split; [done|]. split; [done|].
  set (nonempty := fun text : string => negb (String.eqb text "")).
  assert (Hne : ∀ t, nonempty t = true ↔ t ≠ "").
  { intros t. unfold nonempty. rewrite negb_true_iff. split.
    - intros Hf ->. by rewrite String.eqb_refl in Hf.
    - intros Hn. by apply String.eqb_neq. }
  split; [|split; [|split]].
  - intros p. rewrite list_elem_of_In, List.filter_In, <- list_elem_of_In, Hne.
    rewrite list_elem_of_fmap. naive_solver.
  - rewrite <- (length_map convo_text messages). apply List.filter_length_le.
  - rewrite <- (length_map convo_text messages).
    induction messages as [|convo rest IH]; simpl.
    + split; [intros _ convo Hin; by apply elem_of_nil in Hin | done].
    + pose proof (List.filter_length_le nonempty (map convo_text rest)) as Hle.
      destruct (nonempty (convo_text convo)) eqn:Hc; simpl.
      * split.
        -- intros [= Hlen] convo' [->|Hin]%elem_of_cons; [by apply Hne|].
           by apply IH.
        -- intros Hall. f_equal. apply IH. intros convo' Hin. apply Hall. by right.
      * split; [intros Hlen; lia|].
        intros Hall. exfalso. specialize (Hall convo (list_elem_of_here _ _)).
        apply Hne in Hall. congruence.
  - induction messages as [|convo rest IH]; simpl.
    + split; [intros _ convo Hin; by apply elem_of_nil in Hin | done].
    + destruct (nonempty (convo_text convo)) eqn:Hc; simpl.
      * split; [intros Hp; by apply preview_nonempty in Hp|].
        intros Hall. specialize (Hall convo (list_elem_of_here _ _)).
        apply Hne in Hc. done.
      * rewrite IH. split.
        -- intros Hall convo' [->|Hin]%elem_of_cons; [|by apply Hall].
           unfold nonempty in Hc. by apply negb_false_iff, String.eqb_eq in Hc.
        -- intros Hall convo' Hin. apply Hall. by right.
Qed.

End StartFacts.

(** ** The finished sequence *)

Section FinishedFacts.
Import Simple.
Variable tiktoken : option Tiktoken.

Lemma finish_events_cons ev evs :
  finish_events (ev :: evs)
  = ((if is_start ev then 0 else 1) + finish_events evs)%nat.
Proof. unfold finish_events. simpl. by destruct (is_start ev). Qed.

(** X22: the finished sequence only grows at its end: whatever the
    callbacks, the records finished before are still there, unchanged and
    in the same order, and at most one record is added per end or error
    event. *)
Theorem finished_append_only (h : CostTracingHandler) (evs : list Event) :
  ∃ new,
    finished (run_events tiktoken h evs) = (finished h ++ new)%list
    ∧ (length new ≤ finish_events evs)%nat.
Proof.
  revert h. induction evs as [|ev evs IH]; intros h.
  - exists []. split; [by rewrite app_nil_r | done].
  - rewrite run_events_cons, finish_events_cons.
    destruct (IH (fst (dispatch tiktoken h ev))) as (new & Hnew & Hlen).
    destruct (dispatch_effect tiktoken h ev)
      as [c Hs Hr Hf Hcalls Hfin|c c' Hs Hc Hr Hcalls Hfin|Hs Hc Heq].
    + exists new. rewrite Hnew, Hfin. split; [done | lia].
    + exists (c' :: new). rewrite Hnew, Hfin, <- app_assoc. split; [done|].
      rewrite Hs. simpl. lia.
    + exists new. rewrite Hnew, Heq. split; [done | lia].
Qed.

Lemma dispatch_closed h ev :
  (∀ r c, calls h !! r = Some c → pending c) → Forall closed (finished h) →
  (∀ r c, calls (fst (dispatch tiktoken h ev)) !! r = Some c → pending c)
  ∧ Forall closed (finished (fst (dispatch tiktoken h ev))).
Proof.
  intros Hpend Hclosed.
  assert (Hstart : ∀ kind_ serialized prompts_ rid parent t0,
    (∀ r c, calls (fst (_start_common h kind_ serialized prompts_ rid parent t0)) !! r
            = Some c → pending c)
    ∧ Forall closed (finished (fst (_start_common h kind_ serialized prompts_ rid parent t0)))).
  { intros. unfold _start_common. cbn [fst calls finished]. split; [|done].
    intros r c. destruct (decide (rid = r)) as [->|Hne].
    - rewrite lookup_insert_eq. intros [= <-]. by repeat split.
    - rewrite lookup_insert_ne by done. apply Hpend. }
  destruct ev as [ser ps rid par t0|ser ms rid par t0|resp rid t1|err rid t1];
    cbn [dispatch].
  - apply Hstart.
  - apply Hstart.
  - unfold on_llm_end, _end_common.
    destruct (calls h !! rid) as [call|] eqn:Hc; [|done].
    cbv zeta. cbn [fst calls finished]. split.
    + intros r c Hr. apply lookup_delete_Some in Hr as [_ Hr]. by apply (Hpend r).
    + apply Forall_app. split; [done|]. apply Forall_singleton.
      exists t1. cbn [end_time latency_ms start_time Simple.error model].
      split; [done|]. split; [done|]. right. split; [done|].
      rewrite extract_reported_model. eexists. split; [done|].
      apply reported_model_nonempty.
  - unfold on_llm_error.
    destruct (calls h !! rid) as [call|] eqn:Hc; [|done].
    cbn [fst calls finished]. split.
    + intros r c Hr. apply lookup_delete_Some in Hr as [_ Hr]. by apply (Hpend r).
    + apply Forall_app. split; [done|]. apply Forall_singleton.
      destruct (Hpend _ _ Hc) as ((Hp & Hcomp & Ht & Hcost & _) & Hm & Ho).
      exists t1. cbn. split; [done|]. split; [done|]. left.
      split; [by eexists|]. done.
Qed.

(** X23: after any sequence of callbacks on a new handler, every finished
    record has an end time and, as latency, the milliseconds from its
    start time to it; a record finished by an error carries the message,
    no model, no output preview, zero tokens and zero cost; every other
    one carries no error and a non-empty model name. *)
Theorem finished_records_closed (evs : list Event) (c : Call) :
  c ∈ finished (run_events tiktoken new_handler evs) → closed c.
Proof.
  assert (Hinv : ∀ h,
    (∀ r c, calls h !! r = Some c → pending c) → Forall closed (finished h) →
    Forall closed (finished (run_events tiktoken h evs))).
  { induction evs as [|ev evs IH]; intros h Hpend Hclosed; [done|].
    rewrite run_events_cons.
    destruct (dispatch_closed h ev Hpend Hclosed) as [Hp' Hc']. by apply IH. }
  intros Hin. eapply Forall_forall; [apply (Hinv new_handler)| exact Hin].
  - intros r c' Hr. simpl in Hr. by rewrite lookup_empty in Hr.
  - by apply Forall_nil.
Qed.

End FinishedFacts.

(** ** Token estimates *)

Section EstimateFacts.
Import Simple.

Lemma usage_falsy_cases a :
  usage_truthy a = false → a = None ∨ a = Some [].
Proof. destruct a as [[|]|]; auto. discriminate. Qed.

Lemma count_tokens_nonneg tiktoken model_ text : (0 ≤ _count_tokens tiktoken model_ text)%Z.
Proof.
  unfold _count_tokens. destruct text, tiktoken; try done;
    destruct (_encoding_for_model _ _) as [enc|]; try done;
    destruct (encode enc _); try done; lia.
Qed.

Lemma extract_no_usage call response :
  no_usage response = true →
  x_prompt_toks (extract None call response) = 0%Z
  ∧ x_comp_toks (extract None call response) = 0%Z
  ∧ x_total_toks (extract None call response) = 0%Z.
Proof.
  unfold no_usage, usage_sources, extract. cbv zeta.
  cbn [x_prompt_toks x_comp_toks x_total_toks].
  intros Hno. rewrite forallb_app in Hno. apply andb_prop in Hno as [Hlo Hgen].
  assert (Hcount : ∀ m t, _count_tokens None m t = 0%Z) by (by intros m []).
  rewrite !Hcount.
  destruct (llm_output response) as [lo|];
    [destruct (lo_openai_api_response lo) as [[raw_]|]|];
    (destruct (first_generation response) as [g|];
     [rewrite forallb_app in Hgen; apply andb_prop in Hgen as [Hgi Hrm];
      destruct (generation_info g) as [gi|];
      (destruct (message g) as [m|]; [destruct (response_metadata m) as [md|]|])|]);
    cbn [forallb empty_llm_output lo_token_usage lo_usage lo_openai_api_response
         raw_usage empty_generation_info gi_token_usage gi_usage
         empty_metadata rm_token_usage rm_usage] in *;
    repeat match goal with
           | H : _ && _ = true |- _ => apply andb_prop in H as [? ?]
           | H : negb _ = true |- _ => apply negb_true_iff in H
           | H : usage_truthy ?u = false |- _ =>
               apply usage_falsy_cases in H as [H|H]; rewrite ?H in *; clear H
           end;
    done.
Qed.

(** X24: when the tokenizer library is not installed, an end event whose
    response holds no non-empty usage block anywhere records zero prompt,
    completion and total tokens and a zero cost, whatever the prompts and
    the output were. *)
Theorem no_tokenizer_no_usage (h : CostTracingHandler) (response : LLMResult)
    (r : string) (t1 : Q) (call : Call) :
  calls h !! r = Some call →
  no_usage response = true →
  ∃ rec,
    finished (fst (on_llm_end None h response r t1)) = (finished h ++ [rec])%list
    ∧ prompt_tokens rec = 0%Z
    ∧ completion_tokens rec = 0%Z
    ∧ total_tokens rec = 0%Z
    ∧ cost_usd rec == 0.
Proof.
  intros Hc Hno. unfold on_llm_end, _end_common. rewrite Hc. cbv zeta.
  destruct (extract_no_usage call response Hno) as (Hp & Hcomp & Ht).
  cbn [fst finished]. eexists. split; [reflexivity|].
  cbn [prompt_tokens completion_tokens total_tokens cost_usd].
  split; [done|]. split; [done|]. split; [done|].
  rewrite Hp, Hcomp. rewrite py_round_zero; [done|]. by rewrite estimate_no_tokens.
Qed.

(** X25: a token count is never negative, and it is zero for the empty
    text; the model name counts only through the encoding family it is
    normalized to, so every name that starts with "gpt-4o" or with "o4"
    gives the same count for a text. *)
Theorem count_tokens_family (tiktoken : option Tiktoken) (m1 m2 text : string) :
  (0 ≤ _count_tokens tiktoken m1 text)%Z
  ∧ _count_tokens tiktoken m1 "" = 0%Z
  ∧ (_normalize_model_for_encoding m1 = _normalize_model_for_encoding m2 →
     _count_tokens tiktoken m1 text = _count_tokens tiktoken m2 text)
  ∧ ((startswith m1 "gpt-4o" = true ∨ startswith m1 "o4" = true) →
     (startswith m2 "gpt-4o" = true ∨ startswith m2 "o4" = true) →
     _count_tokens tiktoken m1 text = _count_tokens tiktoken m2 text).
Proof.
  assert (Hnorm : ∀ a b, _normalize_model_for_encoding a = _normalize_model_for_encoding b →
                         _count_tokens tiktoken a text = _count_tokens tiktoken b text).
  { intros a b Hab. unfold _count_tokens, _encoding_for_model. by rewrite Hab. }
  assert (Hfam : ∀ m, startswith m "gpt-4o" = true ∨ startswith m "o4" = true →
                      _normalize_model_for_encoding m = "gpt-4o").
  { intros m Hm. unfold _normalize_model_for_encoding.
    destruct (String.eqb_spec m "") as [->|Hne]; [by destruct Hm|].
    destruct (startswith m "gpt-4o"); [done|].
    destruct (startswith m "gpt-4.1") eqn:H41;
      [|destruct Hm as [Hm|Hm]; [done | by rewrite Hm]].
    exfalso. destruct Hm as [Hm|Hm]; [done|].
    destruct m as [|a m']; [done|]. unfold startswith in H41, Hm.
    cbn [String.prefix] in H41, Hm.
    destruct (ascii_dec "g" a) as [<-|]; [|done].
    by destruct (ascii_dec "o" "g"). }
  split; [apply count_tokens_nonneg|]. split; [done|]. split; [apply Hnorm|].
  intros H1 H2. apply Hnorm. by rewrite (Hfam m1 H1), (Hfam m2 H2).
Qed.

End EstimateFacts.

(** ** The schema printer *)

Section InspectFacts.
Import Pydantic Inspector.
Variable model_json_schema : ModelClass → list (string * Value).

Lemma setdefault_get k v d k' :
  dict_get k' (setdefault k v d)
  = match dict_get k' d with
    | Some x => Some x
    | None => if String.eqb k' k then Some v else None
    end.
Proof.
  unfold setdefault, dict_mem. destruct (dict_get k d) as [x|] eqn:Hk.
  - destruct (String.eqb_spec k' k) as [->|Hne]; [by rewrite Hk|].
    by destruct (dict_get k' d).
  - destruct (String.eqb_spec k' k) as [->|Hne].
    + by rewrite dict_get_set_eq, Hk.
    + rewrite dict_get_set_ne by done. by destruct (dict_get k' d).
Qed.

(** X26: [inspect] returns [None] in every case, also after it built a
    schema.  For an agent without config model it prints nothing; for one
    with a model it prints one schema, in which every key of the
    library's schema keeps its value, [$id] and [title] get the values
    derived from the agent's name only when the library's schema lacks
    them, and no other key is added. *)
Theorem inspect_prints_schema (agent_name : string) (config_model : option ModelClass) :
  fst (inspect model_json_schema agent_name config_model) = VNone
  ∧ (config_model = None → snd (inspect model_json_schema agent_name config_model) = [])
  ∧ (∀ m, config_model = Some m →
     ∃ schema,
       snd (inspect model_json_schema agent_name config_model) = [schema]
       ∧ (∀ k v, dict_get k (model_json_schema m) = Some v → dict_get k schema = Some v)
       ∧ (dict_get "$id" (model_json_schema m) = None →
          dict_get "$id" schema
          = Some (VStr ("urn:agent-config:" +:+ agent_name +:+ ":1.0.0")))
       ∧ (dict_get "title" (model_json_schema m) = None →
          dict_get "title" schema = Some (VStr (agent_name +:+ "Config")))
       ∧ (∀ k, dict_get k (model_json_schema m) = None → k ≠ "$id" → k ≠ "title" →
          dict_get k schema = None)).
Proof.
  split; [by destruct config_model|]. split; [by intros ->|].
  intros m ->. unfold inspect. cbv zeta. cbn [snd]. eexists. split; [reflexivity|].
  split; [|split; [|split]].
  - intros k v Hk. by rewrite !setdefault_get, Hk.
  - intros Hk. by rewrite !setdefault_get, Hk.
  - intros Hk. by rewrite !setdefault_get, Hk.
  - intros k Hk Hid Htitle. rewrite !setdefault_get, Hk.
    destruct (String.eqb_spec k "$id"); [done|].
    by destruct (String.eqb_spec k "title").
Qed.

End InspectFacts.

(** ** The further properties at concrete inputs *)

Section FurtherWitnesses.
Import Pydantic Agent Tooled Context LibAgent Simple.

Lemma TooledConfig_is_model_class : is_model_class TooledConfig.
Proof.
  split.
  - unfold builtin_classes. rewrite !not_elem_of_cons.
    repeat split; try discriminate. apply not_elem_of_nil.
  - compute_done.
Defined.

Lemma TooledDeps_is_model_class : is_model_class TooledDeps.
Proof.
  split.
  - unfold builtin_classes. rewrite !not_elem_of_cons.
    repeat split; try discriminate. apply not_elem_of_nil.
  - compute_done.
Defined.

Lemma lookup_report_invariant_witness :
  ∃ r,
    _lookup_with_model (H := no_syntax) "SampleAgent" (Some Sample) (VDict [])
      (where_name Config) = Ok r
    ∧ report_get "schema" r = Some VNone.
Proof.
  eassert (Hr : _lookup_with_model (H := no_syntax) "SampleAgent" (Some Sample) (VDict [])
                  (where_name Config) = Ok _) by (vm_compute; reflexivity).
  eexists. split; [exact Hr|].
  exact (proj1 (lookup_report_invariant (H := no_syntax) "SampleAgent" _ _ Config _ Hr)).
Defined.

Lemma lookup_errors_from_validation_witness :
  ∃ r items,
    _lookup_with_model (H := no_syntax) "SampleAgent" (Some Sample) (VDict [])
      (where_name Config) = Ok r
    ∧ report_get "ok" r = Some (VBool false)
    ∧ report_get "errors" r = Some (VList items).
Proof.
  eassert (Hr : _lookup_with_model (H := no_syntax) "SampleAgent" (Some Sample) (VDict [])
                  (where_name Config) = Ok _) by (vm_compute; reflexivity).
  destruct (lookup_errors_from_validation (H := no_syntax) "SampleAgent" _ _ Config _ Hr
              eq_refl) as (items & _ & Herrs & _).
  eexists _, items. split; [exact Hr|]. split; [reflexivity | exact Herrs].
Defined.

Lemma resolve_after_lookup_witness :
  ∃ r1,
    lookup_config (H := no_syntax) "TooledAgent" (Some TooledConfig) VNone = Ok r1
    ∧ report_get "ok" r1 = Some (VBool true)
    ∧ ∃ cfg_valid deps_valid,
        Agent.resolve (H := no_syntax) "TooledAgent" (Some TooledConfig) (Some TooledDeps)
          Tooled._execute "hola" VNone VNone
        = Tooled._execute "hola" cfg_valid deps_valid.
Proof.
  eassert (H1 : lookup_config (H := no_syntax) "TooledAgent" (Some TooledConfig) VNone
                = Ok _) by (vm_compute; reflexivity).
  eassert (H2 : lookup_deps (H := no_syntax) "TooledAgent" (Some TooledDeps) VNone
                = Ok _) by (vm_compute; reflexivity).
  destruct (resolve_after_lookup (H := no_syntax) "TooledAgent" (Some TooledConfig)
              (Some TooledDeps) Tooled._execute "hola" VNone VNone _ H1) as [_ Hok].
  destruct (Hok eq_refl _ H2) as [_ Hboth].
  destruct (Hboth eq_refl) as (cfg_valid & deps_valid & _ & _ & Hres).
  eexists. split; [exact H1|]. split; [reflexivity|]. by exists cfg_valid, deps_valid.
Defined.

Lemma tooled_resolve_witness :
  (VDict [("rag", Spec.expander 1)] = VNone
   ∨ ∃ d, VDict [("rag", Spec.expander 1)] = VDict d
          ∧ ∀ d', dict_get "memory" d ≠ Some (VDict d'))
  ∧ Tooled.resolve (H := no_syntax) "hola" VNone (VDict [("rag", Spec.expander 1)])
    = Ok ([Spec.expander 1], "verde").
Proof.
  assert (Hd : VDict [("rag", Spec.expander 1)] = VNone
               ∨ ∃ d, VDict [("rag", Spec.expander 1)] = VDict d
                      ∧ ∀ d', dict_get "memory" d ≠ Some (VDict d')).
  { right. eexists. split; [reflexivity|]. intros d'. vm_compute. discriminate. }
  eassert (H1 : _validate_with_model (H := no_syntax) "TooledAgent"
                  (Some TooledConfig) VNone "config" = Ok _)
    by (vm_compute; reflexivity).
  eassert (H2 : _validate_with_model (H := no_syntax) "TooledAgent"
                  (Some TooledDeps) (VDict [("rag", Spec.expander 1)]) "deps" = Ok _)
    by (vm_compute; reflexivity).
  split; [exact Hd|].
  exact (proj1 (tooled_resolve (H := no_syntax) "hola" VNone
                  (VDict [("rag", Spec.expander 1)]) Hd) _ _ H1 H2).
Defined.

Lemma tooled_config_in_range_witness :
  (VNone = VNone ∨ ∃ d, VNone = VDict d)
  ∧ ∃ inst t n,
      _validate_with_model (H := no_syntax) "TooledAgent" (Some TooledConfig) VNone "config"
      = Ok inst
      ∧ getattr inst "temperature" = VFloat t ∧ (0 <= t)%Q ∧ (t <= 2)%Q
      ∧ getattr inst "max_tokens" = VInt n ∧ (1 ≤ n)%Z ∧ (n ≤ 8192)%Z.
Proof.
  assert (Hd : VNone = VNone ∨ ∃ d, VNone = VDict d) by (left; reflexivity).
  eassert (Hv : _validate_with_model (H := no_syntax) "TooledAgent" (Some TooledConfig)
                  VNone "config" = Ok _) by (vm_compute; reflexivity).
  split; [exact Hd|].
  destruct (tooled_config_in_range (H := no_syntax) "TooledAgent" VNone _ Hd Hv)
    as (t & n & Hrange).
  eexists _, t, n. split; [exact Hv | exact Hrange].
Defined.

Lemma defaults_never_missing_witness :
  Forall (fun nf => default (snd nf) ≠ None) (model_fields TooledConfig)
  ∧ ∃ inst,
      _validate_with_model (H := no_syntax) "TooledAgent" (Some TooledConfig) VNone "config"
      = Ok inst.
Proof.
  assert (Hall : Forall (fun nf => default (snd nf) ≠ None) (model_fields TooledConfig)).
  { simpl. repeat constructor; discriminate. }
  split; [exact Hall|].
  exact (proj1 (defaults_never_missing (H := no_syntax) "TooledAgent" TooledConfig "config"
                  Hall)).
Defined.

Lemma lookup_validated_keys_witness :
  is_model_class TooledConfig
  ∧ (VNone = VNone ∨ ∃ d, VNone = VDict d)
  ∧ ∃ r d,
      _lookup_with_model (H := no_syntax) "TooledAgent" (Some TooledConfig) VNone
        (where_name Config) = Ok r
      ∧ report_get "ok" r = Some (VBool true)
      ∧ report_get (where_name Config) r = Some (VDict d)
      ∧ dict_keys d = ["model"; "temperature"; "max_tokens"; "lang"; "system_prompt"].
Proof.
  assert (Hd : VNone = VNone ∨ ∃ d, VNone = VDict d) by (left; reflexivity).
  eassert (Hr : _lookup_with_model (H := no_syntax) "TooledAgent" (Some TooledConfig) VNone
                  (where_name Config) = Ok _) by (vm_compute; reflexivity).
  split; [exact TooledConfig_is_model_class|]. split; [exact Hd|].
  destruct (lookup_validated_keys (H := no_syntax) "TooledAgent" TooledConfig VNone Config _
              TooledConfig_is_model_class Hd Hr eq_refl) as (d & Hget & Hkeys).
  eexists _, d. split; [exact Hr|]. split; [reflexivity|]. split; [exact Hget | exact Hkeys].
Defined.

Lemma init_tools_witness :
  ∃ st,
    __init__ (H := no_syntax) None None VNone VNone [VTool (wikipedia_tool 1)] = Ok st
    ∧ NoDup (map name (_tools st)).
Proof.
  eassert (Hst : __init__ (H := no_syntax) None None VNone VNone [VTool (wikipedia_tool 1)]
                 = Ok _) by (vm_compute; reflexivity).
  destruct (init_tools (H := no_syntax) None None VNone VNone [VTool (wikipedia_tool 1)] _ Hst)
    as (_ & _ & Hnd & _).
  eexists. split; [exact Hst | exact Hnd].
Defined.

Lemma inject_then_lookup_witness :
  ∃ deps,
    inject (H := no_syntax) [] (Some TooledDeps) = Ok deps
    ∧ _validate_with_model (H := no_syntax) "TooledAgent" (Some TooledDeps) deps "deps"
      = Ok deps.
Proof.
  eassert (Hi : inject (H := no_syntax) [] (Some TooledDeps) = Ok _)
    by (vm_compute; reflexivity).
  eexists. split; [exact Hi|].
  exact (proj1 (inject_then_lookup (H := no_syntax) "TooledAgent" [] (Some TooledDeps) _ Hi)).
Defined.

Lemma inject_rejects_duck_witness :
  is_model_class TooledDeps
  ∧ ("rag", plain (BInstance cls_RAGExpander) VNone) ∈ model_fields TooledDeps
  ∧ provided_for [duck] (annotation (plain (BInstance cls_RAGExpander) VNone)) = duck
  ∧ duck ≠ VNone
  ∧ isinstance duck cls_RAGExpander = false
  ∧ ∃ errs e,
      inject (H := no_syntax) [duck] (Some TooledDeps) = Raise (ValidationError errs)
      ∧ e ∈ errs
      ∧ e_type e = Some "is_instance_of"
      ∧ e_loc e = Some [LStr "rag"].
Proof.
  assert (Hin : ("rag", plain (BInstance cls_RAGExpander) VNone) ∈ model_fields TooledDeps)
    by (right; left).
  assert (Hp : provided_for [duck] (annotation (plain (BInstance cls_RAGExpander) VNone))
               = duck) by reflexivity.
  assert (Hne : duck ≠ VNone) by discriminate.
  assert (Hinst : isinstance duck cls_RAGExpander = false) by reflexivity.
  split; [exact TooledDeps_is_model_class|]. split; [exact Hin|]. split; [exact Hp|].
  split; [exact Hne|]. split; [exact Hinst|].
  exact (inject_rejects_duck (H := no_syntax) [duck] TooledDeps "rag" _ cls_RAGExpander duck
           TooledDeps_is_model_class Hin eq_refl Hp Hne Hinst).
Defined.

Lemma dated_variant_price_witness :
  ("gpt-4o", (5 # 1, 15 # 1)%Q) ∈ PRICING_PER_1K
  ∧ match_pricing ("gpt-4o" +:+ "-2024-08-06") = (5 # 1, 15 # 1)%Q.
Proof.
  assert (Hin : ("gpt-4o", (5 # 1, 15 # 1)%Q) ∈ PRICING_PER_1K) by (right; left).
  split; [exact Hin|].
  apply (dated_variant_price "gpt-4o" "-2024-08-06" _ Hin).
  intros key' Hkey Hpre. unfold dict_keys in Hkey. simpl in Hkey.
  repeat (apply elem_of_cons in Hkey as [->|Hkey]);
    try (vm_compute in Hpre; discriminate Hpre); try (simpl; lia).
  by apply elem_of_nil in Hkey.
Defined.

Lemma last_start_wins_witness :
  run_events None new_handler
    [LlmStart [] ["a"] "r1" None 0; ChatModelStart [] [] "r1" None 1]
  = run_events None new_handler [ChatModelStart [] [] "r1" None 1].
Proof.
  exact (last_start_wins None new_handler (LlmStart [] ["a"] "r1" None 0)
           (ChatModelStart [] [] "r1" None 1) eq_refl eq_refl eq_refl).
Defined.



Lemma finished_records_closed_witness :
  ∃ c,
    c ∈ finished (run_events None new_handler
                    [LlmStart [] ["hola"] "r1" None 0; LlmError "boom" "r1" 2])
    ∧ closed c.
Proof.
  eassert (Hin : _ ∈ finished (run_events None new_handler
                                 [LlmStart [] ["hola"] "r1" None 0;
                                  LlmError "boom" "r1" 2])).
  { unfold run_events. cbn [fold_left dispatch].
    unfold on_llm_start, _start_common, on_llm_error. cbn [fst calls finished].
    rewrite lookup_insert_eq. cbn [fst finished app]. left. }
  eexists. split; [exact Hin|].
  exact (finished_records_closed None _ _ Hin).
Defined.

Lemma no_tokenizer_no_usage_witness :
  ∃ call rec,
    calls (run_events None new_handler [LlmStart [] ["hola"] "r1" None 0]) !! "r1"
    = Some call
    ∧ no_usage {| llm_output := None; generations := None |} = true
    ∧ finished (fst (on_llm_end None
                       (run_events None new_handler [LlmStart [] ["hola"] "r1" None 0])
                       {| llm_output := None; generations := None |} "r1" 1))
      = [rec]
    ∧ total_tokens rec = 0%Z.
Proof.
  eassert (Hc : calls (run_events None new_handler [LlmStart [] ["hola"] "r1" None 0])
                  !! "r1" = Some _) by apply lookup_insert_eq.
  destruct (no_tokenizer_no_usage
              (run_events None new_handler [LlmStart [] ["hola"] "r1" None 0])
              {| llm_output := None; generations := None |} "r1" 1 _ Hc eq_refl)
    as (rec & Hfin & _ & _ & Htotal & _).
  eexists _, rec. split; [exact Hc|]. split; [reflexivity|]. by split.
Defined.

End FurtherWitnesses.
